(** * CDG (CD+Graphics) decode / render / clock pipeline

    A shallow embedding of the CDG packet parser, the tile renderer and the
    playback clock (parser.ts and player.ts), with the properties of the
    pipeline proved over it.

    Conventions of the embedding:
    - a [Buffer] or [Uint8Array] is a [list Z]; reads out of range give
      [None] (JavaScript's [undefined]), stores out of range are dropped,
      stores into a [Uint8Array] wrap modulo 256;
    - a JavaScript number holding a time is the rational number ([Q]) it
      denotes; the quotient and the product of the two time expressions of
      the decoder are rounded to binary64 as JavaScript rounds them
      ([binary64]), and the sums and differences the clock takes of these
      times and of [Date.now()] values are exact;
    - [Date.now()] is an argument of the operation that reads it;
    - the events handed to [EventEmitter.emit] are collected in a log. *)

From Stdlib Require Import ZArith QArith Qminmax Qround Qpower Lqa Lia String Sorted.
From Stdlib Require Import PrimFloat Uint63 Floats.
From stdpp Require Import base tactics option list.

Local Open Scope Z_scope.

(** ** Constants (parser.ts) *)

Definition CDG_WIDTH : Z := 300.
Definition CDG_HEIGHT : Z := 216.
Definition CDG_VISIBLE_WIDTH : Z := 288.
Definition CDG_VISIBLE_HEIGHT : Z := 192.
Definition CDG_BORDER_X : Z := 6.
Definition CDG_BORDER_Y : Z := 12.
Definition CDG_TILE_WIDTH : Z := 6.
Definition CDG_TILE_HEIGHT : Z := 12.
Definition CDG_PACKETS_PER_SECOND : Z := 300.
Definition CDG_PACKET_SIZE : nat := 24.
Definition CDG_COLORS : nat := 16.

Module CDG_INST.
Definition MEMORY_PRESET : Z := 1.
Definition BORDER_PRESET : Z := 2.
Definition TILE_BLOCK : Z := 6.
Definition SCROLL_PRESET : Z := 20.
Definition SCROLL_COPY : Z := 24.
Definition DEFINE_TRANSPARENT : Z := 28.
Definition LOAD_COLOR_TABLE_LO : Z := 30.
Definition LOAD_COLOR_TABLE_HI : Z := 31.
Definition TILE_BLOCK_XOR : Z := 38.
Definition known : list Z := [1; 2; 6; 20; 24; 28; 30; 31; 38].
End CDG_INST.

(** ** Data model *)

Record CdgColor := mkColor { r : Z; g : Z; b : Z }.

Inductive CdgInstruction :=
| memoryPreset (color repeat : Z)
| borderPreset (color : Z)
| tileBlock (xor : bool) (color0 color1 row column : Z) (pixels : list Z)
| scroll (copy : bool) (color hScroll vScroll hOffset vOffset : Z)
| defineTransparent (color : Z)
| loadColorTable (offset : Z) (colors : list CdgColor).

Record CdgPacket := mkPacket { timeMs : Q; instruction : option CdgInstruction }.

Record ParsedCdg := mkParsed { packets : list CdgPacket; durationMs : Q }.

(** ** Byte buffers *)

(** [buf[i]] used as an operand of [&]: an absent byte ([undefined]) is
    coerced to 0 by the bit operation. *)
Definition byteAt (buf : list Z) (i : nat) : Z := nth i buf 0.

(** [buf.subarray(from, to)]; both ends are clamped to the buffer. *)
Definition subarray (buf : list Z) (from to : nat) : list Z :=
  take (to - from) (drop from buf).

(** ** The decoder *)

Definition parseColor (data : list Z) (i : nat) : CdgColor :=
  let lo := Z.land (byteAt data (i * 2)) 0x3f in
  let hi := Z.land (byteAt data (i * 2 + 1)) 0x3f in
  {| r := Z.shiftr (Z.land lo 0x3c) 2 * 17;
     g := Z.lor (Z.shiftl (Z.land lo 0x03) 2) (Z.shiftr (Z.land hi 0x30) 4) * 17;
     b := Z.land hi 0x0f * 17 |}.

Definition parseInstruction (instruction : Z) (data : list Z)
  : option CdgInstruction :=
  match instruction with
  | 1 =>
      Some (memoryPreset (Z.land (byteAt data 0) 0x0f) (Z.land (byteAt data 1) 0x0f))
  | 2 =>
      Some (borderPreset (Z.land (byteAt data 0) 0x0f))
  | 6 | 38 =>
      Some (tileBlock (instruction =? CDG_INST.TILE_BLOCK_XOR)
              (Z.land (byteAt data 0) 0x0f)
              (Z.land (byteAt data 1) 0x0f)
              (Z.land (byteAt data 2) 0x1f)
              (Z.land (byteAt data 3) 0x3f)
              (map (fun b => Z.land b 0x3f) (subarray data 4 16)))
  | 20 | 24 =>
      Some (scroll (instruction =? CDG_INST.SCROLL_COPY)
              (Z.land (byteAt data 0) 0x0f)
              (Z.shiftr (Z.land (byteAt data 1) 0x30) 4)
              (Z.shiftr (Z.land (byteAt data 2) 0x30) 4)
              (Z.land (byteAt data 1) 0x07)
              (Z.land (byteAt data 2) 0x0f))
  | 28 =>
      Some (defineTransparent (Z.land (byteAt data 0) 0x0f))
  | 30 | 31 =>
      Some (loadColorTable
              (if instruction =? CDG_INST.LOAD_COLOR_TABLE_HI then 8 else 0)
              (map (parseColor data) (seq 0 8)))
  | _ => None
  end.

(** *** JavaScript's arithmetic on numbers

    A JavaScript number is a binary64 floating-point number, and [/] and
    [*] return the binary64 number nearest to the exact result, a tie going
    to the one whose significand is even. The numbers are modelled by the
    rationals they denote. *)

(** The integer nearest to [q], the even one of two that are equally near. *)
Definition roundHalfEven (q : Q) : Z :=
  let f := Qfloor q in
  match (q - inject_Z f ?= 1 # 2)%Q with
  | Lt => f
  | Gt => f + 1
  | Eq => if Z.even f then f else f + 1
  end.

(** The exponent [e] with [2 ^ e <= q < 2 ^ (e + 1)], for a positive [q]. *)
Definition binade (q : Q) : Z :=
  let e := Z.log2 (Qnum q) - Z.log2 (Z.pos (Qden q)) in
  if Qle_bool (2 ^ e) q then e else e - 1.

(** The number with a significand of 53 bits nearest to a positive [q]. *)
Definition nearest53 (q : Q) : Q :=
  let e := binade q - 52 in
  (inject_Z (roundHalfEven (q / 2 ^ e)) * 2 ^ e)%Q.

(** The binary64 number nearest to [q]. The exponent is not bounded: the
    magnitudes the decoder computes from the length of a buffer lie far
    inside the range of the normal numbers, from [2 ^ -1022] to
    [2 ^ 1024]. *)
Definition binary64 (q : Q) : Q :=
  match Qnum q with
  | 0 => 0%Q
  | Z.pos _ => nearest53 q
  | Z.neg _ => (- nearest53 (- q))%Q
  end.

(** [x / y] and [x * y] on numbers. *)
Definition f64_div (x y : Q) : Q := binary64 (x / y).
Definition f64_mul (x y : Q) : Q := binary64 (x * y).

(** The time of packet [i]: [(i / CDG_PACKETS_PER_SECOND) * 1000]. The
    index of a record and the two constants are integers below [2 ^ 53],
    which a number holds exactly. *)
Definition packetTime (i : nat) : Q :=
  f64_mul (f64_div (inject_Z (Z.of_nat i)) (inject_Z CDG_PACKETS_PER_SECOND)) 1000.

(** One turn of the loop of [parseCdgFile]: [None] when the turn pushes
    nothing ([continue], or an opcode [parseInstruction] rejects). *)
Definition parsePacket (buffer : list Z) (i : nat) : option CdgPacket :=
  let offset := (i * CDG_PACKET_SIZE)%nat in
  let packet := subarray buffer offset (offset + CDG_PACKET_SIZE) in
  let command := Z.land (byteAt packet 0) 0x3f in
  let instruction := Z.land (byteAt packet 1) 0x3f in
  if negb (command =? 0x09) then None
  else
    let data := subarray packet 4 20 in
    match parseInstruction instruction data with
    | Some parsed => Some {| timeMs := packetTime i; instruction := Some parsed |}
    | None => None
    end.

Definition parseCdgFile (buffer : list Z) : ParsedCdg :=
  let numPackets := (length buffer / CDG_PACKET_SIZE)%nat in
  {| packets := omap (parsePacket buffer) (seq 0 numPackets);
     durationMs :=
       f64_mul (f64_div (inject_Z (Z.of_nat numPackets))
                  (inject_Z CDG_PACKETS_PER_SECOND)) 1000 |}.

(** The same two time expressions on the primitive binary64 numbers of the
    machine, and the rational a primitive number denotes; they check
    [binary64] against the hardware. *)
Definition ticksBinary64 (n : Z) : float :=
  (of_uint63 (of_Z n) / 300 * 1000)%float.

Definition packetTimeBinary64 (i : nat) : float := ticksBinary64 (Z.of_nat i).

Definition durationMsBinary64 (buffer : list Z) : float :=
  let numPackets := (length buffer / CDG_PACKET_SIZE)%nat in
  ticksBinary64 (Z.of_nat numPackets).

Definition floatValue (f : float) : option Q :=
  match Prim2SF f with
  | S754_zero _ => Some 0%Q
  | S754_finite s m e => Some (inject_Z (if s then Z.neg m else Z.pos m) * 2 ^ e)%Q
  | _ => None
  end.

(** ** The bit layout of section 3, written with division and remainder *)

Module Layout.
(** The low [n] bits of a byte. *)
Definition low (n b : Z) : Z := b mod 2 ^ n.
(** The [n] bits of a byte starting at bit [from]. *)
Definition bits (from n b : Z) : Z := (b / 2 ^ from) mod 2 ^ n.

(** Two 6-bit bytes make a 12-bit word holding three 4-bit channels,
    red on top; every channel is scaled by 17. *)
Definition color (d : nat -> Z) (i : nat) : CdgColor :=
  let w := low 6 (d (2 * i)%nat) * 64 + low 6 (d (2 * i + 1)%nat) in
  {| r := bits 8 4 w * 17; g := bits 4 4 w * 17; b := bits 0 4 w * 17 |}.

Definition instruction (opcode : Z) (d : nat -> Z) : option CdgInstruction :=
  if opcode =? 1 then Some (memoryPreset (low 4 (d 0%nat)) (low 4 (d 1%nat)))
  else if opcode =? 2 then Some (borderPreset (low 4 (d 0%nat)))
  else if (opcode =? 6) || (opcode =? 38) then
    Some (tileBlock (opcode =? 38) (low 4 (d 0%nat)) (low 4 (d 1%nat))
            (low 5 (d 2%nat)) (low 6 (d 3%nat))
            (map (fun k => low 6 (d k)) (seq 4 12)))
  else if (opcode =? 20) || (opcode =? 24) then
    Some (scroll (opcode =? 24) (low 4 (d 0%nat))
            (bits 4 2 (d 1%nat)) (bits 4 2 (d 2%nat))
            (low 3 (d 1%nat)) (low 4 (d 2%nat)))
  else if opcode =? 28 then Some (defineTransparent (low 4 (d 0%nat)))
  else if (opcode =? 30) || (opcode =? 31) then
    Some (loadColorTable (if opcode =? 31 then 8 else 0)
            (map (color d) (seq 0 8)))
  else None.
End Layout.

(** ** Loops and typed arrays *)

(** [for (let i = lo; i < hi; i++) body(i)]: [n] turns starting at [i]. *)
Fixpoint forN {S : Type} (n : nat) (i : Z) (body : Z -> S -> S) (s : S) : S :=
  match n with
  | O => s
  | Datatypes.S n' => forN n' (i + 1) body (body i s)
  end.

Definition forZ {S : Type} (lo hi : Z) (body : Z -> S -> S) (s : S) : S :=
  forN (Z.to_nat (hi - lo)) lo body s.

(** [px[i]] on a [Uint8Array]: [None] is [undefined]. *)
Definition u8_get (px : list Z) (i : Z) : option Z :=
  if i <? 0 then None else px !! Z.to_nat i.

(** [px[i] = v] on a [Uint8Array]: the value wraps to a byte, a store
    outside the array is dropped. *)
Definition u8_set (px : list Z) (i v : Z) : list Z :=
  if i <? 0 then px else <[Z.to_nat i := v mod 256]> px.

(** [px.fill(v)]. *)
Definition u8_fill (px : list Z) (v : Z) : list Z :=
  replicate (length px) (v mod 256).

(** [new Uint8Array(n)]. *)
Definition u8_new (n : Z) : list Z := replicate (Z.to_nat n) 0.

(** A store into a [Uint8ClampedArray] saturates instead of wrapping. *)
Definition u8c_set (px : list Z) (i v : Z) : list Z :=
  if i <? 0 then px else <[Z.to_nat i := Z.max 0 (Z.min 255 v)]> px.

(** [arr[i] = v] on an ordinary array: a store past the end grows the
    array, the slots in between stay empty. *)
Definition array_set {A : Type} (arr : list (option A)) (i : Z) (v : option A)
  : list (option A) :=
  if i <? 0 then arr
  else if (Z.to_nat i <? length arr)%nat then <[Z.to_nat i := v]> arr
  else arr ++ replicate (Z.to_nat i - length arr) None ++ [v].

(** [arr[i]] on an ordinary array; an empty slot reads as [undefined]. *)
Definition array_get {A : Type} (arr : list (option A)) (i : Z) : option A :=
  if i <? 0 then None else mjoin (arr !! Z.to_nat i).

(** ** The renderer (class CdgRenderer) *)

Record CdgRenderer := mkRenderer {
  pixels : list Z;
  palette : list (option CdgColor);
  transparentColor : Z;
  borderColor : Z;
  hOffset : Z;
  vOffset : Z
}.

Definition black : CdgColor := {| r := 0; g := 0; b := 0 |}.

Definition newRenderer : CdgRenderer :=
  {| pixels := u8_new (CDG_WIDTH * CDG_HEIGHT);
     palette := replicate CDG_COLORS (Some black);
     transparentColor := -1;
     borderColor := 0;
     hOffset := 0;
     vOffset := 0 |}.

Definition reset (rd : CdgRenderer) : CdgRenderer :=
  {| pixels := u8_fill (pixels rd) 0;
     palette := replicate CDG_COLORS (Some black);
     transparentColor := -1;
     borderColor := 0;
     hOffset := 0;
     vOffset := 0 |}.

Definition drawBorder (color : Z) (px : list Z) : list Z :=
  let px :=
    forZ 0 CDG_BORDER_Y (fun y px =>
      forZ 0 CDG_WIDTH (fun x px => u8_set px (y * CDG_WIDTH + x) color) px) px in
  let px :=
    forZ (CDG_HEIGHT - CDG_BORDER_Y) CDG_HEIGHT (fun y px =>
      forZ 0 CDG_WIDTH (fun x px => u8_set px (y * CDG_WIDTH + x) color) px) px in
  let px :=
    forZ CDG_BORDER_Y (CDG_HEIGHT - CDG_BORDER_Y) (fun y px =>
      forZ 0 CDG_BORDER_X (fun x px => u8_set px (y * CDG_WIDTH + x) color) px) px in
  forZ CDG_BORDER_Y (CDG_HEIGHT - CDG_BORDER_Y) (fun y px =>
    forZ (CDG_WIDTH - CDG_BORDER_X) CDG_WIDTH
      (fun x px => u8_set px (y * CDG_WIDTH + x) color) px) px.

(** [undefined] coerced by a bit operation or by a store into a typed
    array. *)
Definition toInt (v : option Z) : Z := default 0 v.

Definition drawTile (xor : bool) (color0 color1 row column : Z)
    (tilePixels : list Z) (px : list Z) : list Z :=
  let startX := column * CDG_TILE_WIDTH in
  let startY := row * CDG_TILE_HEIGHT in
  if (startX + CDG_TILE_WIDTH >? CDG_WIDTH) || (startY + CDG_TILE_HEIGHT >? CDG_HEIGHT)
  then px
  else
    forZ 0 CDG_TILE_HEIGHT (fun row px =>
      let pixelData := toInt (u8_get tilePixels row) in
      forZ 0 CDG_TILE_WIDTH (fun col px =>
        let bit := Z.land (Z.shiftr pixelData (5 - col)) 1 in
        let color := if bit =? 0 then color0 else color1 in
        let x := startX + col in
        let y := startY + row in
        let idx := y * CDG_WIDTH + x in
        if xor then u8_set px idx (Z.lxor (toInt (u8_get px idx)) color)
        else u8_set px idx color) px) px.

Definition scrollDisplay (copy : bool) (color hScroll vScroll : Z)
    (px : list Z) : list Z :=
  let newPixels := u8_new (CDG_WIDTH * CDG_HEIGHT) in
  let hDir := if hScroll =? 2 then - CDG_TILE_WIDTH
              else if hScroll =? 1 then CDG_TILE_WIDTH else 0 in
  let vDir := if vScroll =? 2 then - CDG_TILE_HEIGHT
              else if vScroll =? 1 then CDG_TILE_HEIGHT else 0 in
  forZ 0 CDG_HEIGHT (fun y newPixels =>
    forZ 0 CDG_WIDTH (fun x newPixels =>
      let srcX := x + hDir in
      let srcY := y + vDir in
      if copy then
        let srcX := Z.rem (Z.rem srcX CDG_WIDTH + CDG_WIDTH) CDG_WIDTH in
        let srcY := Z.rem (Z.rem srcY CDG_HEIGHT + CDG_HEIGHT) CDG_HEIGHT in
        u8_set newPixels (y * CDG_WIDTH + x)
          (toInt (u8_get px (srcY * CDG_WIDTH + srcX)))
      else if (srcX <? 0) || (srcX >=? CDG_WIDTH) || (srcY <? 0) || (srcY >=? CDG_HEIGHT)
      then u8_set newPixels (y * CDG_WIDTH + x) color
      else u8_set newPixels (y * CDG_WIDTH + x)
             (toInt (u8_get px (srcY * CDG_WIDTH + srcX)))) newPixels) newPixels.

Definition applyInstruction (rd : CdgRenderer) (inst : CdgInstruction)
  : CdgRenderer :=
  match inst with
  | memoryPreset color repeat =>
      if repeat =? 0 then
        {| pixels := u8_fill (pixels rd) color; palette := palette rd;
           transparentColor := transparentColor rd; borderColor := borderColor rd;
           hOffset := hOffset rd; vOffset := vOffset rd |}
      else rd
  | borderPreset color =>
      {| pixels := drawBorder color (pixels rd); palette := palette rd;
         transparentColor := transparentColor rd; borderColor := color;
         hOffset := hOffset rd; vOffset := vOffset rd |}
  | tileBlock xor color0 color1 row column tilePixels =>
      {| pixels := drawTile xor color0 color1 row column tilePixels (pixels rd);
         palette := palette rd;
         transparentColor := transparentColor rd; borderColor := borderColor rd;
         hOffset := hOffset rd; vOffset := vOffset rd |}
  | scroll copy color hScroll vScroll hOff vOff =>
      {| pixels := if negb (hScroll =? 0) || negb (vScroll =? 0)
                   then scrollDisplay copy color hScroll vScroll (pixels rd)
                   else pixels rd;
         palette := palette rd;
         transparentColor := transparentColor rd; borderColor := borderColor rd;
         hOffset := hOff; vOffset := vOff |}
  | defineTransparent color =>
      {| pixels := pixels rd; palette := palette rd;
         transparentColor := color; borderColor := borderColor rd;
         hOffset := hOffset rd; vOffset := vOffset rd |}
  | loadColorTable offset colors =>
      {| pixels := pixels rd;
         palette := forZ 0 8 (fun i pal =>
                      array_set pal (offset + i) (colors !! Z.to_nat i)) (palette rd);
         transparentColor := transparentColor rd; borderColor := borderColor rd;
         hOffset := hOffset rd; vOffset := vOffset rd |}
  end.

(** One turn of the inner loop of [getVisibleRgbaFrame]; [None] is the
    [TypeError] raised by reading [.r] of an absent palette entry. *)
Definition visiblePixel (rd : CdgRenderer) (y x : Z) (rgba : list Z)
  : option (list Z) :=
  let srcX := x + CDG_BORDER_X + hOffset rd in
  let srcY := y + CDG_BORDER_Y + vOffset rd in
  let srcIdx := srcY * CDG_WIDTH + srcX in
  let dstIdx := (y * CDG_VISIBLE_WIDTH + x) * 4 in
  let colorIdx := u8_get (pixels rd) srcIdx in
  match colorIdx ≫= array_get (palette rd) with
  | None => None
  | Some color =>
      let rgba := u8c_set rgba dstIdx (r color) in
      let rgba := u8c_set rgba (dstIdx + 1) (g color) in
      let rgba := u8c_set rgba (dstIdx + 2) (b color) in
      Some (u8c_set rgba (dstIdx + 3)
              (if decide (colorIdx = Some (transparentColor rd)) then 0 else 255))
  end.

Definition getVisibleRgbaFrame (rd : CdgRenderer) : option (list Z) :=
  forZ 0 CDG_VISIBLE_HEIGHT (fun y acc =>
    forZ 0 CDG_VISIBLE_WIDTH (fun x acc => acc ≫= visiblePixel rd y x) acc)
    (Some (u8_new (CDG_VISIBLE_WIDTH * CDG_VISIBLE_HEIGHT * 4))).

(** One turn of the loop of [getRgbaFrame]; [None] is the [TypeError] raised
    by reading [.r] of an absent palette entry. *)
Definition fullPixel (rd : CdgRenderer) (i : Z) (rgba : list Z)
  : option (list Z) :=
  let colorIdx := u8_get (pixels rd) i in
  match colorIdx ≫= array_get (palette rd) with
  | None => None
  | Some color =>
      let offset := i * 4 in
      let rgba := u8c_set rgba offset (r color) in
      let rgba := u8c_set rgba (offset + 1) (g color) in
      let rgba := u8c_set rgba (offset + 2) (b color) in
      Some (u8c_set rgba (offset + 3)
              (if decide (colorIdx = Some (transparentColor rd)) then 0 else 255))
  end.

Definition getRgbaFrame (rd : CdgRenderer) : option (list Z) :=
  forZ 0 (Z.of_nat (length (pixels rd))) (fun i acc => acc ≫= fullPixel rd i)
    (Some (u8_new (CDG_WIDTH * CDG_HEIGHT * 4))).

(** [getPalette] returns a fresh array with the same entries. *)
Definition getPalette (rd : CdgRenderer) : list (option CdgColor) := palette rd.

(** ** The player (class CdgPlayer) *)

Record CdgPlayerState := mkState {
  playing : bool;
  paused : bool;
  currentTime : Q;
  duration : Q;
  title : string;
  singerName : string;
  songId : Z;
  fileType : string;
  audioPath : option string
}.

Record CdgFrameData := mkFrame {
  width : Z;
  height : Z;
  rgba : list Z;
  timestamp : Q
}.

(** What [emit] is called with. *)
Inductive Event :=
| EvFrame (frame : CdgFrameData)
| EvPlay (st : CdgPlayerState)
| EvPause (st : CdgPlayerState)
| EvStop (st : CdgPlayerState)
| EvSeek (timeMs : Q) (st : CdgPlayerState)
| EvUpdate (st : CdgPlayerState)
| EvEnded.

(** [animationFrame] records whether a timer handle is held. *)
Record CdgPlayer := mkPlayer {
  cdgData : option ParsedCdg;
  renderer : CdgRenderer;
  state : CdgPlayerState;
  animationFrame : bool;
  lastUpdateTime : Z;
  packetIndex : nat;
  startTime : Q;
  pauseTime : Z
}.

Definition newPlayer : CdgPlayer :=
  {| cdgData := None;
     renderer := newRenderer;
     state := {| playing := false; paused := false; currentTime := 0; duration := 0;
                 title := ""; singerName := ""; songId := 0; fileType := "cdg";
                 audioPath := None |};
     animationFrame := false;
     lastUpdateTime := 0;
     packetIndex := 0;
     startTime := 0;
     pauseTime := 0 |}.

Definition set_cdgData (v : option ParsedCdg) (p : CdgPlayer) : CdgPlayer :=
  mkPlayer v (renderer p) (state p) (animationFrame p) (lastUpdateTime p)
    (packetIndex p) (startTime p) (pauseTime p).
Definition set_renderer (v : CdgRenderer) (p : CdgPlayer) : CdgPlayer :=
  mkPlayer (cdgData p) v (state p) (animationFrame p) (lastUpdateTime p)
    (packetIndex p) (startTime p) (pauseTime p).
Definition set_state (v : CdgPlayerState) (p : CdgPlayer) : CdgPlayer :=
  mkPlayer (cdgData p) (renderer p) v (animationFrame p) (lastUpdateTime p)
    (packetIndex p) (startTime p) (pauseTime p).
Definition set_animationFrame (v : bool) (p : CdgPlayer) : CdgPlayer :=
  mkPlayer (cdgData p) (renderer p) (state p) v (lastUpdateTime p)
    (packetIndex p) (startTime p) (pauseTime p).
Definition set_lastUpdateTime (v : Z) (p : CdgPlayer) : CdgPlayer :=
  mkPlayer (cdgData p) (renderer p) (state p) (animationFrame p) v
    (packetIndex p) (startTime p) (pauseTime p).
Definition set_packetIndex (v : nat) (p : CdgPlayer) : CdgPlayer :=
  mkPlayer (cdgData p) (renderer p) (state p) (animationFrame p) (lastUpdateTime p)
    v (startTime p) (pauseTime p).
Definition set_startTime (v : Q) (p : CdgPlayer) : CdgPlayer :=
  mkPlayer (cdgData p) (renderer p) (state p) (animationFrame p) (lastUpdateTime p)
    (packetIndex p) v (pauseTime p).
Definition set_pauseTime (v : Z) (p : CdgPlayer) : CdgPlayer :=
  mkPlayer (cdgData p) (renderer p) (state p) (animationFrame p) (lastUpdateTime p)
    (packetIndex p) (startTime p) v.

Definition set_currentTime (v : Q) (st : CdgPlayerState) : CdgPlayerState :=
  mkState (playing st) (paused st) v (duration st) (title st) (singerName st)
    (songId st) (fileType st) (audioPath st).
Definition set_playing (v : bool) (st : CdgPlayerState) : CdgPlayerState :=
  mkState v (paused st) (currentTime st) (duration st) (title st) (singerName st)
    (songId st) (fileType st) (audioPath st).
Definition set_paused (v : bool) (st : CdgPlayerState) : CdgPlayerState :=
  mkState (playing st) v (currentTime st) (duration st) (title st) (singerName st)
    (songId st) (fileType st) (audioPath st).

(** *** Methods as computations over the player

    A method call runs from a player to a value (or a raised exception,
    [None]), the player it leaves, and the events it emitted, in order.
    Fields assigned before an exception is raised stay assigned. *)

Record Run (A : Type) := mkRun {
  value : option A;
  after : CdgPlayer;
  events : list Event
}.
Arguments mkRun {A} _ _ _.
Arguments value {A} _.
Arguments after {A} _.
Arguments events {A} _.

Definition M (A : Type) : Type := CdgPlayer -> Run A.

#[export] Instance M_ret : MRet M := fun A a p => mkRun (Some a) p [].

#[export] Instance M_bind : MBind M := fun A B f m p =>
  let r1 := m p in
  match value r1 with
  | None => mkRun None (after r1) (events r1)
  | Some a =>
      let r2 := f a (after r1) in
      mkRun (value r2) (after r2) (events r1 ++ events r2)
  end.

Definition this : M CdgPlayer := fun p => mkRun (Some p) p [].
Definition modify (f : CdgPlayer -> CdgPlayer) : M unit :=
  fun p => mkRun (Some tt) (f p) [].
Definition emit (e : Event) : M unit := fun p => mkRun (Some tt) p [e].
Definition throw {A : Type} : M A := fun p => mkRun None p [].

(** [!v] on a value that is an object or [null]. *)
Definition isNull {A : Type} (v : option A) : bool :=
  match v with Some _ => false | None => true end.

(** [Math.min] and [Math.max] on two numbers. *)
Definition mathMin (a c : Q) : Q := if Qle_bool a c then a else c.
Definition mathMax (a c : Q) : Q := if Qle_bool a c then c else a.

Definition getState : M CdgPlayerState := p ← this; mret (state p).

Definition getCurrentFrame : M (option CdgFrameData) :=
  p ← this;
  match cdgData p with
  | None => mret None
  | Some _ =>
      match getVisibleRgbaFrame (renderer p) with
      | None => throw
      | Some px =>
          mret (Some {| width := CDG_VISIBLE_WIDTH; height := CDG_VISIBLE_HEIGHT;
                        rgba := px; timestamp := currentTime (state p) |})
      end
  end.

Definition emitFrame : M unit :=
  frame ← getCurrentFrame;
  match frame with
  | Some f => emit (EvFrame f)
  | None => mret tt
  end.

(** The [while] loop shared by [applyPacketsUpTo] and [applyPacketsFromTo],
    run on the packets from the cursor on. *)
Fixpoint replayWhile (toMs : Q) (rest : list CdgPacket) (rd : CdgRenderer)
    (idx : nat) : CdgRenderer * nat :=
  match rest with
  | [] => (rd, idx)
  | packet :: rest' =>
      if Qle_bool (timeMs packet) toMs then
        replayWhile toMs rest'
          (match instruction packet with
           | Some inst => applyInstruction rd inst
           | None => rd
           end) (S idx)
      else (rd, idx)
  end.

Definition replayFromCursor (toMs : Q) (p : CdgPlayer) : CdgPlayer :=
  match cdgData p with
  | None => p
  | Some d =>
      let '(rd, idx) :=
        replayWhile toMs (drop (packetIndex p) (packets d)) (renderer p) (packetIndex p) in
      set_packetIndex idx (set_renderer rd p)
  end.

Definition applyPacketsUpTo (timeMs : Q) : M unit :=
  p ← this;
  match cdgData p with
  | None => mret tt
  | Some _ =>
      modify (replayFromCursor timeMs);;
      modify (fun p => set_state (set_currentTime timeMs (state p)) p)
  end.

Definition applyPacketsFromTo (fromMs toMs : Q) : M unit :=
  modify (replayFromCursor toMs).

Definition stopAnimationLoop : M unit := modify (set_animationFrame false).

Definition stop : M unit :=
  stopAnimationLoop;;
  modify (fun p =>
    match cdgData p with
    | Some _ => set_packetIndex 0 (set_renderer (reset (renderer p)) p)
    | None => p
    end);;
  modify (fun p =>
    set_state (set_currentTime 0 (set_paused false (set_playing false (state p)))) p);;
  st ← getState;
  emit (EvStop st).

(** The body of the timer callback [update] of [startAnimationLoop]. *)
Definition update (now : Z) : M unit :=
  p ← this;
  if negb (playing (state p)) || paused (state p) then mret tt
  else
    let currentTime' := (inject_Z now - startTime p)%Q in
    applyPacketsFromTo (currentTime (state p)) currentTime';;
    modify (fun p => set_state (set_currentTime currentTime' (state p)) p);;
    emitFrame;;
    (p ← this;
     if now - lastUpdateTime p >? 100 then
       st ← getState; emit (EvUpdate st);; modify (set_lastUpdateTime now)
     else mret tt);;
    p ← this;
    if Qle_bool (duration (state p)) currentTime' then stop;; emit EvEnded
    else modify (set_animationFrame true).

Definition startAnimationLoop (now : Z) : M unit :=
  stopAnimationLoop;; update now.

(** The timer set by [update] fires. *)
Definition tick (now : Z) : M unit :=
  p ← this;
  if animationFrame p then update now else mret tt.

Definition play (now : Z) : M unit :=
  p ← this;
  match cdgData p with
  | None => mret tt
  | Some _ =>
      if playing (state p) && negb (paused (state p)) then mret tt
      else
        (if paused (state p)
         then modify (fun p =>
                set_startTime (startTime p + (inject_Z now - inject_Z (pauseTime p)))%Q p)
         else modify (set_startTime (inject_Z now)));;
        modify (fun p =>
          set_lastUpdateTime now
            (set_state (set_paused false (set_playing true (state p))) p));;
        startAnimationLoop now;;
        st ← getState;
        emit (EvPlay st)
  end.

Definition pause (now : Z) : M unit :=
  p ← this;
  if negb (playing (state p)) || paused (state p) then mret tt
  else
    modify (fun p => set_pauseTime now (set_state (set_paused true (state p)) p));;
    stopAnimationLoop;;
    st ← getState;
    emit (EvPause st).

Definition seek (timeMs : Q) (now : Z) : M unit :=
  p ← this;
  match cdgData p with
  | None => mret tt
  | Some _ =>
      let timeMs := mathMax 0 (mathMin timeMs (duration (state p))) in
      modify (fun p => set_packetIndex 0 (set_renderer (reset (renderer p)) p));;
      applyPacketsUpTo timeMs;;
      modify (fun p => set_state (set_currentTime timeMs (state p)) p);;
      (p ← this;
       if playing (state p) && negb (paused (state p))
       then modify (set_startTime (inject_Z now - timeMs)%Q)
       else mret tt);;
      emitFrame;;
      st ← getState;
      emit (EvSeek timeMs st)
  end.

Definition syncToAudioTime (audioTimeMs : Q) (now : Z) : M unit :=
  p ← this;
  if isNull (cdgData p) || negb (playing (state p)) || paused (state p)
  then mret tt
  else
    returned ←
      (if negb (Qle_bool audioTimeMs (currentTime (state p))) then
         applyPacketsFromTo (currentTime (state p)) audioTimeMs;; mret false
       else if negb (Qle_bool (currentTime (state p) - 1000)%Q audioTimeMs) then
         seek audioTimeMs now;; mret true
       else mret false);
    if returned : bool then mret tt
    else
      modify (fun p => set_state (set_currentTime audioTimeMs (state p)) p);;
      p ← this;
      if Qle_bool (duration (state p)) audioTimeMs then stop;; emit EvEnded
      else mret tt.

(** [loadSong]; [file] is what [fs.readFileSync] returns, [None] when it
    raises. *)
Definition loadSong (file : option (list Z)) (audio title' singer : string)
    (id : Z) : M unit :=
  stop;;
  match file with
  | None => throw
  | Some buffer =>
      let parsed := parseCdgFile buffer in
      modify (fun p =>
        set_state
          {| playing := false; paused := false; currentTime := 0;
             duration := durationMs parsed; title := title'; singerName := singer;
             songId := id; fileType := "cdg"; audioPath := Some audio |}
          (set_packetIndex 0
             (set_renderer (reset (renderer p)) (set_cdgData (Some parsed) p))));;
      applyPacketsUpTo 0;;
      emitFrame
  end.

(** The calls a host can make, and the players they lead to. *)
Inductive Call :=
| CallLoadSong (file : option (list Z)) (audio title' singer : string) (id : Z)
| CallPlay (now : Z)
| CallPause (now : Z)
| CallStop
| CallSeek (timeMs : Q) (now : Z)
| CallSync (audioTimeMs : Q) (now : Z)
| TimerFires (now : Z).

Definition perform (c : Call) : M unit :=
  match c with
  | CallLoadSong file audio title' singer id => loadSong file audio title' singer id
  | CallPlay now => play now
  | CallPause now => pause now
  | CallStop => stop
  | CallSeek t now => seek t now
  | CallSync t now => syncToAudioTime t now
  | TimerFires now => tick now
  end.

Inductive reachable : CdgPlayer -> Prop :=
| reachable_new : reachable newPlayer
| reachable_call p c : reachable p -> reachable (after (perform c p)).

(** *** Replay from scratch, as the specification words it *)

(** Reset the renderer, then apply, in order, every decoded instruction
    whose timestamp is at most [t]. *)
Definition replayFromScratch (d : ParsedCdg) (t : Q) (rd : CdgRenderer)
  : CdgRenderer :=
  fold_left
    (fun rd pk => match instruction pk with
                  | Some inst => applyInstruction rd inst
                  | None => rd
                  end)
    (List.filter (fun pk => Qle_bool (timeMs pk) t) (packets d))
    (reset rd).

(** [t] clamped to the interval from 0 to [d]. *)
Definition clamp (t d : Q) : Q := Qmax 0 (Qmin t d).

(** ** Definitions used by the statements and the proofs *)

(** Records whose stamp is compared with the machine's: the first 2000,
    and 2000 more spread up to the largest count a buffer can hold. *)
Definition checkedRecords : list Z :=
  map Z.of_nat (seq 0 2000) ++ map (fun k => 281474976711 * Z.of_nat k + 1209) (seq 0 2000).

Definition stampAgrees (n : Z) : bool :=
  match floatValue (ticksBinary64 n) with
  | Some v =>
      Qeq_bool v (f64_mul (f64_div (inject_Z n) (inject_Z CDG_PACKETS_PER_SECOND)) 1000)
  | None => false
  end.

(** The three channels of a colour-table entry, checked on every pair of
    6-bit values. *)
Definition channelsAgree (lo hi : Z) : bool :=
  let w := lo * 64 + hi in
  (Z.shiftr (Z.land lo 0x3c) 2 =? Layout.bits 8 4 w)
  && (Z.lor (Z.shiftl (Z.land lo 0x03) 2) (Z.shiftr (Z.land hi 0x30) 4)
      =? Layout.bits 4 4 w)
  && (Z.land hi 0x0f =? Layout.bits 0 4 w).

(** The 6-bit values. *)
Definition sixBit : list Z := map Z.of_nat (seq 0 64).

(** A tile-XOR packet: colours 3 and 15, row 5, column 7, alternating rows. *)
Definition tilePacket : list Z :=
  [0x49; 0x26; 0; 0; 0x13; 0xff; 0x25; 0x47; 63; 0; 63; 0; 63; 0; 63; 0; 63; 0; 63; 0;
   0; 0; 0; 0].

(** The shape shared by the loops of [drawBorder] and [drawTile]: every
    cell of the rectangle is replaced by a function of its coordinates and
    of its old value. *)
Definition updateRect (y0 y1 x0 x1 : Z) (f : Z -> Z -> Z -> Z) (px : list Z)
  : list Z :=
  forZ y0 y1 (fun y px =>
    forZ x0 x1 (fun x px =>
      u8_set px (y * CDG_WIDTH + x)
        (f y x (toInt (u8_get px (y * CDG_WIDTH + x))))) px) px.

(** The cell of the grid at column [x] of row [y]. *)
Definition pixelAt (rd : CdgRenderer) (x y : Z) : option Z :=
  u8_get (pixels rd) (y * CDG_WIDTH + x).

(** The pixel buffer has the 300 x 216 cells it is allocated with. *)
Definition gridSized (rd : CdgRenderer) : Prop :=
  length (pixels rd) = Z.to_nat (CDG_WIDTH * CDG_HEIGHT).

(** The top and bottom 12-pixel bands and the left and right 6-pixel bands. *)
Definition inBorderBands (x y : Z) : Prop :=
  y < CDG_BORDER_Y \/ CDG_HEIGHT - CDG_BORDER_Y <= y
  \/ x < CDG_BORDER_X \/ CDG_WIDTH - CDG_BORDER_X <= x.

(** The inner 288 x 192 area. *)
Definition inInnerArea (x y : Z) : Prop :=
  CDG_BORDER_X <= x < CDG_BORDER_X + CDG_VISIBLE_WIDTH
  /\ CDG_BORDER_Y <= y < CDG_BORDER_Y + CDG_VISIBLE_HEIGHT.

(** What [drawTile] stores in the cell at column [x] of row [y] of the
    tile whose top left corner is [(startX, startY)]. *)
Definition tileCell (xor : bool) (color0 color1 : Z) (tilePixels : list Z)
    (startX startY : Z) (y x old : Z) : Z :=
  let pixelData := toInt (u8_get tilePixels (y - startY)) in
  let bit := Z.land (Z.shiftr pixelData (5 - (x - startX))) 1 in
  let color := if bit =? 0 then color0 else color1 in
  if xor then Z.lxor old color else color.

(** The tile lies inside the 300 x 216 grid. *)
Definition tileInBounds (row column : Z) : Prop :=
  0 <= row /\ 0 <= column
  /\ column * CDG_TILE_WIDTH + CDG_TILE_WIDTH <= CDG_WIDTH
  /\ row * CDG_TILE_HEIGHT + CDG_TILE_HEIGHT <= CDG_HEIGHT.

(** Every cell of the buffer is a byte. *)
Definition bytes (px : list Z) : Prop := Forall (fun v => 0 <= v < 256) px.

(** A palette index. *)
Definition nibble (v : Z) : Prop := 0 <= v <= 15.

(** The grid has its 300 x 216 cells and every cell is a palette index. *)
Definition gridInRange (rd : CdgRenderer) : Prop :=
  gridSized rd /\ Forall nibble (pixels rd).

(** The fields of an instruction lie in the ranges the masks of the decoder
    leave them in. *)
Definition decodedFields (inst : CdgInstruction) : Prop :=
  match inst with
  | memoryPreset color repeat => nibble color /\ nibble repeat
  | borderPreset color => nibble color
  | tileBlock _ color0 color1 row column tilePixels =>
      nibble color0 /\ nibble color1 /\ 0 <= row <= 31 /\ 0 <= column <= 63
      /\ Forall (fun v => 0 <= v <= 63) tilePixels
  | scroll _ color hScroll vScroll hOff vOff =>
      nibble color /\ 0 <= hScroll <= 3 /\ 0 <= vScroll <= 3
      /\ 0 <= hOff <= 7 /\ 0 <= vOff <= 15
  | defineTransparent color => nibble color
  | loadColorTable offset colors => (offset = 0 \/ offset = 8) /\ length colors = 8%nat
  end.

(** What the loops of the renderer keep true of the buffer they fill. *)
Definition rangeInv (n : nat) (px : list Z) : Prop :=
  length px = n /\ Forall nibble px.

(** A computation that leaves one component of the player alone. *)
Definition unchanged {X A : Type} (proj : CdgPlayer -> X) (m : M A) : Prop :=
  forall p, proj (after (m p)) = proj p.

(** A player holding an empty song, playing and paused. *)
Definition pausedPlayer : CdgPlayer :=
  set_state (set_paused true (set_playing true (state newPlayer)))
    (set_cdgData (Some (parseCdgFile [])) newPlayer).

(** The flags and the clock of a player that never started. *)
Definition idle (p : CdgPlayer) : Prop :=
  playing (state p) = false /\ paused (state p) = false
  /\ currentTime (state p) = 0%Q /\ animationFrame p = false.

(** What the replay loops do with one packet. *)
Definition applyPacket (rd : CdgRenderer) (pk : CdgPacket) : CdgRenderer :=
  match instruction pk with
  | Some inst => applyInstruction rd inst
  | None => rd
  end.

(** The packets with a timestamp of at most [t]. *)
Definition upTo (t : Q) (pkts : list CdgPacket) : list CdgPacket :=
  List.filter (fun pk => Qle_bool (timeMs pk) t) pkts.

(** Timestamps never decrease along the list. *)
Definition ascending (pkts : list CdgPacket) : Prop :=
  StronglySorted (fun a c => (timeMs a <= timeMs c)%Q) pkts.

(** The renderer and the cursor hold exactly the packets with a timestamp
    of at most [m]. *)
Definition syncedUpTo (d : ParsedCdg) (m : Q) (p : CdgPlayer) : Prop :=
  renderer p = replayFromScratch d m newRenderer
  /\ packetIndex p = length (upTo m (packets d)).

(** The renderer and the cursor hold exactly the packets with a timestamp
    of at most the current time, as [loadSong] and [seek] leave them. *)
Definition inSync (d : ParsedCdg) (p : CdgPlayer) : Prop :=
  syncedUpTo d (currentTime (state p)) p.

(** The calls [syncToAudioTime(t, now)] of a list, made in order. *)
Definition syncAll (calls : list (Q * Z)) (p : CdgPlayer) : CdgPlayer :=
  fold_left (fun p c => after (syncToAudioTime c.1 c.2 p)) calls p.

(** Where the pixel at column [x] of row [y] of the visible frame is read
    from. *)
Definition sourceIndex (rd : CdgRenderer) (x y : Z) : Z :=
  (y + CDG_BORDER_Y + vOffset rd) * CDG_WIDTH + (x + CDG_BORDER_X + hOffset rd).

(** The colour [getVisibleRgbaFrame] finds for a pixel of the visible
    frame; [None] where it raises. *)
Definition visibleColor (rd : CdgRenderer) (x y : Z) : option CdgColor :=
  u8_get (pixels rd) (sourceIndex rd x y) ≫= array_get (palette rd).

(** The alpha byte of a pixel of the visible frame. *)
Definition visibleAlpha (rd : CdgRenderer) (x y : Z) : Z :=
  if decide (u8_get (pixels rd) (sourceIndex rd x y) = Some (transparentColor rd))
  then 0 else 255.

(** Every palette index has a colour. *)
Definition paletteFull (rd : CdgRenderer) : Prop :=
  forall i, 0 <= i <= 15 -> is_Some (array_get (palette rd) i).

(** The number of bytes of a visible frame. *)
Definition frameLength : nat :=
  Z.to_nat (CDG_VISIBLE_WIDTH * CDG_VISIBLE_HEIGHT * 4).

(** What the frame holds for one pixel. *)
Definition pixelWritten (rd : CdgRenderer) (x y : Z) (rgba : list Z) : Prop :=
  exists color,
    visibleColor rd x y = Some color
    /\ u8_get rgba ((y * CDG_VISIBLE_WIDTH + x) * 4) = Some (Z.max 0 (Z.min 255 (r color)))
    /\ u8_get rgba ((y * CDG_VISIBLE_WIDTH + x) * 4 + 1)
       = Some (Z.max 0 (Z.min 255 (g color)))
    /\ u8_get rgba ((y * CDG_VISIBLE_WIDTH + x) * 4 + 2)
       = Some (Z.max 0 (Z.min 255 (b color)))
    /\ u8_get rgba ((y * CDG_VISIBLE_WIDTH + x) * 4 + 3) = Some (visibleAlpha rd x y).

(** A scroll-preset packet with no scroll direction and offsets 7 and 15. *)
Definition scrollPacket : list Z :=
  [0x09; 20; 0; 0; 0; 0x07; 0x0f; 0; 0; 0; 0; 0; 0; 0; 0; 0; 0; 0; 0; 0; 0; 0; 0; 0].

(** A computation that keeps a property of the player. *)
Definition preserves {A : Type} (I : CdgPlayer -> Prop) (m : M A) : Prop :=
  forall p, I p -> I (after (m p)).

(** The pixel buffer of the player's renderer has its 300 x 216 cells. *)
Definition sized (p : CdgPlayer) : Prop := gridSized (renderer p).

(** Three packets that are not CDG packets, then, at 10 ms, a packet that
    makes palette index 0 transparent. *)
Definition transparentFile : list Z :=
  replicate 72 0
  ++ [0x09; 28; 0; 0; 0; 0; 0; 0; 0; 0; 0; 0; 0; 0; 0; 0; 0; 0; 0; 0; 0; 0; 0; 0].

(** The player after loading the four-packet song ... *)
Definition loadedSong : CdgPlayer :=
  after (perform (CallLoadSong (Some transparentFile) "song.mp3" "Song" "Singer" 1)
           newPlayer).

(** ... then play at wall-clock time 0 ... *)
Definition playingSong : CdgPlayer := after (perform (CallPlay 0) loadedSong).

(** ... then a seek to 10 ms. *)
Definition playingAt10 : CdgPlayer := after (perform (CallSeek 10 0) playingSong).

(** The renderer as constructed, with palette index 0 made transparent. *)
Definition transparentRenderer : CdgRenderer :=
  applyInstruction newRenderer (defineTransparent 0).

(** The bytes of a record the decoder never looks at: bytes 2, 3 and 20
    to 23. *)
Definition reservedByte (k : nat) : bool :=
  bool_decide ((k mod 24)%nat ∈ [2; 3; 20; 21; 22; 23]%nat).

(** A copy of the file with the two top bits of every byte cleared. *)
Definition lowSixBits (buffer : list Z) : list Z :=
  map (fun v => Z.land v 0x3f) buffer.

(** The signed number of pixels a scroll direction moves by: direction 2
    moves by minus one tile, direction 1 by one tile, any other value by
    nothing. *)
Definition scrollStep (dir tile : Z) : Z :=
  if dir =? 2 then - tile else if dir =? 1 then tile else 0.

(** What [scrollDisplay] stores in the cell at column [x] of row [y]. *)
Definition scrollCell (copy : bool) (color hDir vDir : Z) (px : list Z) (y x : Z) : Z :=
  let srcX := x + hDir in
  let srcY := y + vDir in
  if copy then
    toInt (u8_get px (Z.rem (Z.rem srcY CDG_HEIGHT + CDG_HEIGHT) CDG_HEIGHT * CDG_WIDTH
                      + Z.rem (Z.rem srcX CDG_WIDTH + CDG_WIDTH) CDG_WIDTH))
  else if (srcX <? 0) || (srcX >=? CDG_WIDTH) || (srcY <? 0) || (srcY >=? CDG_HEIGHT)
  then color
  else toInt (u8_get px (srcY * CDG_WIDTH + srcX)).

(** The direction that undoes a scroll direction. *)
Definition opposite (dir : Z) : Z :=
  if dir =? 1 then 2 else if dir =? 2 then 1 else dir.

(** The colour [getRgbaFrame] finds for cell [i] of the grid; [None] where
    it raises. *)
Definition fullColor (rd : CdgRenderer) (i : Z) : option CdgColor :=
  u8_get (pixels rd) i ≫= array_get (palette rd).

(** The alpha byte of cell [i] in the full frame. *)
Definition fullAlpha (rd : CdgRenderer) (i : Z) : Z :=
  if decide (u8_get (pixels rd) i = Some (transparentColor rd)) then 0 else 255.

(** The number of bytes of a full frame. *)
Definition fullFrameLength : nat := Z.to_nat (CDG_WIDTH * CDG_HEIGHT * 4).

(** What the full frame holds for cell [i]. *)
Definition cellWritten (rd : CdgRenderer) (i : Z) (rgba : list Z) : Prop :=
  exists color,
    fullColor rd i = Some color
    /\ u8_get rgba (i * 4) = Some (Z.max 0 (Z.min 255 (r color)))
    /\ u8_get rgba (i * 4 + 1) = Some (Z.max 0 (Z.min 255 (g color)))
    /\ u8_get rgba (i * 4 + 2) = Some (Z.max 0 (Z.min 255 (b color)))
    /\ u8_get rgba (i * 4 + 3) = Some (fullAlpha rd i).

(** A colour channel as the decoder scales it: a multiple of 17 from 0 to
    255. *)
Definition channel (v : Z) : Prop := 0 <= v <= 255 /\ (17 | v).

Definition decodedColor (c : CdgColor) : Prop :=
  channel (r c) /\ channel (g c) /\ channel (b c).

(** The colours of a colour table are decoded colours. *)
Definition decodedColors (inst : CdgInstruction) : Prop :=
  match inst with
  | loadColorTable _ colors => Forall decodedColor colors
  | _ => True
  end.

(** An instruction [parseInstruction] returns for some opcode and data. *)
Definition decoded (inst : CdgInstruction) : Prop :=
  exists opcode data, parseInstruction opcode data = Some inst.

(** The state of a renderer that has seen decoded instructions only. *)
Definition rendererOk (rd : CdgRenderer) : Prop :=
  gridInRange rd
  /\ length (palette rd) = 16%nat
  /\ (forall i, 0 <= i <= 15 ->
        exists c, array_get (palette rd) i = Some c /\ decodedColor c)
  /\ -1 <= transparentColor rd <= 15
  /\ nibble (borderColor rd)
  /\ 0 <= hOffset rd <= 7 /\ 0 <= vOffset rd <= 15.

(** [wp m Q E p]: run from [p], the computation [m] either returns a value
    and a player that satisfy [Q], or raises and leaves a player that
    satisfies [E]. *)
Definition wp {A : Type} (m : M A) (Q : A -> CdgPlayer -> Prop)
    (E : CdgPlayer -> Prop) (p : CdgPlayer) : Prop :=
  match value (m p) with
  | Some a => Q a (after (m p))
  | None => E (after (m p))
  end.

(** The player [stop] leaves. *)
Definition stopped (p : CdgPlayer) : CdgPlayer :=
  {| cdgData := cdgData p;
     renderer := if isNull (cdgData p) then renderer p else reset (renderer p);
     state := set_currentTime 0 (set_paused false (set_playing false (state p)));
     animationFrame := false;
     lastUpdateTime := lastUpdateTime p;
     packetIndex := if isNull (cdgData p) then packetIndex p else 0%nat;
     startTime := startTime p;
     pauseTime := pauseTime p |}.

(** The window of the visible frame lies inside the buffer. *)
Definition viewInside (rd : CdgRenderer) : Prop :=
  vOffset rd <= 11 \/ (vOffset rd = 12 /\ hOffset rd <= 6).

(** A scroll instruction whose offsets keep the window inside the buffer. *)
Definition scrollInside (inst : CdgInstruction) : Prop :=
  match inst with
  | scroll _ _ _ _ hOff vOff => vOff <= 11 \/ (vOff = 12 /\ hOff <= 6)
  | _ => True
  end.

(** A decoded packet whose instruction keeps the window inside. *)
Definition packetInside (pk : CdgPacket) : Prop :=
  forall inst, instruction pk = Some inst -> decoded inst /\ scrollInside inst.

(** A file none of whose scroll packets moves the window of the visible
    frame past the end of the buffer. *)
Definition viewSafeFile (buffer : list Z) : Prop :=
  Forall (fun pk => forall inst, instruction pk = Some inst -> scrollInside inst)
    (packets (parseCdgFile buffer)).

(** The renderer holds what decoded instructions leave, its window lies
    inside the buffer, and so do the windows of the packets still to
    come. *)
Definition safe (p : CdgPlayer) : Prop :=
  rendererOk (renderer p) /\ viewInside (renderer p)
  /\ forall d, cdgData p = Some d -> Forall packetInside (packets d).

(** The calls [calls], made in order. *)
Definition performAll (calls : list Call) (p : CdgPlayer) : CdgPlayer :=
  fold_left (fun p c => after (perform c p)) calls p.

(** A call that loads a file loads one that keeps the window inside. *)
Definition loadsInside (c : Call) : Prop :=
  match c with
  | CallLoadSong (Some buffer) _ _ _ _ => viewSafeFile buffer
  | _ => True
  end.

(** A call other than a [loadSong] whose file cannot be read. *)
Definition readable (c : Call) : Prop :=
  match c with
  | CallLoadSong None _ _ _ _ => False
  | _ => True
  end.

(** The flags, the timer, the cursor and the duration fit together. *)
Definition consistent (p : CdgPlayer) : Prop :=
  (paused (state p) = true -> playing (state p) = true)
  /\ (playing (state p) = true -> is_Some (cdgData p))
  /\ (animationFrame p = true -> playing (state p) = true /\ paused (state p) = false)
  /\ (forall d, cdgData p = Some d ->
        duration (state p) = durationMs d
        /\ (packetIndex p <= length (packets d))%nat)
  /\ (cdgData p = None -> duration (state p) = 0%Q /\ packetIndex p = 0%nat)
  /\ fileType (state p) = "cdg"%string.

(** The player [pause] leaves when it acts. *)
Definition pausedAt (now : Z) (p : CdgPlayer) : CdgPlayer :=
  set_animationFrame false (set_pauseTime now (set_state (set_paused true (state p)) p)).

(** [wpe m Q E p]: as [wp], with the events emitted on the way. *)
Definition wpe {A : Type} (m : M A) (Q : A -> CdgPlayer -> list Event -> Prop)
    (E : CdgPlayer -> list Event -> Prop) (p : CdgPlayer) : Prop :=
  match value (m p) with
  | Some a => Q a (after (m p)) (events (m p))
  | None => E (after (m p)) (events (m p))
  end.

(** A player that has just been stopped at the end of the song, and the
    events of the call that stopped it. *)
Definition ended (q : CdgPlayer) (evs : list Event) : Prop :=
  evs = [EvStop (state q); EvEnded]
  /\ playing (state q) = false /\ paused (state q) = false
  /\ currentTime (state q) = 0%Q
  /\ renderer q = newRenderer /\ packetIndex q = 0%nat
  /\ animationFrame q = false.

(** The player [loadSong] hands to [applyPacketsUpTo]. *)
Definition loadedFrom (buffer : list Z) (audio title' singer : string) (id : Z)
    (p : CdgPlayer) : CdgPlayer :=
  set_state
    {| playing := false; paused := false; currentTime := 0;
       duration := durationMs (parseCdgFile buffer); title := title';
       singerName := singer; songId := id; fileType := "cdg";
       audioPath := Some audio |}
    (set_packetIndex 0
       (set_renderer (reset (renderer (stopped p)))
          (set_cdgData (Some (parseCdgFile buffer)) (stopped p)))).

(** The player [loadSong] leaves. *)
Definition loadedAtStart (buffer : list Z) (audio title' singer : string) (id : Z)
    (p : CdgPlayer) : CdgPlayer :=
  set_state
    (set_currentTime 0
       (state (replayFromCursor 0 (loadedFrom buffer audio title' singer id p))))
    (replayFromCursor 0 (loadedFrom buffer audio title' singer id p)).

(** * Properties *)

(** * Rounding to binary64 *)

Section Rounding.
Local Open Scope Q_scope.
Implicit Types (q x y : Q) (e n : Z).

Lemma Qfloor_bounds q : inject_Z (Qfloor q) <= q /\ q < inject_Z (Qfloor q) + 1.
Proof.
  split; [apply Qfloor_le |].
  pose proof (Qlt_floor q) as H. rewrite inject_Z_plus in H. exact H.
Qed.

Lemma roundHalfEven_cases q :
  (q - inject_Z (Qfloor q) < 1 # 2 /\ roundHalfEven q = Qfloor q)
  \/ (1 # 2 < q - inject_Z (Qfloor q) /\ roundHalfEven q = (Qfloor q + 1)%Z)
  \/ (q - inject_Z (Qfloor q) == 1 # 2
      /\ roundHalfEven q = if Z.even (Qfloor q) then Qfloor q else (Qfloor q + 1)%Z).
Proof.
  unfold roundHalfEven. cbv zeta.
  destruct (Qcompare_spec (q - inject_Z (Qfloor q)) (1 # 2)) as [H|H|H].
  - right. right. by split.
  - left. by split.
  - right. left. by split.
Qed.

(** Rounding to an integer moves by at most one half. *)
Lemma roundHalfEven_near q :
  q - (1 # 2) <= inject_Z (roundHalfEven q) <= q + (1 # 2).
Proof.
  destruct (Qfloor_bounds q) as [Hlo Hhi].
  destruct (roundHalfEven_cases q) as [[H ->]|[[H ->]|[H ->]]].
  - lra.
  - rewrite inject_Z_plus. change (inject_Z 1) with 1. lra.
  - destruct (Z.even (Qfloor q));
      [| rewrite inject_Z_plus; change (inject_Z 1) with 1]; lra.
Qed.

Lemma roundHalfEven_mono x y : x <= y -> (roundHalfEven x <= roundHalfEven y)%Z.
Proof.
  intros Hxy. pose proof (Qfloor_resp_le x y Hxy) as Hf.
  destruct (Qfloor_bounds x) as [Hxl Hxh]. destruct (Qfloor_bounds y) as [Hyl Hyh].
  destruct (Z.eq_dec (Qfloor x) (Qfloor y)) as [Heq|Hne].
  - destruct (roundHalfEven_cases x) as [[Hx ->]|[[Hx ->]|[Hx ->]]];
      destruct (roundHalfEven_cases y) as [[Hy ->]|[[Hy ->]|[Hy ->]]];
      rewrite <- ?Heq in *; try lia; try (exfalso; lra);
      destruct (Z.even (Qfloor x)); try lia; exfalso; lra.
  - assert (Hlt : (Qfloor x + 1 <= Qfloor y)%Z) by lia.
    destruct (roundHalfEven_cases x) as [[Hx ->]|[[Hx ->]|[Hx ->]]];
      destruct (roundHalfEven_cases y) as [[Hy ->]|[[Hy ->]|[Hy ->]]];
      repeat match goal with |- context [Z.even ?f] => destruct (Z.even f) end; lia.
Qed.

Lemma roundHalfEven_Z n : roundHalfEven (inject_Z n) = n.
Proof.
  destruct (roundHalfEven_cases (inject_Z n)) as [[H ->]|[[H ->]|[H ->]]];
    rewrite Qfloor_Z in *; [reflexivity | exfalso; lra | exfalso; lra].
Qed.

Lemma roundHalfEven_ge n q : inject_Z n <= q -> (n <= roundHalfEven q)%Z.
Proof. intros H. rewrite <- (roundHalfEven_Z n). by apply roundHalfEven_mono. Qed.

Lemma roundHalfEven_le n q : q <= inject_Z n -> (roundHalfEven q <= n)%Z.
Proof. intros H. rewrite <- (roundHalfEven_Z n). by apply roundHalfEven_mono. Qed.

Lemma roundHalfEven_comp x y : x == y -> roundHalfEven x = roundHalfEven y.
Proof.
  intros H. apply Z.le_antisymm; apply roundHalfEven_mono; rewrite H; apply Qle_refl.
Qed.

Lemma two_pos e : 0 < 2 ^ e.
Proof. by apply Qpower_0_lt. Qed.

Lemma two_succ e : 2 ^ (e + 1) == 2 * 2 ^ e.
Proof. rewrite Qpower_plus by discriminate. rewrite Qpower_1_r. ring. Qed.

Lemma two_inject n : (0 <= n)%Z -> inject_Z (2 ^ n) == 2 ^ n.
Proof. intros Hn. by rewrite Zpower_Qpower. Qed.

Lemma two_lt e e' : 2 ^ e < 2 ^ e' -> (e < e')%Z.
Proof. intros H. by apply (Qpower_lt_compat_l_inv 2). Qed.

Lemma two_le e e' : (e <= e')%Z -> 2 ^ e <= 2 ^ e'.
Proof. intros H. by apply Qpower_le_compat_l. Qed.

(** [binade q] is the exponent of the power of two at or below [q]. *)
Lemma binade_spec q : 0 < q -> 2 ^ binade q <= q /\ q < 2 ^ (binade q + 1).
Proof.
  intros Hq. destruct q as [a b].
  assert (Ha : (0 < a)%Z).
  { unfold Qlt in Hq. cbn in Hq. lia. }
  pose proof (Z.log2_spec a Ha) as [Hal Hah].
  pose proof (Z.log2_spec (Z.pos b) (Pos2Z.is_pos b)) as [Hbl Hbh].
  pose proof (Z.log2_nonneg a) as Hla.
  pose proof (Z.log2_nonneg (Z.pos b)) as Hlb.
  set (la := Z.log2 a) in *. set (lb := Z.log2 (Z.pos b)) in *.
  assert (HB : 0 < inject_Z (Z.pos b)) by reflexivity.
  assert (Hup : a # b < 2 ^ (la - lb + 1)).
  { rewrite (Qmake_Qdiv a b). apply Qlt_shift_div_r; [exact HB |].
    apply Qlt_le_trans with (2 ^ (la - lb + 1) * 2 ^ lb).
    - rewrite <- Qpower_plus by discriminate.
      replace (la - lb + 1 + lb)%Z with (Z.succ la) by lia.
      rewrite <- two_inject by lia. by rewrite <- Zlt_Qlt.
    - apply Qmult_le_l; [apply two_pos |].
      rewrite <- two_inject by lia. by rewrite <- Zle_Qle. }
  assert (Hdown : 2 ^ (la - lb - 1) <= a # b).
  { rewrite (Qmake_Qdiv a b). apply Qle_shift_div_l; [exact HB |].
    apply Qle_trans with (2 ^ (la - lb - 1) * 2 ^ (lb + 1)).
    - apply Qmult_le_l; [apply two_pos |].
      rewrite <- two_inject by lia. rewrite <- Zle_Qle.
      replace (lb + 1)%Z with (Z.succ lb) by lia. lia.
    - rewrite <- Qpower_plus by discriminate.
      replace (la - lb - 1 + (lb + 1))%Z with la by lia.
      rewrite <- two_inject by lia. by rewrite <- Zle_Qle. }
  unfold binade. cbn [Qnum Qden]. fold la lb.
  destruct (Qle_bool (2 ^ (la - lb)) (a # b)) eqn:Hle.
  - apply Qle_bool_iff in Hle. split; [exact Hle | exact Hup].
  - split; [exact Hdown |].
    replace (la - lb - 1 + 1)%Z with (la - lb)%Z by lia.
    apply Qnot_le_lt. intros H. apply Qle_bool_iff in H. congruence.
Qed.

Lemma binade_unique q e : 2 ^ e <= q -> q < 2 ^ (e + 1) -> binade q = e.
Proof.
  intros Hlo Hhi.
  assert (Hq : 0 < q) by (eapply Qlt_le_trans; [apply (two_pos e) | exact Hlo]).
  destruct (binade_spec q Hq) as [Hl Hh].
  assert (H1 : (e < binade q + 1)%Z)
    by (apply two_lt; eapply Qle_lt_trans; [exact Hlo | exact Hh]).
  assert (H2 : (binade q < e + 1)%Z)
    by (apply two_lt; eapply Qle_lt_trans; [exact Hl | exact Hhi]).
  lia.
Qed.

Lemma binade_mono x y : 0 < x -> x <= y -> (binade x <= binade y)%Z.
Proof.
  intros Hx Hxy.
  assert (Hy : 0 < y) by (eapply Qlt_le_trans; [exact Hx | exact Hxy]).
  destruct (binade_spec x Hx) as [Hl _]. destruct (binade_spec y Hy) as [_ Hh].
  assert (H : (binade x < binade y + 1)%Z).
  { apply two_lt. eapply Qle_lt_trans; [exact Hl |].
    eapply Qle_lt_trans; [exact Hxy | exact Hh]. }
  lia.
Qed.

Lemma binade_comp x y : 0 < x -> x == y -> binade x = binade y.
Proof.
  intros Hx Hxy. destruct (binade_spec x Hx) as [Hl Hh].
  symmetry. apply binade_unique; rewrite <- Hxy; assumption.
Qed.

(** The significand of a positive number, scaled to 53 bits. *)
Lemma scaled_range q :
  0 < q -> 2 ^ 52 <= q / 2 ^ (binade q - 52) /\ q / 2 ^ (binade q - 52) < 2 ^ 53.
Proof.
  intros Hq. destruct (binade_spec q Hq) as [Hl Hh].
  pose proof (two_pos (binade q - 52)) as Hp.
  split.
  - apply Qle_shift_div_l; [exact Hp |].
    rewrite <- Qpower_plus by discriminate.
    by replace (52 + (binade q - 52))%Z with (binade q) by lia.
  - apply Qlt_shift_div_r; [exact Hp |].
    rewrite <- Qpower_plus by discriminate.
    by replace (53 + (binade q - 52))%Z with (binade q + 1)%Z by lia.
Qed.

Lemma scaled_back q : q / 2 ^ (binade q - 52) * 2 ^ (binade q - 52) == q.
Proof.
  field. intros H. pose proof (two_pos (binade q - 52)) as Hp. rewrite H in Hp.
  discriminate Hp.
Qed.

Lemma nearest53_range q :
  0 < q -> 2 ^ binade q <= nearest53 q /\ nearest53 q <= 2 ^ (binade q + 1).
Proof.
  intros Hq. destruct (scaled_range q Hq) as [Hl Hh].
  pose proof (two_pos (binade q - 52)) as Hp.
  unfold nearest53. cbv zeta. split.
  - apply Qle_trans with (inject_Z (2 ^ 52) * 2 ^ (binade q - 52)).
    + rewrite two_inject by lia. rewrite <- Qpower_plus by discriminate.
      replace (52 + (binade q - 52))%Z with (binade q) by lia. apply Qle_refl.
    + apply Qmult_le_compat_r; [| by apply Qlt_le_weak].
      rewrite <- Zle_Qle. apply roundHalfEven_ge. by rewrite two_inject.
  - apply Qle_trans with (inject_Z (2 ^ 53) * 2 ^ (binade q - 52)).
    + apply Qmult_le_compat_r; [| by apply Qlt_le_weak].
      rewrite <- Zle_Qle. apply roundHalfEven_le. rewrite two_inject by lia.
      by apply Qlt_le_weak.
    + rewrite two_inject by lia. rewrite <- Qpower_plus by discriminate.
      replace (53 + (binade q - 52))%Z with (binade q + 1)%Z by lia. apply Qle_refl.
Qed.

Lemma nearest53_pos q : 0 < q -> 0 < nearest53 q.
Proof.
  intros Hq. eapply Qlt_le_trans; [apply (two_pos (binade q)) |].
  by apply nearest53_range.
Qed.

Lemma nearest53_mono x y : 0 < x -> x <= y -> nearest53 x <= nearest53 y.
Proof.
  intros Hx Hxy.
  assert (Hy : 0 < y) by (eapply Qlt_le_trans; [exact Hx | exact Hxy]).
  pose proof (binade_mono x y Hx Hxy) as He.
  destruct (Z.eq_dec (binade x) (binade y)) as [Heq|Hne].
  - unfold nearest53. cbv zeta. rewrite Heq.
    pose proof (two_pos (binade y - 52)) as Hp.
    apply Qmult_le_compat_r; [| by apply Qlt_le_weak].
    rewrite <- Zle_Qle. apply roundHalfEven_mono.
    apply Qmult_le_compat_r; [exact Hxy |].
    apply Qlt_le_weak, Qinv_lt_0_compat, Hp.
  - apply Qle_trans with (2 ^ (binade x + 1)); [by apply nearest53_range |].
    apply Qle_trans with (2 ^ binade y); [apply two_le; lia | by apply nearest53_range].
Qed.

Lemma nearest53_comp x y : 0 < x -> x == y -> nearest53 x = nearest53 y.
Proof.
  intros Hx Hxy. unfold nearest53. cbv zeta.
  rewrite (binade_comp x y Hx Hxy).
  f_equal. f_equal. apply roundHalfEven_comp. by rewrite Hxy.
Qed.

(** Rounding a positive number changes it by at most the fraction
    [2 ^ -53] of its value. *)
Lemma nearest53_error q :
  0 < q ->
  q * (1 - (1 # 2 ^ 53)) <= nearest53 q /\ nearest53 q <= q * (1 + (1 # 2 ^ 53)).
Proof.
  intros Hq. destruct (binade_spec q Hq) as [Hl _].
  pose proof (two_pos (binade q - 52)) as Hp.
  pose proof (roundHalfEven_near (q / 2 ^ (binade q - 52))) as [Hn1 Hn2].
  pose proof (scaled_back q) as Hback.
  assert (Hhalf : 2 ^ (binade q - 52) * (1 # 2) <= q * (1 # 2 ^ 53)).
  { assert (H : 2 ^ binade q == 2 ^ (binade q - 52) * 2 ^ 52).
    { rewrite <- Qpower_plus by discriminate.
      by replace (binade q - 52 + 52)%Z with (binade q) by lia. }
    rewrite H in Hl.
    assert (H52 : 2 ^ 52 == 4503599627370496) by reflexivity.
    rewrite H52 in Hl.
    change (1 # 2 ^ 53) with (1 # 9007199254740992).
    set (s := 2 ^ (binade q - 52)) in *. lra. }
  unfold nearest53. cbv zeta.
  set (s := 2 ^ (binade q - 52)) in *.
  set (m := inject_Z (roundHalfEven (q / s))) in *.
  set (z := q / s) in *.
  assert (H1 : (z - (1 # 2)) * s <= m * s) by (apply Qmult_le_compat_r; lra).
  assert (H2 : m * s <= (z + (1 # 2)) * s) by (apply Qmult_le_compat_r; lra).
  change (1 # 2 ^ 53) with (1 # 9007199254740992) in *.
  split; lra.
Qed.

Lemma binary64_spec q :
  (q == 0 /\ binary64 q = 0)
  \/ (0 < q /\ binary64 q = nearest53 q)
  \/ (q < 0 /\ binary64 q = - nearest53 (- q)).
Proof.
  unfold binary64. destruct q as [[|a|a] b]; cbn [Qnum].
  - left. by split.
  - right. left. by split.
  - right. right. by split.
Qed.

(** Rounding to binary64 never reverses the order of two numbers. *)
Lemma binary64_mono x y : x <= y -> binary64 x <= binary64 y.
Proof.
  intros Hxy.
  destruct (binary64_spec x) as [[Hx ->]|[[Hx ->]|[Hx ->]]];
    destruct (binary64_spec y) as [[Hy ->]|[[Hy ->]|[Hy ->]]];
    try (exfalso; lra).
  - apply Qle_refl.
  - by apply Qlt_le_weak, nearest53_pos.
  - by apply nearest53_mono.
  - assert (H : 0 < nearest53 (- x)) by (apply nearest53_pos; lra). lra.
  - assert (H : 0 < nearest53 (- x)) by (apply nearest53_pos; lra).
    assert (H' : 0 < nearest53 y) by (by apply nearest53_pos). lra.
  - assert (H : nearest53 (- y) <= nearest53 (- x)) by (apply nearest53_mono; lra).
    lra.
Qed.

Lemma binary64_comp x y : x == y -> binary64 x = binary64 y.
Proof.
  intros Hxy.
  destruct (binary64_spec x) as [[Hx ->]|[[Hx ->]|[Hx ->]]];
    destruct (binary64_spec y) as [[Hy ->]|[[Hy ->]|[Hy ->]]];
    try (exfalso; lra).
  - reflexivity.
  - by apply nearest53_comp.
  - f_equal. apply nearest53_comp; lra.
Qed.

Lemma binary64_nonneg q : 0 <= q -> 0 <= binary64 q.
Proof.
  intros Hq. destruct (binary64_spec q) as [[H ->]|[[H ->]|[H ->]]].
  - apply Qle_refl.
  - by apply Qlt_le_weak, nearest53_pos.
  - exfalso. lra.
Qed.

Lemma binary64_error q :
  0 <= q ->
  q * (1 - (1 # 2 ^ 53)) <= binary64 q /\ binary64 q <= q * (1 + (1 # 2 ^ 53)).
Proof.
  intros Hq. destruct (binary64_spec q) as [[H ->]|[[H ->]|[H ->]]].
  - change (1 # 2 ^ 53) with (1 # 9007199254740992). split; lra.
  - by apply nearest53_error.
  - exfalso. lra.
Qed.

End Rounding.

Section PacketClock.
Local Open Scope Q_scope.

Lemma f64_mul_mono x y c : 0 <= c -> x <= y -> f64_mul x c <= f64_mul y c.
Proof. intros Hc Hxy. apply binary64_mono. by apply Qmult_le_compat_r. Qed.

Lemma f64_div_mono x y c : 0 < c -> x <= y -> f64_div x c <= f64_div y c.
Proof.
  intros Hc Hxy. apply binary64_mono. apply Qmult_le_compat_r; [exact Hxy |].
  by apply Qlt_le_weak, Qinv_lt_0_compat.
Qed.

Lemma packetTime_mono (i j : nat) : (i <= j)%nat -> packetTime i <= packetTime j.
Proof.
  intros Hij. unfold packetTime, CDG_PACKETS_PER_SECOND.
  apply f64_mul_mono; [discriminate |]. apply f64_div_mono; [reflexivity |].
  rewrite <- Zle_Qle. lia.
Qed.

Lemma packetTime_0 : packetTime 0 = 0.
Proof. reflexivity. Qed.

(** The stamp of record [i] lies within two roundings of [i / 300 * 1000]. *)
Lemma packetTime_error (i : nat) :
  let exact := inject_Z (Z.of_nat i) / 300 * 1000 in
  exact * (1 - (1 # 2 ^ 53)) * (1 - (1 # 2 ^ 53)) <= packetTime i
  /\ packetTime i <= exact * (1 + (1 # 2 ^ 53)) * (1 + (1 # 2 ^ 53)).
Proof.
  cbv zeta. unfold packetTime, f64_mul, f64_div, CDG_PACKETS_PER_SECOND.
  assert (Hi : 0 <= inject_Z (Z.of_nat i)) by (change 0 with (inject_Z 0); rewrite <- Zle_Qle; lia).
  set (I := inject_Z (Z.of_nat i)) in *.
  assert (Hq : 0 <= I / inject_Z 300).
  { apply Qle_shift_div_l; [reflexivity | lra]. }
  destruct (binary64_error _ Hq) as [Ha1 Ha2].
  pose proof (binary64_nonneg _ Hq) as Ha0.
  set (a := binary64 (I / inject_Z 300)) in *.
  assert (Hm : 0 <= a * 1000) by lra.
  destruct (binary64_error _ Hm) as [Hb1 Hb2].
  set (b := binary64 (a * 1000)) in *.
  change (1 # 2 ^ 53) with (1 # 9007199254740992) in *.
  change (inject_Z 300) with 300 in *.
  assert (Hx : I / 300 == I * (1 # 300)) by (field).
  rewrite Hx in *. split; lra.
Qed.

(** Below [2 ^ 49] records the stamps are strictly increasing. *)
Lemma packetTime_lt (i j : nat) :
  (i < j)%nat -> (Z.of_nat j <= 2 ^ 49)%Z -> packetTime i < packetTime j.
Proof.
  intros Hij Hj.
  destruct (packetTime_error i) as [_ Hi2]. destruct (packetTime_error j) as [Hj1 _].
  cbv zeta in *.
  assert (H0 : 0 <= inject_Z (Z.of_nat i))
    by (change 0 with (inject_Z 0); rewrite <- Zle_Qle; lia).
  assert (H1 : inject_Z (Z.of_nat i) + 1 <= inject_Z (Z.of_nat j)).
  { change 1 with (inject_Z 1). rewrite <- inject_Z_plus, <- Zle_Qle. lia. }
  assert (H2 : inject_Z (Z.of_nat j) <= 562949953421312).
  { change 562949953421312 with (inject_Z (2 ^ 49)). by rewrite <- Zle_Qle. }
  set (I := inject_Z (Z.of_nat i)) in *. set (J := inject_Z (Z.of_nat j)) in *.
  change (1 # 2 ^ 53) with (1 # 9007199254740992) in *.
  assert (HI : I / 300 == I * (1 # 300)) by field.
  assert (HJ : J / 300 == J * (1 # 300)) by field.
  rewrite HI in Hi2. rewrite HJ in Hj1. lra.
Qed.

End PacketClock.

(** * The rounding checked against the machine's numbers *)

Section Machine.
Local Open Scope Q_scope.

(** On every checked record count the model's stamp is the number the
    machine's binary64 division and multiplication give. *)
Lemma binary64_matches_machine : forallb stampAgrees checkedRecords = true.
Proof. vm_compute. reflexivity. Qed.

(** Stamps that are not the exact quotient: 4030.0000000000005,
    2009.9999999999998 and 3.3333333333333335. *)
Lemma packetTime_rounded :
  packetTime 1209 == 4030 + (1 # 2 ^ 41)
  /\ packetTime 603 == 2010 - (1 # 2 ^ 42)
  /\ packetTime 1 == (7505999378950827 # 2 ^ 51)
  /\ ~ packetTime 1 == inject_Z 1 / 300 * 1000.
Proof.
  split; [by vm_compute |]. split; [by vm_compute |]. split; [by vm_compute |].
  intros H. vm_compute in H. discriminate H.
Qed.

End Machine.

(** * The decoder *)

Section Masks.

Lemma mask_low (n : Z) (v : Z) : 0 <= n -> Z.land v (Z.ones n) = Layout.low n v.
Proof. intros Hn. unfold Layout.low. by apply Z.land_ones. Qed.

Lemma mask_bits (from n v : Z) :
  0 <= from -> 0 <= n ->
  Z.shiftr (Z.land v (Z.shiftl (Z.ones n) from)) from = Layout.bits from n v.
Proof.
  intros Hf Hn. unfold Layout.bits.
  rewrite Z.shiftr_land, Z.shiftr_shiftl_l by lia.
  rewrite Z.sub_diag, Z.shiftl_0_r, Z.land_ones, Z.shiftr_div_pow2 by lia.
  reflexivity.
Qed.

Lemma low_range (n v : Z) : 0 <= n -> 0 <= Layout.low n v < 2 ^ n.
Proof. intros Hn. unfold Layout.low. apply Z.mod_pos_bound. lia. Qed.

End Masks.

Lemma sixBit_complete (v : Z) : 0 <= v < 64 -> In v sixBit.
Proof.
  intros Hv. unfold sixBit. apply in_map_iff. exists (Z.to_nat v).
  split; [lia | apply in_seq; lia].
Qed.

Lemma channelsAgree_all (lo hi : Z) :
  0 <= lo < 64 -> 0 <= hi < 64 -> channelsAgree lo hi = true.
Proof.
  intros Hlo Hhi.
  assert (Hall : forallb (fun l => forallb (channelsAgree l) sixBit) sixBit = true)
    by (vm_compute; reflexivity).
  rewrite forallb_forall in Hall.
  specialize (Hall lo (sixBit_complete lo Hlo)).
  rewrite forallb_forall in Hall.
  exact (Hall hi (sixBit_complete hi Hhi)).
Qed.

Lemma parseColor_layout (data : list Z) (i : nat) :
  parseColor data i = Layout.color (byteAt data) i.
Proof.
  unfold parseColor, Layout.color.
  replace (i * 2)%nat with (2 * i)%nat by lia.
  change 0x3f with (Z.ones 6). rewrite !mask_low by lia.
  set (lo := Layout.low 6 (byteAt data (2 * i))).
  set (hi := Layout.low 6 (byteAt data (2 * i + 1))).
  assert (Hlo : 0 <= lo < 64) by (apply (low_range 6); lia).
  assert (Hhi : 0 <= hi < 64) by (apply (low_range 6); lia).
  pose proof (channelsAgree_all lo hi Hlo Hhi) as H.
  unfold channelsAgree in H.
  apply andb_prop in H as [H Hb]. apply andb_prop in H as [Hr Hg].
  apply Z.eqb_eq in Hr, Hg, Hb.
  rewrite Hr, Hg, Hb. reflexivity.
Qed.

Lemma parsePacket_first (packet : list Z) :
  length packet = 24%nat ->
  parsePacket packet 0 =
    if negb (Z.land (byteAt packet 0) 0x3f =? 0x09) then None
    else match parseInstruction (Z.land (byteAt packet 1) 0x3f)
                 (subarray packet 4 20) with
         | Some parsed => Some {| timeMs := packetTime 0; instruction := Some parsed |}
         | None => None
         end.
Proof.
  intros Hlen.
  assert (Hwhole : subarray packet 0 24 = packet).
  { unfold subarray. rewrite drop_0. change (24 - 0)%nat with 24%nat.
    rewrite <- Hlen. apply firstn_all. }
  unfold parsePacket.
  change (0 * CDG_PACKET_SIZE)%nat with 0%nat.
  change (0 + CDG_PACKET_SIZE)%nat with 24%nat.
  cbv zeta. rewrite Hwhole. reflexivity.
Qed.

Lemma parseInstruction_layout (opcode : Z) (packet : list Z) :
  length packet = 24%nat ->
  In opcode CDG_INST.known ->
  parseInstruction opcode (subarray packet 4 20)
  = Layout.instruction opcode (fun k => byteAt packet (4 + k))
  /\ parseInstruction opcode (subarray packet 4 20) <> None.
Proof.
  intros Hlen Hop.
  do 25 (destruct packet as [|? packet]; try discriminate Hlen).
  clear Hlen.
  assert (Hc : forall i, (i < 8)%nat ->
            parseColor (subarray [z; z0; z1; z2; z3; z4; z5; z6; z7; z8; z9; z10; z11;
                                  z12; z13; z14; z15; z16; z17; z18; z19; z20; z21; z22] 4 20) i
            = Layout.color (fun k => byteAt [z; z0; z1; z2; z3; z4; z5; z6; z7; z8; z9; z10; z11;
                                  z12; z13; z14; z15; z16; z17; z18; z19; z20; z21; z22] (4 + k)) i).
  { intros i Hi. rewrite parseColor_layout. unfold Layout.color.
    do 8 (destruct i as [|i]; [reflexivity|]). lia. }
  unfold CDG_INST.known in Hop. simpl in Hop.
  repeat (destruct Hop as [<- | Hop]); try (destruct Hop);
    (split; [| discriminate]);
    cbn [parseInstruction Layout.instruction Z.eqb Pos.eqb orb
         CDG_INST.TILE_BLOCK_XOR CDG_INST.SCROLL_COPY CDG_INST.LOAD_COLOR_TABLE_HI];
    try (change 0x0f with (Z.ones 4)); try (change 0x1f with (Z.ones 5));
    try (change 0x3f with (Z.ones 6)); try (change 0x07 with (Z.ones 3));
    try (change 0x30 with (Z.shiftl (Z.ones 2) 4));
    rewrite ?mask_bits, ?mask_low by lia; try reflexivity.
  - f_equal. f_equal. cbn. rewrite !mask_low by lia. reflexivity.
  - f_equal. f_equal. apply map_ext_in. intros i Hi. apply Hc. apply in_seq in Hi. lia.
  - f_equal. f_equal. apply map_ext_in. intros i Hi. apply Hc. apply in_seq in Hi. lia.
  - f_equal. f_equal. cbn. rewrite !mask_low by lia. reflexivity.
Qed.

(** C1. A 24-byte buffer whose command byte has low six bits 0x09 and
    whose opcode (the low six bits of byte 1) is one of the nine known
    values decodes to exactly one packet, at time 0, and its instruction is
    the one the bit layout of section 3 gives for the sixteen data bytes. *)
Theorem decode_known_packet (packet : list Z) :
  length packet = 24%nat ->
  Layout.low 6 (byteAt packet 0) = 0x09 ->
  In (Layout.low 6 (byteAt packet 1)) CDG_INST.known ->
  exists inst,
    packets (parseCdgFile packet)
      = [ {| timeMs := packetTime 0; instruction := Some inst |} ]
    /\ (packetTime 0 == 0)%Q
    /\ Layout.instruction (Layout.low 6 (byteAt packet 1))
         (fun k => byteAt packet (4 + k)) = Some inst.
Proof.
  intros Hlen Hcmd Hop.
  destruct (parseInstruction_layout _ packet Hlen Hop) as [Heq Hsome].
  destruct (parseInstruction (Layout.low 6 (byteAt packet 1)) (subarray packet 4 20))
    as [inst|] eqn:Hparse; [| congruence].
  exists inst. split; [| split; [reflexivity | congruence]].
  unfold parseCdgFile. rewrite Hlen. cbn [packets].
  change (24 / CDG_PACKET_SIZE)%nat with 1%nat. cbn [seq omap list_omap].
  rewrite parsePacket_first by exact Hlen.
  change 0x3f with (Z.ones 6). rewrite !mask_low by lia.
  rewrite Hcmd, Hparse. reflexivity.
Qed.

Lemma decode_known_packet_witness :
  exists inst,
    packets (parseCdgFile tilePacket)
      = [ {| timeMs := packetTime 0; instruction := Some inst |} ]
    /\ (packetTime 0 == 0)%Q
    /\ Layout.instruction (Layout.low 6 (byteAt tilePacket 1))
         (fun k => byteAt tilePacket (4 + k)) = Some inst.
Proof.
  apply (decode_known_packet tilePacket).
  - reflexivity.
  - reflexivity.
  - vm_compute. tauto.
Defined.

(** C7. The duration of a decoded buffer is [floor(length / 24) / 300 * 1000]
    milliseconds in the arithmetic of the code, where the quotient by 300
    and the product by 1000 are each rounded to binary64. It depends on the
    number of complete records only, lies within two roundings of the exact
    quotient, and is exactly 1000 for 300*24 bytes, 500 for 150*24 bytes and
    1000 for 300*24+10 bytes; at these three lengths the binary64
    operations of the machine give the same numbers. *)
Theorem duration_formula (buffer : list Z) :
  let records := inject_Z (Z.of_nat (length buffer) / 24) in
  let exact := (records / 300 * 1000)%Q in
  durationMs (parseCdgFile buffer) = f64_mul (f64_div records 300) 1000
  /\ (exact * (1 - (1 # 2 ^ 53)) * (1 - (1 # 2 ^ 53)) <= durationMs (parseCdgFile buffer)
      /\ durationMs (parseCdgFile buffer)
         <= exact * (1 + (1 # 2 ^ 53)) * (1 + (1 # 2 ^ 53)))%Q
  /\ (length buffer = (300 * 24)%nat ->
      (durationMs (parseCdgFile buffer) == 1000)%Q
      /\ durationMsBinary64 buffer = 1000%float)
  /\ (length buffer = (150 * 24)%nat ->
      (durationMs (parseCdgFile buffer) == 500)%Q
      /\ durationMsBinary64 buffer = 500%float)
  /\ (length buffer = (300 * 24 + 10)%nat ->
      (durationMs (parseCdgFile buffer) == 1000)%Q
      /\ durationMsBinary64 buffer = 1000%float).
Proof.
  cbv zeta.
  assert (Hd : durationMs (parseCdgFile buffer)
               = f64_mul (f64_div (inject_Z (Z.of_nat (length buffer) / 24)) 300) 1000).
  { unfold parseCdgFile. cbn [durationMs]. unfold CDG_PACKET_SIZE.
    rewrite Nat2Z.inj_div. reflexivity. }
  split; [exact Hd |].
  split.
  - pose proof (packetTime_error (length buffer / 24)) as Herr. cbv zeta in Herr.
    unfold packetTime, CDG_PACKETS_PER_SECOND in Herr.
    rewrite Nat2Z.inj_div in Herr. rewrite Hd. exact Herr.
  - unfold durationMsBinary64.
    split; [| split]; intros Hlen; rewrite Hd, Hlen; split;
      [by vm_compute | reflexivity | by vm_compute | reflexivity
      | by vm_compute | reflexivity].
Qed.

Lemma duration_formula_witness :
  (durationMs (parseCdgFile (replicate (300 * 24 + 10) 0%Z)) == 1000)%Q
  /\ durationMsBinary64 (replicate (300 * 24 + 10) 0%Z) = 1000%float.
Proof.
  apply (duration_formula (replicate (300 * 24 + 10) 0%Z)).
  apply length_replicate.
Defined.

(** The duration is not always the exact quotient: one record lasts
    3.3333333333333335 ms, not 10/3 ms. *)
Lemma duration_one_record (buffer : list Z) :
  length buffer = 24%nat ->
  (durationMs (parseCdgFile buffer) == (7505999378950827 # 2 ^ 51))%Q
  /\ ~ (durationMs (parseCdgFile buffer) == inject_Z 1 / 300 * 1000)%Q
  /\ floatValue (durationMsBinary64 buffer) = Some (7505999378950827 # 2 ^ 51)%Q.
Proof.
  intros Hlen. unfold parseCdgFile, durationMsBinary64. cbn [durationMs]. rewrite Hlen.
  split; [by vm_compute |]. split; [| by vm_compute].
  intros H. vm_compute in H. discriminate H.
Qed.

(** * Loops *)

Section Loops.
Context {S : Type}.
Implicit Types (body : Z -> S -> S) (s : S).

Lemma forN_invariant (P : Z -> S -> Prop) body n i s :
  P i s ->
  (forall j t, i <= j < i + Z.of_nat n -> P j t -> P (j + 1) (body j t)) ->
  P (i + Z.of_nat n) (forN n i body s).
Proof.
  revert i s. induction n as [|n IH]; intros i s Hs Hstep.
  - cbn. by rewrite Z.add_0_r.
  - cbn [forN]. replace (i + Z.of_nat (Datatypes.S n)) with (i + 1 + Z.of_nat n) by lia.
    apply IH.
    + apply Hstep; [lia | done].
    + intros j t Hj. apply Hstep. lia.
Qed.

(** The loop-invariant rule for [for (i = lo; i < hi; i++)]. *)
Lemma forZ_invariant (P : Z -> S -> Prop) body lo hi s :
  lo <= hi ->
  P lo s ->
  (forall j t, lo <= j < hi -> P j t -> P (j + 1) (body j t)) ->
  P hi (forZ lo hi body s).
Proof.
  intros Hle Hs Hstep. unfold forZ.
  replace hi with (lo + Z.of_nat (Z.to_nat (hi - lo))) at 1 by lia.
  apply forN_invariant; [done |].
  intros j t Hj. apply Hstep. lia.
Qed.

(** An invariant that does not mention the counter. *)
Lemma forZ_preserves (P : S -> Prop) body lo hi s :
  P s -> (forall j t, lo <= j < hi -> P t -> P (body j t)) -> P (forZ lo hi body s).
Proof.
  intros Hs Hstep. destruct (Z_le_gt_dec lo hi) as [Hle|Hgt].
  - apply (forZ_invariant (fun _ => P)); auto.
  - unfold forZ. replace (Z.to_nat (hi - lo)) with 0%nat by lia. exact Hs.
Qed.

Lemma forN_ext body body' n i s :
  (forall j t, i <= j < i + Z.of_nat n -> body j t = body' j t) ->
  forN n i body s = forN n i body' s.
Proof.
  revert i s. induction n as [|n IH]; intros i s Hext; [done |].
  cbn [forN]. rewrite Hext by lia. apply IH. intros j t Hj. apply Hext. lia.
Qed.

Lemma forZ_ext body body' lo hi s :
  (forall j t, lo <= j < hi -> body j t = body' j t) ->
  forZ lo hi body s = forZ lo hi body' s.
Proof. intros Hext. apply forN_ext. intros j t Hj. apply Hext. lia. Qed.

Lemma forN_shift body k n i s :
  forN n i (fun j => body (k + j)) s = forN n (k + i) body s.
Proof.
  revert i s. induction n as [|n IH]; intros i s; [done |].
  cbn [forN]. rewrite IH. by rewrite Z.add_assoc.
Qed.

(** A loop over offsets is a loop over the shifted range. *)
Lemma forZ_shift body k n s :
  forZ 0 n (fun j => body (k + j)) s = forZ k (k + n) body s.
Proof.
  unfold forZ. rewrite forN_shift.
  by replace (k + n - k) with (n - 0) by lia; rewrite Z.add_0_r.
Qed.
End Loops.

(** * Typed arrays *)

Section TypedArrays.
Implicit Types (px : list Z) (i j v : Z).

Lemma u8_set_length px i v : length (u8_set px i v) = length px.
Proof. unfold u8_set. destruct (i <? 0); [done | apply length_insert]. Qed.

Lemma u8_get_set_eq px i v :
  0 <= i < Z.of_nat (length px) -> u8_get (u8_set px i v) i = Some (v mod 256).
Proof.
  intros Hi. unfold u8_get, u8_set.
  destruct (Z.ltb_spec i 0); [lia |]. apply list_lookup_insert_eq. lia.
Qed.

Lemma u8_get_set_ne px i j v : i <> j -> u8_get (u8_set px i v) j = u8_get px j.
Proof.
  intros Hne. unfold u8_get, u8_set.
  destruct (Z.ltb_spec j 0); [done |].
  destruct (Z.ltb_spec i 0); [done |].
  apply list_lookup_insert_ne. lia.
Qed.

Lemma u8_get_Some_lt px i v : u8_get px i = Some v -> 0 <= i < Z.of_nat (length px).
Proof.
  unfold u8_get. destruct (Z.ltb_spec i 0) as [|Hge]; [done |].
  intros Hlt%lookup_lt_Some. lia.
Qed.

Lemma u8_get_lt_Some px i : 0 <= i < Z.of_nat (length px) -> is_Some (u8_get px i).
Proof.
  intros Hi. unfold u8_get. destruct (Z.ltb_spec i 0); [lia |].
  apply lookup_lt_is_Some. lia.
Qed.

(** Two arrays with the same reads are the same array. *)
Lemma u8_ext px px' :
  (forall i, 0 <= i -> u8_get px i = u8_get px' i) -> px = px'.
Proof.
  intros Hext. apply list_eq. intros n.
  specialize (Hext (Z.of_nat n) ltac:(lia)). unfold u8_get in Hext.
  destruct (Z.ltb_spec (Z.of_nat n) 0); [lia |]. by rewrite Nat2Z.id in Hext.
Qed.
End TypedArrays.

(** * Rectangles of the pixel grid *)

Section Rectangles.
Implicit Types (px : list Z) (f : Z -> Z -> Z -> Z).

(** One row: the cells from [base + x0] up to [base + x1]. *)
Lemma updateRow_spec (g : Z -> Z -> Z) base x0 x1 px :
  x0 <= x1 -> 0 <= base + x0 -> base + x1 <= Z.of_nat (length px) ->
  let px' := forZ x0 x1 (fun x px =>
               u8_set px (base + x) (g x (toInt (u8_get px (base + x))))) px in
  length px' = length px
  /\ forall i, u8_get px' i =
       if decide (base + x0 <= i < base + x1)
       then Some (g (i - base) (toInt (u8_get px i)) mod 256)
       else u8_get px i.
Proof.
  intros Hle Hlo Hhi px'. subst px'.
  refine (forZ_invariant (fun j t =>
    length t = length px
    /\ forall i, u8_get t i =
         if decide (base + x0 <= i < base + j)
         then Some (g (i - base) (toInt (u8_get px i)) mod 256)
         else u8_get px i) _ _ _ _ Hle _ _).
  - split; [done |]. intros i. case_decide; [lia | done].
  - intros j t Hj [Hlen Hget]. split; [by rewrite u8_set_length |].
    intros i. destruct (decide (i = base + j)) as [->|Hne].
    + rewrite u8_get_set_eq by lia. rewrite (Hget (base + j)).
      case_decide; [lia |]. case_decide; [| lia].
      by replace (base + j - base) with j by lia.
    + rewrite u8_get_set_ne by done. rewrite Hget.
      repeat case_decide; try done; lia.
Qed.

Lemma updateRect_spec f y0 y1 x0 x1 px :
  0 <= x0 <= x1 -> x1 <= CDG_WIDTH -> 0 <= y0 <= y1 ->
  y1 * CDG_WIDTH <= Z.of_nat (length px) ->
  length (updateRect y0 y1 x0 x1 f px) = length px
  /\ forall x y, 0 <= x < CDG_WIDTH -> 0 <= y ->
       u8_get (updateRect y0 y1 x0 x1 f px) (y * CDG_WIDTH + x) =
         if decide ((y0 <= y < y1) /\ (x0 <= x < x1))
         then Some (f y x (toInt (u8_get px (y * CDG_WIDTH + x))) mod 256)
         else u8_get px (y * CDG_WIDTH + x).
Proof.
  unfold updateRect, CDG_WIDTH. intros Hx Hx1 Hy Hlen.
  refine (forZ_invariant (fun j t =>
    length t = length px
    /\ forall x y, 0 <= x < 300 -> 0 <= y ->
         u8_get t (y * 300 + x) =
           if decide ((y0 <= y < j) /\ (x0 <= x < x1))
           then Some (f y x (toInt (u8_get px (y * 300 + x))) mod 256)
           else u8_get px (y * 300 + x)) _ _ _ _ (proj2 Hy) _ _).
  - split; [done |]. intros x y _ _. case_decide; [lia | done].
  - intros j t Hj [Hlt Hget].
    destruct (updateRow_spec (f j) (j * 300) x0 x1 t) as [Hlen' Hrow];
      [lia | lia | nia |].
    split; [by rewrite Hlen' |].
    intros x y Hxr Hyr. rewrite Hrow, Hget by done.
    destruct (decide (y = j)) as [->|Hne].
    + replace (j * 300 + x - j * 300) with x by lia.
      repeat case_decide; try done; lia.
    + repeat case_decide; try done; lia.
Qed.
End Rectangles.

(** * Border preset *)

Lemma drawBorder_rects (color : Z) (px : list Z) :
  drawBorder color px =
    updateRect CDG_BORDER_Y (CDG_HEIGHT - CDG_BORDER_Y)
      (CDG_WIDTH - CDG_BORDER_X) CDG_WIDTH (fun _ _ _ => color)
      (updateRect CDG_BORDER_Y (CDG_HEIGHT - CDG_BORDER_Y) 0 CDG_BORDER_X
         (fun _ _ _ => color)
         (updateRect (CDG_HEIGHT - CDG_BORDER_Y) CDG_HEIGHT 0 CDG_WIDTH
            (fun _ _ _ => color)
            (updateRect 0 CDG_BORDER_Y 0 CDG_WIDTH (fun _ _ _ => color) px))).
Proof. unfold drawBorder, updateRect. reflexivity. Qed.

Lemma drawBorder_spec (color : Z) (px : list Z) :
  length px = Z.to_nat (CDG_WIDTH * CDG_HEIGHT) ->
  length (drawBorder color px) = length px
  /\ forall x y, 0 <= x < CDG_WIDTH -> 0 <= y < CDG_HEIGHT ->
       u8_get (drawBorder color px) (y * CDG_WIDTH + x) =
         if decide (inBorderBands x y) then Some (color mod 256)
         else u8_get px (y * CDG_WIDTH + x).
Proof.
  intros Hlen. rewrite drawBorder_rects.
  assert (Hsz : Z.of_nat (length px) = 64800).
  { rewrite Hlen, Z2Nat.id; [reflexivity | unfold CDG_WIDTH, CDG_HEIGHT; lia]. }
  clear Hlen.
  unfold inBorderBands, CDG_HEIGHT, CDG_BORDER_X, CDG_BORDER_Y.
  change (216 - 12) with 204. change (CDG_WIDTH - 6) with 294.
  destruct (updateRect_spec (fun _ _ _ => color) 0 12 0 CDG_WIDTH px) as [L1 G1];
    [unfold CDG_WIDTH; lia .. |].
  set (px1 := updateRect 0 12 0 CDG_WIDTH _ px) in *. clearbody px1.
  destruct (updateRect_spec (fun _ _ _ => color) 204 216 0 CDG_WIDTH px1) as [L2 G2];
    [unfold CDG_WIDTH; lia .. |].
  set (px2 := updateRect 204 216 0 CDG_WIDTH _ px1) in *. clearbody px2.
  destruct (updateRect_spec (fun _ _ _ => color) 12 204 0 6 px2) as [L3 G3];
    [unfold CDG_WIDTH; lia .. |].
  set (px3 := updateRect 12 204 0 6 _ px2) in *. clearbody px3.
  destruct (updateRect_spec (fun _ _ _ => color) 12 204 294 CDG_WIDTH px3) as [L4 G4];
    [unfold CDG_WIDTH; lia .. |].
  set (px4 := updateRect 12 204 294 CDG_WIDTH _ px3) in *. clearbody px4.
  split; [congruence |].
  intros x y Hx Hy. rewrite G4, G3, G2, G1 by lia.
  unfold CDG_WIDTH in *.
  repeat case_decide; try done; lia.
Qed.

(** C9. A border preset with colour [c] sets every cell of the four border
    bands to [c] and leaves every cell of the inner 288 x 192 area as it
    was. *)
Theorem borderPreset_frame (rd : CdgRenderer) (c x y : Z) :
  gridSized rd ->
  0 <= c <= 15 ->
  0 <= x < CDG_WIDTH -> 0 <= y < CDG_HEIGHT ->
  (inBorderBands x y -> pixelAt (applyInstruction rd (borderPreset c)) x y = Some c)
  /\ (inInnerArea x y ->
      pixelAt (applyInstruction rd (borderPreset c)) x y = pixelAt rd x y).
Proof.
  intros Hsz Hc Hx Hy. unfold pixelAt. cbn [applyInstruction pixels].
  destruct (drawBorder_spec c (pixels rd) Hsz) as [_ Hget].
  rewrite Hget by done. clear Hget Hsz.
  split; intros Hin.
  - case_decide; [| done]. by rewrite Z.mod_small by lia.
  - case_decide as Hb; [| done].
    unfold inBorderBands, inInnerArea, CDG_WIDTH, CDG_HEIGHT, CDG_BORDER_X,
      CDG_BORDER_Y, CDG_VISIBLE_WIDTH, CDG_VISIBLE_HEIGHT in *. lia.
Qed.

Lemma gridSized_new : gridSized newRenderer.
Proof. apply length_replicate. Qed.

Lemma borderPreset_frame_witness :
  pixelAt (applyInstruction newRenderer (borderPreset 3)) 0 0 = Some 3
  /\ pixelAt (applyInstruction newRenderer (borderPreset 3)) 150 100
     = pixelAt newRenderer 150 100.
Proof.
  split.
  - apply (borderPreset_frame newRenderer 3 0 0).
    + apply gridSized_new.
    + lia.
    + unfold CDG_WIDTH; lia.
    + unfold CDG_HEIGHT; lia.
    + unfold inBorderBands, CDG_BORDER_Y; lia.
  - apply (borderPreset_frame newRenderer 3 150 100).
    + apply gridSized_new.
    + lia.
    + unfold CDG_WIDTH; lia.
    + unfold CDG_HEIGHT; lia.
    + unfold inInnerArea, CDG_BORDER_X, CDG_BORDER_Y, CDG_VISIBLE_WIDTH,
        CDG_VISIBLE_HEIGHT; lia.
Defined.

(** * Tiles *)

Lemma drawTile_rect xor color0 color1 row column tilePixels (px : list Z) :
  column * CDG_TILE_WIDTH + CDG_TILE_WIDTH <= CDG_WIDTH ->
  row * CDG_TILE_HEIGHT + CDG_TILE_HEIGHT <= CDG_HEIGHT ->
  drawTile xor color0 color1 row column tilePixels px =
    updateRect (row * CDG_TILE_HEIGHT) (row * CDG_TILE_HEIGHT + CDG_TILE_HEIGHT)
      (column * CDG_TILE_WIDTH) (column * CDG_TILE_WIDTH + CDG_TILE_WIDTH)
      (tileCell xor color0 color1 tilePixels
         (column * CDG_TILE_WIDTH) (row * CDG_TILE_HEIGHT)) px.
Proof.
  intros Hx Hy. unfold drawTile.
  destruct (Z.gtb_spec (column * CDG_TILE_WIDTH + CDG_TILE_WIDTH) CDG_WIDTH); [lia |].
  destruct (Z.gtb_spec (row * CDG_TILE_HEIGHT + CDG_TILE_HEIGHT) CDG_HEIGHT); [lia |].
  cbn [orb]. unfold updateRect.
  set (startX := column * CDG_TILE_WIDTH). set (startY := row * CDG_TILE_HEIGHT).
  symmetry. rewrite <- forZ_shift. apply forZ_ext. intros j t _.
  rewrite <- forZ_shift. apply forZ_ext. intros i u _.
  unfold tileCell.
  replace (startY + j - startY) with j by lia.
  replace (startX + i - startX) with i by lia.
  by destruct xor.
Qed.

(** Storing [old ^ c] and then [(old ^ c) ^ c] into a byte gives [old] back. *)
Lemma xor_twice_byte (old c : Z) :
  0 <= old < 256 -> Z.lxor (Z.lxor old c mod 256) c mod 256 = old.
Proof.
  intros Hold. rewrite <- (Z.mod_small old 256) at 2 by lia.
  change 256 with (2 ^ 8). rewrite <- !Z.land_ones by lia.
  apply Z.bits_inj'. intros n Hn.
  rewrite !Z.land_spec, !Z.lxor_spec, Z.land_spec, Z.lxor_spec.
  destruct (Z.testbit old n), (Z.testbit c n), (Z.testbit (Z.ones 8) n); reflexivity.
Qed.

Lemma u8_get_bytes (px : list Z) (i v : Z) :
  bytes px -> u8_get px i = Some v -> 0 <= v < 256.
Proof.
  unfold u8_get, bytes. intros Hb. destruct (i <? 0); [done |].
  intros Hget. by apply (Forall_lookup_1 _ _ _ _ Hb Hget).
Qed.

(** C8. Applying the same in-bounds XOR tile twice in succession gives
    back every pixel of the grid (and the rest of the renderer state). *)
Theorem tile_xor_twice (rd : CdgRenderer) (color0 color1 row column : Z)
    (tilePixels : list Z) :
  gridSized rd -> bytes (pixels rd) ->
  tileInBounds row column ->
  let tile := tileBlock true color0 color1 row column tilePixels in
  applyInstruction (applyInstruction rd tile) tile = rd.
Proof.
  intros Hsz Hb (Hrow & Hcol & Hx & Hy) tile. subst tile.
  destruct rd as [px pal tc bc ho vo]. unfold gridSized in Hsz.
  cbn [applyInstruction pixels palette transparentColor borderColor hOffset vOffset] in *.
  f_equal. rewrite !drawTile_rect by done.
  set (f := tileCell true color0 color1 tilePixels _ _).
  unfold CDG_TILE_WIDTH, CDG_TILE_HEIGHT, CDG_HEIGHT in *.
  assert (Hlen : Z.of_nat (length px) = 64800).
  { rewrite Hsz, Z2Nat.id; [reflexivity | unfold CDG_WIDTH; lia]. }
  clear Hsz.
  destruct (updateRect_spec f (row * 12) (row * 12 + 12) (column * 6) (column * 6 + 6) px)
    as [L1 G1]; [unfold CDG_WIDTH in *; lia .. |].
  set (px1 := updateRect _ _ _ _ f px) in *. clearbody px1.
  destruct (updateRect_spec f (row * 12) (row * 12 + 12) (column * 6) (column * 6 + 6) px1)
    as [L2 G2]; [unfold CDG_WIDTH in *; lia .. |].
  set (px2 := updateRect _ _ _ _ f px1) in *. clearbody px2.
  apply u8_ext. intros i Hi.
  destruct (Z_lt_ge_dec i 64800) as [Hlt|Hge].
  - assert (Hix : i = (i / 300) * CDG_WIDTH + i mod 300)
      by (unfold CDG_WIDTH; pose proof (Z.div_mod i 300); lia).
    assert (0 <= i mod 300 < 300) by (apply Z.mod_pos_bound; lia).
    assert (0 <= i / 300) by (apply Z.div_pos; lia).
    rewrite Hix, G2, G1 by (unfold CDG_WIDTH; lia).
    case_decide; [| done].
    destruct (u8_get_lt_Some px ((i / 300) * CDG_WIDTH + i mod 300)) as [old Hold];
      [lia |].
    rewrite Hold. cbn [toInt default]. f_equal.
    subst f. unfold tileCell. apply xor_twice_byte. by eapply u8_get_bytes.
  - unfold u8_get. destruct (i <? 0); [done |].
    rewrite !lookup_ge_None_2 by lia. done.
Qed.

Lemma tile_xor_twice_witness :
  let tile := tileBlock true 0 5 2 3 [63; 0; 63; 0; 63; 0; 63; 0; 63; 0; 63; 0] in
  applyInstruction (applyInstruction newRenderer tile) tile = newRenderer.
Proof.
  apply (tile_xor_twice newRenderer).
  - apply gridSized_new.
  - apply Forall_replicate. lia.
  - unfold tileInBounds, CDG_TILE_WIDTH, CDG_TILE_HEIGHT, CDG_WIDTH, CDG_HEIGHT. lia.
Defined.

(** * The cells of the grid are palette indices *)

Section Ranges.

Lemma land_ones_range (v n : Z) : 0 <= n -> 0 <= Z.land v (Z.ones n) <= 2 ^ n - 1.
Proof.
  intros Hn. rewrite Z.land_ones by done.
  pose proof (Z.mod_pos_bound v (2 ^ n) ltac:(lia)). lia.
Qed.

Lemma land_nibble (v : Z) : nibble (Z.land v 0x0f).
Proof. apply (land_ones_range v 4). lia. Qed.

Lemma shiftr_two_bits (v : Z) : 0 <= Z.shiftr (Z.land v 0x30) 4 <= 3.
Proof.
  rewrite Z.shiftr_land. change (Z.shiftr 0x30 4) with (Z.ones 2).
  apply (land_ones_range _ 2). lia.
Qed.

Lemma nibble_byte (v : Z) : nibble v -> v mod 256 = v.
Proof. unfold nibble. intros Hv. apply Z.mod_small. lia. Qed.

Lemma lxor_nibble (v c : Z) : nibble v -> nibble c -> nibble (Z.lxor v c).
Proof.
  unfold nibble. intros Hv Hc.
  rewrite <- (Z.mod_small v 16), <- (Z.mod_small c 16) by lia.
  change 16 with (2 ^ 4). rewrite <- !Z.land_ones by lia.
  replace (Z.lxor (Z.land v (Z.ones 4)) (Z.land c (Z.ones 4)))
    with (Z.land (Z.lxor v c) (Z.ones 4)).
  - apply (land_ones_range _ 4). lia.
  - apply Z.bits_inj'. intros n _.
    rewrite Z.lxor_spec, !Z.land_spec, Z.lxor_spec.
    by destruct (Z.testbit v n), (Z.testbit c n), (Z.testbit (Z.ones 4) n).
Qed.

Lemma parseInstruction_fields (opcode : Z) (data : list Z) (inst : CdgInstruction) :
  parseInstruction opcode data = Some inst -> decodedFields inst.
Proof.
  intros H. unfold parseInstruction in H.
  destruct opcode as [|p|p]; try discriminate H.
  repeat (destruct p as [p|p|]; try discriminate H);
    injection H as <-; cbn [decodedFields];
    repeat split; try apply land_nibble; try apply shiftr_two_bits;
    try (apply (land_ones_range _ 5); lia); try (apply (land_ones_range _ 6); lia);
    try (apply (land_ones_range _ 3); lia); try (apply (land_ones_range _ 4); lia);
    try (apply Forall_map, Forall_true; intros v; cbn;
         apply (land_ones_range v 6); lia);
    try (left; reflexivity); try (right; reflexivity).
Qed.

End Ranges.

Section GridRange.
Implicit Types (px : list Z).

Lemma u8_set_range n px i v : rangeInv n px -> nibble v -> rangeInv n (u8_set px i v).
Proof.
  intros [Hlen Hall] Hv. split; [by rewrite u8_set_length |].
  unfold u8_set. destruct (i <? 0); [done |].
  apply Forall_insert; [done |]. by rewrite nibble_byte.
Qed.

Lemma u8_get_range px i : Forall nibble px -> nibble (toInt (u8_get px i)).
Proof.
  intros Hall. unfold u8_get. destruct (i <? 0); [cbn; unfold nibble; lia |].
  destruct (px !! Z.to_nat i) as [v|] eqn:Hget; cbn; [| unfold nibble; lia].
  by apply (Forall_lookup_1 _ _ _ _ Hall Hget).
Qed.

Lemma u8_fill_range px color :
  nibble color -> rangeInv (length px) (u8_fill px color).
Proof.
  intros Hc. unfold u8_fill. split; [apply length_replicate |].
  apply Forall_replicate. by rewrite nibble_byte.
Qed.

Lemma drawBorder_range n px color :
  rangeInv n px -> nibble color -> rangeInv n (drawBorder color px).
Proof.
  intros Hpx Hc. unfold drawBorder.
  repeat (apply forZ_preserves; [| intros; apply forZ_preserves; [done |];
                                   intros; by apply u8_set_range]).
  done.
Qed.

Lemma drawTile_range n px xor color0 color1 row column tilePixels :
  rangeInv n px -> nibble color0 -> nibble color1 ->
  rangeInv n (drawTile xor color0 color1 row column tilePixels px).
Proof.
  intros Hpx H0 H1. unfold drawTile.
  destruct (_ || _); [done |].
  apply forZ_preserves; [done |]. intros j t _ Ht.
  apply forZ_preserves; [done |]. intros i u _ Hu.
  set (color := if _ =? 0 then color0 else color1).
  assert (Hcolor : nibble color) by (subst color; by destruct (_ =? 0)).
  destruct xor; apply u8_set_range; try done.
  apply lxor_nibble; [| done]. apply u8_get_range, Hu.
Qed.

Lemma scrollDisplay_range px copy color hScroll vScroll :
  Forall nibble px -> nibble color ->
  rangeInv (Z.to_nat (CDG_WIDTH * CDG_HEIGHT))
    (scrollDisplay copy color hScroll vScroll px).
Proof.
  intros Hpx Hc. unfold scrollDisplay.
  apply forZ_preserves.
  { split; [apply length_replicate |]. apply Forall_replicate. unfold nibble. lia. }
  intros y t _ Ht. apply forZ_preserves; [done |]. intros x u _ Hu.
  destruct copy; [by apply u8_set_range, u8_get_range |].
  destruct (_ || _); apply u8_set_range; try done. by apply u8_get_range.
Qed.
End GridRange.

(** C5. Applying an instruction the decoder produced to a renderer whose
    300 x 216 cells all hold a value from 0 to 15 leaves a renderer whose
    300 x 216 cells all hold a value from 0 to 15. *)
Theorem applyInstruction_range (rd : CdgRenderer) (opcode : Z) (data : list Z)
    (inst : CdgInstruction) :
  parseInstruction opcode data = Some inst ->
  gridInRange rd ->
  gridInRange (applyInstruction rd inst).
Proof.
  intros Hdec%parseInstruction_fields Hrd.
  assert (Hinv : rangeInv (Z.to_nat (CDG_WIDTH * CDG_HEIGHT)) (pixels rd)) by exact Hrd.
  clear Hrd.
  cut (rangeInv (Z.to_nat (CDG_WIDTH * CDG_HEIGHT)) (pixels (applyInstruction rd inst)));
    [intros H; exact H |].
  destruct inst as [color repeat | color | xor c0 c1 row column tp
                   | copy color hs vs ho vo | color | offset colors];
    cbn [applyInstruction decodedFields] in *.
  - destruct Hdec as [Hc _]. destruct (repeat =? 0); [| done].
    cbn [pixels]. destruct Hinv as [Hlen Hall]. rewrite <- Hlen.
    by apply u8_fill_range.
  - by apply drawBorder_range.
  - destruct Hdec as (H0 & H1 & _). by apply drawTile_range.
  - destruct Hdec as (Hc & _). cbn [pixels].
    destruct (_ || _); [| done]. apply scrollDisplay_range; [apply Hinv | done].
  - done.
  - done.
Qed.

Lemma gridInRange_new : gridInRange newRenderer.
Proof.
  split; [apply gridSized_new |]. apply Forall_replicate. unfold nibble. lia.
Qed.

Lemma applyInstruction_range_witness :
  gridInRange
    (applyInstruction newRenderer (tileBlock true 3 15 2 3 (replicate 12 0))).
Proof.
  apply (applyInstruction_range newRenderer 38
           [0x13; 0xff; 0x22; 0x43; 0; 0; 0; 0; 0; 0; 0; 0; 0; 0; 0; 0]).
  - reflexivity.
  - apply gridInRange_new.
Defined.

(** * The visible frame *)

Section ClampedArrays.
Implicit Types (px : list Z) (i j v : Z).

Lemma u8c_set_length px i v : length (u8c_set px i v) = length px.
Proof. unfold u8c_set. destruct (i <? 0); [done | apply length_insert]. Qed.

Lemma u8_get_u8c_set_eq px i v :
  0 <= i < Z.of_nat (length px) ->
  u8_get (u8c_set px i v) i = Some (Z.max 0 (Z.min 255 v)).
Proof.
  intros Hi. unfold u8_get, u8c_set.
  destruct (Z.ltb_spec i 0); [lia |]. apply list_lookup_insert_eq. lia.
Qed.

Lemma u8_get_u8c_set_ne px i j v : i <> j -> u8_get (u8c_set px i v) j = u8_get px j.
Proof.
  intros Hne. unfold u8_get, u8c_set.
  destruct (Z.ltb_spec j 0); [done |].
  destruct (Z.ltb_spec i 0); [done |].
  apply list_lookup_insert_ne. lia.
Qed.
End ClampedArrays.

Section VisibleFrame.
Variable rd : CdgRenderer.

Lemma visiblePixel_Some y x rgba rgba' :
  visiblePixel rd y x rgba = Some rgba' ->
  exists color,
    visibleColor rd x y = Some color
    /\ rgba' = u8c_set (u8c_set (u8c_set (u8c_set rgba
                 ((y * CDG_VISIBLE_WIDTH + x) * 4) (r color))
                 ((y * CDG_VISIBLE_WIDTH + x) * 4 + 1) (g color))
                 ((y * CDG_VISIBLE_WIDTH + x) * 4 + 2) (b color))
                 ((y * CDG_VISIBLE_WIDTH + x) * 4 + 3) (visibleAlpha rd x y).
Proof.
  unfold visiblePixel, visibleColor, visibleAlpha, sourceIndex. cbv zeta.
  destruct (_ ≫= _) as [color|]; [| done].
  intros [= <-]. by exists color.
Qed.

Lemma visiblePixel_defined y x rgba :
  is_Some (visibleColor rd x y) -> is_Some (visiblePixel rd y x rgba).
Proof.
  unfold visiblePixel, visibleColor, sourceIndex. cbv zeta.
  intros [color ->]. eauto.
Qed.

(** No read raises: the frame is produced. *)
Lemma getVisibleRgbaFrame_total :
  (forall x y, 0 <= x < CDG_VISIBLE_WIDTH -> 0 <= y < CDG_VISIBLE_HEIGHT ->
     is_Some (visibleColor rd x y)) ->
  is_Some (getVisibleRgbaFrame rd).
Proof.
  intros Hread. unfold getVisibleRgbaFrame.
  apply (forZ_preserves (fun acc : option (list Z) => is_Some acc)); [eauto |].
  intros y acc Hy Hacc.
  apply (forZ_preserves (fun acc : option (list Z) => is_Some acc)); [done |].
  intros x acc' Hx [rgba ->]. cbn [mbind option_bind].
  apply visiblePixel_defined. by apply Hread.
Qed.

(** A read that raises leaves no frame. *)
Lemma getVisibleRgbaFrame_raises x y :
  0 <= x < CDG_VISIBLE_WIDTH -> 0 <= y < CDG_VISIBLE_HEIGHT ->
  visibleColor rd x y = None ->
  getVisibleRgbaFrame rd = None.
Proof.
  intros Hx Hy Hnone. unfold getVisibleRgbaFrame.
  refine (forZ_invariant (fun j (acc : option (list Z)) => y < j -> acc = None)
            _ _ _ _ _ _ _ (proj2 Hy)); cbv beta;
    [unfold CDG_VISIBLE_HEIGHT; lia | lia |].
  intros j acc Hj Hacc Hlt.
  assert (Hdone : y < j \/ (y = j /\ x < CDG_VISIBLE_WIDTH)) by lia.
  refine (forZ_invariant
            (fun i (acc' : option (list Z)) => y < j \/ (y = j /\ x < i) -> acc' = None)
            _ _ _ _ _ _ _ Hdone); cbv beta;
    [unfold CDG_VISIBLE_WIDTH; lia | intros [?|[? ?]]; [apply Hacc |]; lia |].
  intros i acc' Hi Hacc' Hpos.
  destruct (decide (y = j /\ x = i)) as [[-> ->]|Hne].
  - destruct acc' as [rgba|]; [| done]. cbn [mbind option_bind].
    destruct (visiblePixel rd j i rgba) as [rgba'|] eqn:Hv; [| done].
    apply visiblePixel_Some in Hv as (color & Hc & _). congruence.
  - rewrite Hacc' by lia. done.
Qed.

Lemma pixelWritten_later x y x' y' rgba rgba' :
  (y * CDG_VISIBLE_WIDTH + x) <> (y' * CDG_VISIBLE_WIDTH + x') ->
  visiblePixel rd y' x' rgba = Some rgba' ->
  pixelWritten rd x y rgba -> pixelWritten rd x y rgba'.
Proof.
  intros Hne Hv (color & Hc & H0 & H1 & H2 & H3).
  apply visiblePixel_Some in Hv as (color' & _ & ->).
  exists color. split; [done |].
  rewrite !u8_get_u8c_set_ne by lia. done.
Qed.

Lemma pixelWritten_now x y rgba rgba' :
  0 <= y * CDG_VISIBLE_WIDTH + x ->
  (y * CDG_VISIBLE_WIDTH + x) * 4 + 3 < Z.of_nat (length rgba) ->
  visiblePixel rd y x rgba = Some rgba' -> pixelWritten rd x y rgba'.
Proof.
  intros Hlo Hhi Hv.
  apply visiblePixel_Some in Hv as (color & Hc & ->).
  exists color. split; [done |].
  rewrite u8_get_u8c_set_eq by (rewrite !u8c_set_length; lia).
  rewrite !(u8_get_u8c_set_ne _ (_ + 3)) by lia.
  rewrite u8_get_u8c_set_eq by (rewrite !u8c_set_length; lia).
  rewrite !(u8_get_u8c_set_ne _ (_ + 2)) by lia.
  rewrite u8_get_u8c_set_eq by (rewrite !u8c_set_length; lia).
  rewrite !(u8_get_u8c_set_ne _ (_ + 1)) by lia.
  rewrite u8_get_u8c_set_eq by lia.
  repeat split. unfold visibleAlpha. by case_decide.
Qed.

Lemma visiblePixel_length y x rgba rgba' :
  visiblePixel rd y x rgba = Some rgba' -> length rgba' = length rgba.
Proof.
  intros Hv. apply visiblePixel_Some in Hv as (color & _ & ->).
  by rewrite !u8c_set_length.
Qed.

(** The frame, when it is produced, holds for every pixel the colour of
    its source cell and the alpha byte of that cell. *)
Lemma getVisibleRgbaFrame_pixel x y rgba :
  0 <= x < CDG_VISIBLE_WIDTH -> 0 <= y < CDG_VISIBLE_HEIGHT ->
  getVisibleRgbaFrame rd = Some rgba ->
  length rgba = frameLength /\ pixelWritten rd x y rgba.
Proof.
  intros Hx Hy. unfold getVisibleRgbaFrame.
  set (Inv := fun (j i : Z) (acc : option (list Z)) =>
    forall rgba, acc = Some rgba ->
      length rgba = frameLength
      /\ (y < j \/ (y = j /\ x < i) -> pixelWritten rd x y rgba)).
  intros Hframe.
  cut (Inv CDG_VISIBLE_HEIGHT 0
         (forZ 0 CDG_VISIBLE_HEIGHT (fun y acc =>
            forZ 0 CDG_VISIBLE_WIDTH (fun x acc => acc ≫= visiblePixel rd y x) acc)
            (Some (u8_new (CDG_VISIBLE_WIDTH * CDG_VISIBLE_HEIGHT * 4))))).
  { intros H. destruct (H rgba Hframe) as [Hlen Hw]. split; [done |].
    apply Hw. lia. }
  clear Hframe rgba.
  refine (forZ_invariant (fun j acc => Inv j 0 acc) _ _ _ _ _ _ _);
    [unfold CDG_VISIBLE_HEIGHT; lia | |].
  - intros rgba [= <-]. split; [apply length_replicate | lia].
  - intros j acc Hj Hacc.
    cut (Inv j CDG_VISIBLE_WIDTH
           (forZ 0 CDG_VISIBLE_WIDTH (fun x acc => acc ≫= visiblePixel rd j x) acc)).
    { intros H rgba Hrgba. destruct (H rgba Hrgba) as [Hlen Hw]. split; [done |].
      intros Hpos. apply Hw. lia. }
    refine (forZ_invariant (fun i acc' => Inv j i acc') _ _ _ _ _ _ _);
      [unfold CDG_VISIBLE_WIDTH; lia | exact Hacc |].
    intros i acc' Hi Hacc' rgba' Hstep.
    destruct acc' as [rgba|]; [| done]. cbn [mbind option_bind] in Hstep.
    destruct (Hacc' rgba eq_refl) as [Hlen Hw].
    split; [by rewrite (visiblePixel_length _ _ _ _ Hstep) |].
    intros Hpos. destruct (decide (y = j /\ x = i)) as [[-> ->]|Hne].
    + apply (pixelWritten_now _ _ rgba); [| | done].
      * unfold CDG_VISIBLE_WIDTH. lia.
      * rewrite Hlen. unfold frameLength, CDG_VISIBLE_WIDTH, CDG_VISIBLE_HEIGHT in *. lia.
    + apply (pixelWritten_later _ _ i j rgba); [| done |].
      * unfold CDG_VISIBLE_WIDTH in *. lia.
      * apply Hw. lia.
Qed.
End VisibleFrame.

(** With the grid in range, the palette full and the offsets in the ranges
    the instruction format documents (0..5 and 0..11), every read of
    [getVisibleRgbaFrame] stays inside the buffer and the frame is
    produced. *)
Lemma getVisibleRgbaFrame_in_bounds (rd : CdgRenderer) :
  gridInRange rd -> paletteFull rd ->
  0 <= hOffset rd <= 5 -> 0 <= vOffset rd <= 11 ->
  is_Some (getVisibleRgbaFrame rd).
Proof.
  intros [Hsz Hall] Hpal Hh Hv. apply getVisibleRgbaFrame_total.
  intros x y Hx Hy. unfold visibleColor, sourceIndex.
  unfold gridSized in Hsz.
  unfold CDG_VISIBLE_WIDTH, CDG_VISIBLE_HEIGHT, CDG_BORDER_X, CDG_BORDER_Y, CDG_WIDTH in *.
  assert (Hlen : Z.of_nat (length (pixels rd)) = 64800).
  { rewrite Hsz, Z2Nat.id; [reflexivity | unfold CDG_HEIGHT; lia]. }
  destruct (u8_get_lt_Some (pixels rd) ((y + 12 + vOffset rd) * 300 + (x + 6 + hOffset rd)))
    as [c Hc]; [lia |].
  rewrite Hc. cbn [mbind option_bind]. apply Hpal.
  unfold u8_get in Hc. destruct (_ <? 0); [done |].
  apply (Forall_lookup_1 _ _ _ _ Hall Hc).
Qed.

(** C2 fails on the code. The decoder turns [scrollPacket] into a scroll
    instruction with offsets 7 and 15; applied to the renderer as
    constructed it stores them, outside 0..5 and 0..11; the read for the
    pixel at column 0 of row 189 of the visible frame then falls outside the
    buffer and [getVisibleRgbaFrame] raises. *)
Theorem scroll_offsets_overrun :
  packets (parseCdgFile scrollPacket)
    = [ {| timeMs := packetTime 0; instruction := Some (scroll false 0 0 0 7 15) |} ]
  /\ let rd := applyInstruction newRenderer (scroll false 0 0 0 7 15) in
     hOffset rd = 7 /\ vOffset rd = 15
     /\ Z.of_nat (length (pixels rd)) <= sourceIndex rd 0 189
     /\ u8_get (pixels rd) (sourceIndex rd 0 189) = None
     /\ getVisibleRgbaFrame rd = None.
Proof.
  split; [vm_compute; reflexivity |]. cbv zeta.
  set (rd := applyInstruction newRenderer (scroll false 0 0 0 7 15)).
  assert (Hpx : pixels rd = u8_new (CDG_WIDTH * CDG_HEIGHT)) by reflexivity.
  assert (Hlen : Z.of_nat (length (pixels rd)) = 64800).
  { rewrite Hpx. unfold u8_new. rewrite length_replicate. reflexivity. }
  assert (Hsrc : sourceIndex rd 0 189 = 64813) by reflexivity.
  assert (Hget : u8_get (pixels rd) (sourceIndex rd 0 189) = None).
  { rewrite Hsrc. unfold u8_get. cbn [Z.ltb Z.compare].
    apply lookup_ge_None_2. lia. }
  split; [reflexivity |]. split; [reflexivity |].
  split; [rewrite Hlen, Hsrc; lia |]. split; [exact Hget |].
  clearbody rd.
  - apply (getVisibleRgbaFrame_raises rd 0 189).
    + unfold CDG_VISIBLE_WIDTH. lia.
    + unfold CDG_VISIBLE_HEIGHT. lia.
    + unfold visibleColor. by rewrite Hget.
Qed.

(** * The playback clock *)

#[local] Opaque getVisibleRgbaFrame.

Section Unchanged.
Context {X A B : Type} (proj : CdgPlayer -> X).

Lemma unchanged_ret (a : A) : unchanged proj (mret a).
Proof. by intros p. Qed.

Lemma unchanged_this : unchanged proj this.
Proof. by intros p. Qed.

Lemma unchanged_emit e : unchanged proj (emit e).
Proof. by intros p. Qed.

Lemma unchanged_throw : unchanged proj (@throw A).
Proof. by intros p. Qed.

Lemma unchanged_modify f : (forall p, proj (f p) = proj p) -> unchanged proj (modify f).
Proof. intros Hf p. apply Hf. Qed.

Lemma unchanged_bind (m : M A) (f : A -> M B) :
  unchanged proj m -> (forall a, unchanged proj (f a)) -> unchanged proj (m ≫= f).
Proof.
  intros Hm Hf p. unfold mbind, M_bind. cbv zeta.
  destruct (value (m p)) as [a|]; cbn [after]; [| apply Hm].
  rewrite Hf. apply Hm.
Qed.
End Unchanged.

Lemma replayFromCursor_data toMs p : cdgData (replayFromCursor toMs p) = cdgData p.
Proof.
  unfold replayFromCursor. destruct (cdgData p) eqn:Hd; [| done].
  destruct (replayWhile _ _ _ _). cbn. done.
Qed.

Lemma replayFromCursor_state toMs p : state (replayFromCursor toMs p) = state p.
Proof.
  unfold replayFromCursor. destruct (cdgData p) eqn:Hd; [| done].
  by destruct (replayWhile _ _ _ _).
Qed.

Create HintDb unchanged discriminated.

Ltac unchanged_step :=
  lazymatch goal with
  | |- unchanged _ (mret _) => apply unchanged_ret
  | |- unchanged _ this => apply unchanged_this
  | |- unchanged _ (emit _) => apply unchanged_emit
  | |- unchanged _ throw => apply unchanged_throw
  | |- unchanged _ (mbind _ _) => apply unchanged_bind; [| intros ?]
  | |- unchanged _ (modify _) =>
      apply unchanged_modify; intros ?;
      first [ apply replayFromCursor_data
            | by rewrite ?replayFromCursor_state
            | by repeat case_match ]
  | |- unchanged _ (if ?c then _ else _) => destruct c
  | |- unchanged _ (match ?x with _ => _ end) => destruct x
  | |- unchanged _ _ => solve [auto 1 with unchanged nocore]
  end.

Ltac unchanged := cbv beta; repeat unchanged_step.

Lemma unchanged_getState {X} (proj : CdgPlayer -> X) : unchanged proj getState.
Proof. unfold getState. unchanged. Qed.
#[export] Hint Resolve unchanged_getState : unchanged.

Lemma unchanged_emitFrame {X} (proj : CdgPlayer -> X) : unchanged proj emitFrame.
Proof. unfold emitFrame, getCurrentFrame. unchanged. Qed.
#[export] Hint Resolve unchanged_emitFrame : unchanged.

Lemma keeps_stop : unchanged cdgData stop.
Proof. unfold stop, stopAnimationLoop. unchanged. Qed.
#[export] Hint Resolve keeps_stop : unchanged.

Lemma keeps_applyPacketsUpTo t : unchanged cdgData (applyPacketsUpTo t).
Proof. unfold applyPacketsUpTo. unchanged. Qed.
#[export] Hint Resolve keeps_applyPacketsUpTo : unchanged.

Lemma keeps_update now : unchanged cdgData (update now).
Proof. unfold update, applyPacketsFromTo. unchanged. Qed.
#[export] Hint Resolve keeps_update : unchanged.

Lemma keeps_seek t now : unchanged cdgData (seek t now).
Proof. unfold seek. unchanged. Qed.
#[export] Hint Resolve keeps_seek : unchanged.

Lemma keeps_play now : unchanged cdgData (play now).
Proof. unfold play, startAnimationLoop, stopAnimationLoop. unchanged. Qed.

Lemma keeps_pause now : unchanged cdgData (pause now).
Proof. unfold pause, stopAnimationLoop. unchanged. Qed.

Lemma keeps_sync t now : unchanged cdgData (syncToAudioTime t now).
Proof. unfold syncToAudioTime, applyPacketsFromTo. unchanged. Qed.

Lemma keeps_tick now : unchanged cdgData (tick now).
Proof. unfold tick. unchanged. Qed.

Section Binds.
Context {A B : Type} (m : M A) (f : A -> M B) (p : CdgPlayer).

Lemma bind_returns (a : A) :
  value (m p) = Some a ->
  (m ≫= f) p
  = mkRun (value (f a (after (m p)))) (after (f a (after (m p))))
      (events (m p) ++ events (f a (after (m p)))).
Proof. intros Hv. unfold mbind, M_bind. cbv zeta. by rewrite Hv. Qed.

Lemma bind_raises :
  value (m p) = None -> (m ≫= f) p = mkRun None (after (m p)) (events (m p)).
Proof. intros Hv. unfold mbind, M_bind. cbv zeta. by rewrite Hv. Qed.

Lemma after_bind (a : A) :
  value (m p) = Some a -> after ((m ≫= f) p) = after (f a (after (m p))).
Proof. intros Hv. by rewrite (bind_returns a Hv). Qed.

Lemma value_bind (a : A) :
  value (m p) = Some a -> value ((m ≫= f) p) = value (f a (after (m p))).
Proof. intros Hv. by rewrite (bind_returns a Hv). Qed.

Lemma events_bind (a : A) :
  value (m p) = Some a ->
  events ((m ≫= f) p) = events (m p) ++ events (f a (after (m p))).
Proof. intros Hv. by rewrite (bind_returns a Hv). Qed.
End Binds.

Lemma stop_returns (p : CdgPlayer) : value (stop p) = Some tt.
Proof. reflexivity. Qed.

Lemma modify_returns f (p : CdgPlayer) : value (modify f p) = Some tt.
Proof. reflexivity. Qed.

Lemma after_modify f (p : CdgPlayer) : after (modify f p) = f p.
Proof. reflexivity. Qed.

Lemma loadSong_loaded buffer audio title' singer id (p : CdgPlayer) :
  cdgData (after (loadSong (Some buffer) audio title' singer id p))
  = Some (parseCdgFile buffer).
Proof.
  unfold loadSong. rewrite (after_bind _ _ _ tt) by apply stop_returns.
  rewrite (after_bind _ _ _ tt) by apply modify_returns.
  match goal with
  | |- cdgData (after (?k ?q)) = _ =>
      assert (Hk : unchanged cdgData k) by unchanged; rewrite Hk
  end.
  rewrite after_modify. reflexivity.
Qed.

(** Once a file is loaded, the player holds a decoded file for good. *)
Lemma loaded_for_good (c : Call) (p : CdgPlayer) :
  is_Some (cdgData p) -> is_Some (cdgData (after (perform c p))).
Proof.
  intros Hp. destruct c; cbn [perform];
    try (rewrite ?keeps_play, ?keeps_pause, ?keeps_stop, ?keeps_seek, ?keeps_sync,
           ?keeps_tick; exact Hp).
  destruct file as [buffer|].
  - by rewrite loadSong_loaded.
  - unfold loadSong. rewrite (after_bind _ _ _ tt) by apply stop_returns.
    unfold throw. cbn [after]. by rewrite keeps_stop.
Qed.

Lemma bind_this {B : Type} (f : CdgPlayer -> M B) (p : CdgPlayer) :
  (this ≫= f) p = f p p.
Proof.
  unfold mbind, M_bind, this. cbn [value after events app].
  by destruct (f p p).
Qed.

(** ** Calls that return at their guard *)

Lemma sync_guard (p : CdgPlayer) (audioTimeMs : Q) (now : Z) :
  playing (state p) = false \/ paused (state p) = true ->
  syncToAudioTime audioTimeMs now p = mkRun (Some tt) p [].
Proof.
  intros Hidle. unfold syncToAudioTime. rewrite bind_this.
  destruct Hidle as [-> | ->]; destruct (isNull (cdgData p)); cbn [negb orb];
    rewrite ?orb_true_r; reflexivity.
Qed.

(** C10. While the clock is not playing, or is playing but paused,
    [syncToAudioTime] returns at once: the player (cursor, renderer, times
    and flags) is the one it was called on and nothing is emitted. *)
Theorem sync_ignored_unless_playing (p : CdgPlayer) (audioTimeMs : Q) (now : Z) :
  playing (state p) = false \/ paused (state p) = true ->
  syncToAudioTime audioTimeMs now p = mkRun (Some tt) p [].
Proof. apply sync_guard. Qed.

Lemma sync_ignored_unless_playing_witness :
  syncToAudioTime 500 0 newPlayer = mkRun (Some tt) newPlayer []
  /\ syncToAudioTime 500 0 pausedPlayer = mkRun (Some tt) pausedPlayer [].
Proof.
  split.
  - apply (sync_ignored_unless_playing newPlayer 500 0). left. reflexivity.
  - apply (sync_ignored_unless_playing pausedPlayer 500 0). right. reflexivity.
Defined.

(** ** No song loaded *)

Section Unloaded.
Variable p : CdgPlayer.
Hypothesis Hnone : cdgData p = None.
Hypothesis Hidle : idle p.

Lemma play_unloaded now : play now p = mkRun (Some tt) p [].
Proof. unfold play. rewrite bind_this, Hnone. reflexivity. Qed.

Lemma pause_unloaded now : pause now p = mkRun (Some tt) p [].
Proof.
  unfold pause. rewrite bind_this. destruct Hidle as (-> & _). reflexivity.
Qed.

Lemma seek_unloaded t now : seek t now p = mkRun (Some tt) p [].
Proof. unfold seek. rewrite bind_this, Hnone. reflexivity. Qed.

Lemma sync_unloaded t now : syncToAudioTime t now p = mkRun (Some tt) p [].
Proof. apply sync_guard. left. apply Hidle. Qed.

Lemma tick_unloaded now : tick now p = mkRun (Some tt) p [].
Proof.
  unfold tick. rewrite bind_this. destruct Hidle as (_ & _ & _ & ->). reflexivity.
Qed.

Lemma stop_unloaded : stop p = mkRun (Some tt) p [EvStop (state p)].
Proof.
  destruct Hidle as (Hpl & Hpa & Hct & Haf).
  destruct p as [d rd [pl pa ct du ti si so ft au] af lu pi st pt].
  cbn in Hnone, Hpl, Hpa, Hct, Haf. subst. reflexivity.
Qed.

Lemma loadSong_fails_unloaded audio title' singer id :
  loadSong None audio title' singer id p = mkRun None p [EvStop (state p)].
Proof.
  unfold loadSong. rewrite (bind_returns _ _ _ tt) by apply stop_returns.
  rewrite !stop_unloaded. reflexivity.
Qed.
End Unloaded.

Lemma idle_new : idle newPlayer.
Proof. repeat split. Qed.

(** A player that holds no decoded file has never left its first state. *)
Lemma unloaded_idle (p : CdgPlayer) : reachable p -> cdgData p = None -> idle p.
Proof.
  induction 1 as [| p c Hp IH]; intros Hnone; [apply idle_new |].
  assert (Hp0 : cdgData p = None).
  { destruct (cdgData p) eqn:Hd; [| done].
    destruct (loaded_for_good c p) as [d Hd']; [by rewrite Hd | congruence]. }
  specialize (IH Hp0).
  destruct c; cbn [perform] in *.
  - destruct file as [buffer|].
    + by rewrite loadSong_loaded in Hnone.
    + by rewrite loadSong_fails_unloaded.
  - by rewrite play_unloaded.
  - by rewrite pause_unloaded.
  - by rewrite stop_unloaded.
  - by rewrite seek_unloaded.
  - by rewrite sync_unloaded.
  - by rewrite tick_unloaded.
Qed.

(** C6, as the code has it. With no song loaded, [play], [pause], [seek]
    and [syncToAudioTime] return without raising, leave the player as it
    was and emit nothing; [stop] returns without raising and leaves the
    player as it was, and emits one [stop] event. *)
Theorem unloaded_calls (p : CdgPlayer) :
  reachable p -> cdgData p = None ->
  (forall now, play now p = mkRun (Some tt) p [])
  /\ (forall now, pause now p = mkRun (Some tt) p [])
  /\ (forall t now, seek t now p = mkRun (Some tt) p [])
  /\ (forall t now, syncToAudioTime t now p = mkRun (Some tt) p [])
  /\ stop p = mkRun (Some tt) p [EvStop (state p)].
Proof.
  intros Hreach Hnone. pose proof (unloaded_idle p Hreach Hnone) as Hidle.
  repeat split; intros.
  - by apply play_unloaded.
  - by apply pause_unloaded.
  - by apply seek_unloaded.
  - by apply sync_unloaded.
  - by apply stop_unloaded.
Qed.

Lemma unloaded_calls_witness :
  (forall now, play now newPlayer = mkRun (Some tt) newPlayer [])
  /\ (forall now, pause now newPlayer = mkRun (Some tt) newPlayer [])
  /\ (forall t now, seek t now newPlayer = mkRun (Some tt) newPlayer [])
  /\ (forall t now, syncToAudioTime t now newPlayer = mkRun (Some tt) newPlayer [])
  /\ stop newPlayer = mkRun (Some tt) newPlayer [EvStop (state newPlayer)].
Proof.
  apply (unloaded_calls newPlayer).
  - apply reachable_new.
  - reflexivity.
Defined.

(** C6 as stated fails at [stop]: on the player as constructed, with no
    song loaded, [stop] emits an event. *)
Lemma stop_unloaded_emits :
  reachable newPlayer /\ cdgData newPlayer = None
  /\ events (stop newPlayer) <> [].
Proof.
  split; [apply reachable_new |]. split; [reflexivity |].
  rewrite stop_unloaded by (reflexivity || apply idle_new). discriminate.
Qed.

(** * Replay *)

Section PacketTimes.

Lemma parsePacket_time buffer i pk :
  parsePacket buffer i = Some pk -> timeMs pk = packetTime i.
Proof.
  unfold parsePacket. cbv zeta. intros H.
  destruct (negb _); [done |].
  destruct (parseInstruction _ _); [| done].
  by injection H as <-.
Qed.

Lemma parsePackets_ascending buffer (n s : nat) :
  ascending (omap (parsePacket buffer) (seq s n))
  /\ Forall (fun pk => (packetTime s <= timeMs pk)%Q)
       (omap (parsePacket buffer) (seq s n)).
Proof.
  revert s. induction n as [|n IH]; intros s; cbn [seq omap list_omap].
  - split; constructor.
  - destruct (IH (Datatypes.S s)) as [Hasc Hall].
    assert (Hall' : Forall (fun pk => (packetTime s <= timeMs pk)%Q)
                      (omap (parsePacket buffer) (seq (Datatypes.S s) n))).
    { eapply Forall_impl; [exact Hall |]. cbn. intros pk Hpk.
      eapply Qle_trans; [| exact Hpk]. apply packetTime_mono. lia. }
    destruct (parsePacket buffer s) as [pk|] eqn:Hpk; [| done].
    apply parsePacket_time in Hpk.
    split.
    + constructor; [done |]. by rewrite Hpk.
    + constructor; [rewrite Hpk; apply Qle_refl | done].
Qed.

(** The decoder lists the packets in the order of their timestamps. *)
Lemma parseCdgFile_ascending buffer : ascending (packets (parseCdgFile buffer)).
Proof. unfold parseCdgFile. cbn [packets]. apply parsePackets_ascending. Qed.

End PacketTimes.

Section Replay.
Implicit Types (pkts : list CdgPacket) (rd : CdgRenderer) (t : Q).

Lemma upTo_equal t t' pkts : (t == t')%Q -> upTo t pkts = upTo t' pkts.
Proof.
  intros Heq. unfold upTo. apply filter_ext. intros pk.
  destruct (Qle_bool (timeMs pk) t) eqn:H1, (Qle_bool (timeMs pk) t') eqn:H2;
    try done.
  - apply Qle_bool_iff in H1. rewrite Heq in H1. apply Qle_bool_iff in H1. congruence.
  - apply Qle_bool_iff in H2. rewrite <- Heq in H2. apply Qle_bool_iff in H2. congruence.
Qed.

Lemma upTo_none t pk pkts :
  ascending (pk :: pkts) -> Qle_bool (timeMs pk) t = false -> upTo t pkts = [].
Proof.
  intros Hasc Hpk. apply StronglySorted_inv in Hasc as [_ Hall].
  unfold upTo. induction pkts as [|pk' pkts IH]; [done |].
  apply Forall_cons_1 in Hall as [Hle Hall]. cbn [List.filter].
  destruct (Qle_bool (timeMs pk') t) eqn:Hpk'; [| by apply IH].
  apply Qle_bool_iff in Hpk'.
  assert (Hcontra : Qle_bool (timeMs pk) t = true)
    by (apply Qle_bool_iff; by eapply Qle_trans).
  congruence.
Qed.

Lemma upTo_all t pkts :
  Forall (fun pk => (timeMs pk <= t)%Q) pkts -> upTo t pkts = pkts.
Proof.
  unfold upTo. induction 1 as [|pk pkts Hpk _ IH]; [done |]. cbn [List.filter].
  apply Qle_bool_iff in Hpk. by rewrite Hpk, IH.
Qed.

(** On packets in the order of their timestamps, the loop that stops at
    the first later packet applies exactly the packets with a timestamp
    of at most [t]. *)
Lemma replayWhile_ascending t pkts rd idx :
  ascending pkts ->
  replayWhile t pkts rd idx
  = (fold_left applyPacket (upTo t pkts) rd, (idx + length (upTo t pkts))%nat).
Proof.
  revert rd idx. induction pkts as [|pk pkts IH]; intros rd idx Hasc.
  - cbn. by rewrite Nat.add_0_r.
  - cbn [replayWhile]. unfold upTo. cbn [List.filter]. fold (upTo t pkts).
    destruct (Qle_bool (timeMs pk) t) eqn:Hpk.
    + rewrite IH by (by apply StronglySorted_inv in Hasc as [? _]).
      cbn [fold_left length]. f_equal. lia.
    + rewrite (upTo_none t pk pkts Hasc Hpk). cbn. by rewrite Nat.add_0_r.
Qed.

Lemma ascending_drop n pkts : ascending pkts -> ascending (drop n pkts).
Proof.
  intros Hasc. revert n. induction Hasc as [|pk pkts Hasc IH Hall]; intros [|n];
    cbn [drop]; try constructor; auto.
Qed.

(** The packets up to [t] are a prefix of an ascending list. *)
Lemma upTo_prefix t pkts :
  ascending pkts ->
  take (length (upTo t pkts)) pkts = upTo t pkts
  /\ upTo t (drop (length (upTo t pkts)) pkts) = [].
Proof.
  induction pkts as [|pk pkts IH]; intros Hasc; [done |].
  unfold upTo. cbn [List.filter]. fold (upTo t pkts).
  destruct (Qle_bool (timeMs pk) t) eqn:Hpk.
  - apply StronglySorted_inv in Hasc as [Hasc _].
    destruct (IH Hasc) as [Htake Hdrop]. cbn [length take drop].
    by rewrite Htake.
  - rewrite (upTo_none t pk pkts Hasc Hpk). cbn [length take drop].
    split; [done |]. unfold upTo. cbn [List.filter]. rewrite Hpk.
    apply (upTo_none t pk pkts Hasc Hpk).
Qed.
End Replay.

(** * Seek *)

Section Clamp.
Lemma Qle_bool_false (x y : Q) : Qle_bool x y = false -> (y < x)%Q.
Proof.
  intros H. apply Qnot_le_lt. intros Hle. apply Qle_bool_iff in Hle. congruence.
Qed.

Lemma mathMin_Qmin (a c : Q) : (mathMin a c == Qmin a c)%Q.
Proof.
  unfold mathMin. destruct (Qle_bool a c) eqn:H.
  - apply Qle_bool_iff in H. symmetry. by apply Q.min_l.
  - apply Qle_bool_false in H. symmetry. apply Q.min_r. by apply Qlt_le_weak.
Qed.

Lemma mathMax_Qmax (a c : Q) : (mathMax a c == Qmax a c)%Q.
Proof.
  unfold mathMax. destruct (Qle_bool a c) eqn:H.
  - apply Qle_bool_iff in H. symmetry. by apply Q.max_r.
  - apply Qle_bool_false in H. symmetry. apply Q.max_l. by apply Qlt_le_weak.
Qed.

(** The clamp of [seek] is the clamp to the interval from 0 to [d]. *)
Lemma seek_clamp (t d : Q) : (mathMax 0 (mathMin t d) == clamp t d)%Q.
Proof.
  unfold clamp. rewrite mathMax_Qmax. apply Q.max_compat; [reflexivity |].
  apply mathMin_Qmin.
Qed.
End Clamp.

Lemma applyPacketsUpTo_run (q : CdgPlayer) (d : ParsedCdg) (t : Q) :
  cdgData q = Some d ->
  applyPacketsUpTo t q
  = mkRun (Some tt)
      (set_state (set_currentTime t (state (replayFromCursor t q)))
         (replayFromCursor t q)) [].
Proof. intros Hd. unfold applyPacketsUpTo. rewrite bind_this, Hd. reflexivity. Qed.

Lemma replayFromCursor_renderer (q : CdgPlayer) (d : ParsedCdg) (t : Q) :
  cdgData q = Some d ->
  renderer (replayFromCursor t q)
    = fst (replayWhile t (drop (packetIndex q) (packets d)) (renderer q) (packetIndex q))
  /\ packetIndex (replayFromCursor t q)
    = snd (replayWhile t (drop (packetIndex q) (packets d)) (renderer q) (packetIndex q)).
Proof.
  intros Hd. unfold replayFromCursor. rewrite Hd.
  by destruct (replayWhile _ _ _ _).
Qed.

(** The renderer [seek] leaves: the reset renderer, with the loop run from
    the first packet. *)
Lemma seek_renderer (p : CdgPlayer) (d : ParsedCdg) (t : Q) (now : Z) :
  cdgData p = Some d ->
  renderer (after (seek t now p))
  = fst (replayWhile (mathMax 0 (mathMin t (duration (state p)))) (packets d)
           (reset (renderer p)) 0).
Proof.
  intros Hd. unfold seek. rewrite bind_this, Hd.
  rewrite (after_bind _ _ _ tt) by apply modify_returns.
  rewrite after_modify.
  set (q := set_packetIndex 0 (set_renderer (reset (renderer p)) p)).
  assert (Hq : cdgData q = Some d) by exact Hd.
  rewrite (after_bind _ _ _ tt) by (by rewrite (applyPacketsUpTo_run q d)).
  match goal with
  | |- renderer (after (?k ?q')) = _ =>
      assert (Hk : unchanged renderer k) by unchanged; rewrite Hk
  end.
  rewrite (applyPacketsUpTo_run q d) by done. cbn [after].
  change (renderer (set_state ?s ?r)) with (renderer r).
  destruct (replayFromCursor_renderer q d
              (mathMax 0 (mathMin t (duration (state p)))) Hq) as [-> _].
  reflexivity.
Qed.

(** On a decoded file, the renderer [seek] leaves is the replay from
    scratch up to the clamped time. *)
Lemma seek_renderer_replay (buffer : list Z) (p : CdgPlayer) (t : Q) (now : Z) :
  cdgData p = Some (parseCdgFile buffer) ->
  renderer (after (seek t now p))
  = replayFromScratch (parseCdgFile buffer) (clamp t (duration (state p))) (renderer p).
Proof.
  intros Hd. rewrite (seek_renderer p _ t now Hd).
  rewrite replayWhile_ascending by apply parseCdgFile_ascending.
  cbn [fst]. unfold replayFromScratch.
  rewrite (upTo_equal _ _ _ (seek_clamp t (duration (state p)))).
  reflexivity.
Qed.

(** * Incremental sync *)

Section GridSize.
Implicit Types (px : list Z) (rd : CdgRenderer).

Lemma drawBorder_length color px : length (drawBorder color px) = length px.
Proof.
  unfold drawBorder.
  repeat (apply (forZ_preserves (fun t => length t = length px));
          [| intros; apply (forZ_preserves (fun t => length t = length px)); [done |];
             intros; by rewrite u8_set_length]).
  done.
Qed.

Lemma drawTile_length xor c0 c1 row column tp px :
  length (drawTile xor c0 c1 row column tp px) = length px.
Proof.
  unfold drawTile. destruct (_ || _); [done |].
  apply (forZ_preserves (fun t => length t = length px)); [done |]. intros j t _ Ht.
  apply (forZ_preserves (fun t => length t = length px)); [done |]. intros i u _ Hu.
  destruct xor; by rewrite u8_set_length.
Qed.

Lemma scrollDisplay_length copy color hs vs px :
  length (scrollDisplay copy color hs vs px) = Z.to_nat (CDG_WIDTH * CDG_HEIGHT).
Proof.
  unfold scrollDisplay.
  apply (forZ_preserves (fun t => length t = Z.to_nat (CDG_WIDTH * CDG_HEIGHT)));
    [apply length_replicate |]. intros j t _ Ht.
  apply (forZ_preserves (fun t => length t = Z.to_nat (CDG_WIDTH * CDG_HEIGHT)));
    [done |]. intros i u _ Hu.
  destruct copy; [by rewrite u8_set_length |].
  destruct (_ || _); by rewrite u8_set_length.
Qed.

Lemma applyInstruction_gridSized rd inst :
  gridSized rd -> gridSized (applyInstruction rd inst).
Proof.
  unfold gridSized. intros Hsz.
  destruct inst as [color repeat | color | xor c0 c1 row column tp
                   | copy color hs vs ho vo | color | offset colors];
    cbn [applyInstruction pixels].
  - destruct (repeat =? 0); [| exact Hsz]. cbn [pixels]. unfold u8_fill.
    rewrite length_replicate. exact Hsz.
  - rewrite drawBorder_length. exact Hsz.
  - rewrite drawTile_length. exact Hsz.
  - destruct (_ || _); [| exact Hsz]. apply scrollDisplay_length.
  - exact Hsz.
  - exact Hsz.
Qed.

Lemma applyPacket_gridSized rd pk : gridSized rd -> gridSized (applyPacket rd pk).
Proof.
  unfold applyPacket. destruct (instruction pk); [| done].
  apply applyInstruction_gridSized.
Qed.

Lemma replay_gridSized pkts rd :
  gridSized rd -> gridSized (fold_left applyPacket pkts rd).
Proof.
  revert rd. induction pkts as [|pk pkts IH]; intros rd Hrd; [done |].
  cbn [fold_left]. by apply IH, applyPacket_gridSized.
Qed.

(** Resetting a renderer of the right size gives the renderer as
    constructed. *)
Lemma reset_gridSized rd : gridSized rd -> reset rd = newRenderer.
Proof.
  unfold gridSized, reset, newRenderer, u8_fill, u8_new. intros ->. reflexivity.
Qed.

Lemma replayFromScratch_gridSized d t rd :
  gridSized rd -> gridSized (replayFromScratch d t rd).
Proof.
  intros Hrd. unfold replayFromScratch. apply (replay_gridSized _ (reset rd)).
  rewrite reset_gridSized by done. apply gridSized_new.
Qed.

Lemma replayFromScratch_base d t t' rd :
  gridSized rd -> (t == t')%Q ->
  replayFromScratch d t rd = replayFromScratch d t' newRenderer.
Proof.
  intros Hrd Ht. unfold replayFromScratch.
  rewrite !reset_gridSized by (done || apply gridSized_new).
  pose proof (upTo_equal t t' (packets d) Ht) as Heq. unfold upTo in Heq.
  by rewrite Heq.
Qed.
End GridSize.

Section SyncNear.
Variables (d : ParsedCdg) (p : CdgPlayer) (t : Q) (now : Z).
Hypothesis Hd : cdgData p = Some d.
Hypothesis Hplaying : playing (state p) = true.
Hypothesis Hpaused : paused (state p) = false.
Hypothesis Hnear : (currentTime (state p) - 1000 <= t)%Q.
Hypothesis Hbefore : (t < duration (state p))%Q.

(** A call that is not more than a second behind the clock and not at
    the end of the song sets the clock; it replays from the cursor when
    it is ahead of the clock, and replays nothing when it is not. *)
Lemma sync_forward_after :
  after (syncToAudioTime t now p)
  = let p1 := if Qle_bool t (currentTime (state p)) then p
              else replayFromCursor t p in
    set_state (set_currentTime t (state p1)) p1.
Proof.
  unfold syncToAudioTime. rewrite bind_this, Hd, Hplaying, Hpaused.
  cbn [isNull negb orb].
  assert (Hend : forall q, duration (state q) = duration (state p) ->
            Qle_bool (duration (state q)) t = false).
  { intros q ->. destruct (Qle_bool (duration (state p)) t) eqn:H; [| done].
    apply Qle_bool_iff in H. by apply Qlt_not_le in Hbefore. }
  destruct (Qle_bool t (currentTime (state p))) eqn:Hle; cbn [negb].
  - apply Qle_bool_iff in Hnear. rewrite Hnear. cbn [negb].
    unfold mbind, M_bind, modify, this, mret, M_ret. cbn [value after events].
    rewrite (Hend (set_state _ p)) by reflexivity. reflexivity.
  - unfold mbind, M_bind, applyPacketsFromTo, modify, this, mret, M_ret.
    cbn [value after events].
    rewrite (Hend (set_state _ (replayFromCursor t p))).
    + reflexivity.
    + cbn [state set_state set_currentTime duration].
      by rewrite replayFromCursor_state.
Qed.

(** The same, read component by component. *)
Lemma sync_near_fields :
  let p' := after (syncToAudioTime t now p) in
  cdgData p' = Some d /\ playing (state p') = true /\ paused (state p') = false
  /\ duration (state p') = duration (state p) /\ currentTime (state p') = t
  /\ (Qle_bool t (currentTime (state p)) = true ->
      renderer p' = renderer p /\ packetIndex p' = packetIndex p)
  /\ (Qle_bool t (currentTime (state p)) = false ->
      renderer p' = renderer (replayFromCursor t p)
      /\ packetIndex p' = packetIndex (replayFromCursor t p)).
Proof.
  cbv zeta. rewrite sync_forward_after. cbv zeta.
  destruct (Qle_bool t (currentTime (state p))).
  - cbn [cdgData state renderer packetIndex set_state set_currentTime playing paused
           duration currentTime].
    repeat split; done.
  - cbn [cdgData state renderer packetIndex set_state set_currentTime playing paused
           duration currentTime].
    rewrite replayFromCursor_data, replayFromCursor_state.
    repeat split; done.
Qed.
End SyncNear.

Lemma clamp_inside (t dur : Q) : (0 <= t)%Q -> (t < dur)%Q -> (clamp t dur == t)%Q.
Proof.
  intros H0 Hd. unfold clamp.
  assert (Hmin : (Qmin t dur == t)%Q) by (apply Q.min_l; by apply Qlt_le_weak).
  rewrite Q.max_r; [done |]. by rewrite Hmin.
Qed.

(** * Starting the clock *)

Lemma emitFrame_after (p : CdgPlayer) : after (emitFrame p) = p.
Proof. exact (unchanged_emitFrame (fun p => p) p). Qed.

(** What follows a computation cannot undo what it leaves in a component
    the rest does not touch. *)
Lemma after_bind_tail {X A B : Type} (proj : CdgPlayer -> X) (m : M A) (f : A -> M B)
    (p : CdgPlayer) :
  (forall a, unchanged proj (f a)) ->
  proj (after ((m ≫= f) p)) = proj (after (m p)).
Proof.
  intros Hf. unfold mbind, M_bind. cbv zeta.
  destruct (value (m p)) as [a|]; cbn [after]; [apply Hf | done].
Qed.

Section Update.
Variables (q : CdgPlayer) (now : Z).
Hypothesis Hplaying : playing (state q) = true.
Hypothesis Hpaused : paused (state q) = false.
Hypothesis Hrecent : now - lastUpdateTime q <= 100.
Hypothesis Hbefore : (inject_Z now - startTime q < duration (state q))%Q.

(** A turn of the free-running loop before the end of the song: the
    packets up to the elapsed time are replayed and the clock is set;
    the timer is set again unless the frame could not be produced. *)
Lemma update_after :
  exists timer,
    after (update now q)
    = set_animationFrame timer
        (set_state (set_currentTime (inject_Z now - startTime q) (state q))
           (replayFromCursor (inject_Z now - startTime q) q)).
Proof.
  unfold update. rewrite bind_this, Hplaying, Hpaused. cbn [negb orb].
  unfold applyPacketsFromTo.
  rewrite (after_bind _ _ _ tt) by apply modify_returns. rewrite after_modify.
  rewrite (after_bind _ _ _ tt) by apply modify_returns. rewrite after_modify.
  rewrite replayFromCursor_state.
  set (ct := (inject_Z now - startTime q)%Q) in *.
  set (q3 := set_state (set_currentTime ct (state q)) (replayFromCursor ct q)).
  destruct (value (emitFrame q3)) as [[]|] eqn:Hframe.
  - rewrite (after_bind _ _ _ tt Hframe), emitFrame_after.
    assert (Hlast : lastUpdateTime q3 = lastUpdateTime q).
    { subst q3. cbn [lastUpdateTime set_state]. unfold replayFromCursor.
      destruct (cdgData q); [| done]. by destruct (replayWhile _ _ _ _). }
    assert (Hnoupd : (this ≫= fun p : CdgPlayer =>
               if now - lastUpdateTime p >? 100
               then st ← getState; emit (EvUpdate st);; modify (set_lastUpdateTime now)
               else mret tt) q3 = mkRun (Some tt) q3 []).
    { rewrite bind_this, Hlast. destruct (Z.gtb_spec (now - lastUpdateTime q) 100); [lia |].
      reflexivity. }
    rewrite (after_bind _ _ _ tt) by (by rewrite Hnoupd).
    rewrite Hnoupd. cbn [after]. rewrite bind_this.
    assert (Hend : Qle_bool (duration (state q3)) ct = false).
    { subst q3. cbn [state set_state duration set_currentTime].
      destruct (Qle_bool (duration (state q)) ct) eqn:H; [| done].
      apply Qle_bool_iff in H. by apply Qlt_not_le in Hbefore. }
    rewrite Hend. rewrite after_modify. by exists true.
  - rewrite bind_raises by done. rewrite emitFrame_after.
    exists (animationFrame q3). by destruct q3.
Qed.
End Update.

Section Play.
Variables (p : CdgPlayer) (d : ParsedCdg) (now : Z).
Hypothesis Hd : cdgData p = Some d.
Hypothesis Hplaying : playing (state p) = false.
Hypothesis Hpaused : paused (state p) = false.
Hypothesis Hduration : (0 < duration (state p))%Q.

(** [play] on a loaded, stopped player whose song has a positive
    duration: the flags are set, the first turn of the loop runs at
    elapsed time [now - now], and the song does not end there. *)
Lemma play_fresh :
  playing (state (after (play now p))) = true
  /\ paused (state (after (play now p))) = false
  /\ duration (state (after (play now p))) = duration (state p).
Proof.
  unfold play. rewrite bind_this, Hd, Hplaying, Hpaused. cbn [andb negb].
  assert (Hstate :
            state (after ((modify (set_startTime (inject_Z now)) ≫= fun _ =>
              modify (fun p => set_lastUpdateTime now
                 (set_state (set_paused false (set_playing true (state p))) p)) ≫= fun _ =>
              startAnimationLoop now ≫= fun _ =>
              st ← getState; emit (EvPlay st)) p))
            = state (after (update now
                (set_animationFrame false
                  (set_lastUpdateTime now
                    (set_state (set_paused false (set_playing true (state p)))
                      (set_startTime (inject_Z now) p))))))).
  { rewrite (after_bind _ _ _ tt) by apply modify_returns. rewrite after_modify.
    rewrite (after_bind _ _ _ tt) by apply modify_returns. rewrite after_modify.
    rewrite (after_bind_tail state) by (intros; unchanged).
    unfold startAnimationLoop, stopAnimationLoop.
    rewrite (after_bind _ _ _ tt) by apply modify_returns. by rewrite after_modify. }
  rewrite !Hstate.
  set (q := set_animationFrame false _).
  destruct (update_after q now) as [timer ->].
  - reflexivity.
  - reflexivity.
  - subst q. cbn [lastUpdateTime set_animationFrame set_lastUpdateTime]. lia.
  - subst q. cbn [startTime state duration set_animationFrame set_lastUpdateTime
                    set_state set_startTime set_paused set_playing].
    assert (H0 : (inject_Z now - inject_Z now == 0)%Q) by ring.
    by rewrite H0.
  - subst q. by repeat split.
Qed.
End Play.

Section Load.
Variables (buffer : list Z) (audio title' singer : string) (id : Z) (p : CdgPlayer).

Lemma loadSong_state :
  state (after (loadSong (Some buffer) audio title' singer id p))
  = {| playing := false; paused := false; currentTime := 0;
       duration := durationMs (parseCdgFile buffer); title := title';
       singerName := singer; songId := id; fileType := "cdg";
       audioPath := Some audio |}.
Proof.
  unfold loadSong. rewrite (after_bind _ _ _ tt) by apply stop_returns.
  rewrite (after_bind _ _ _ tt) by apply modify_returns. rewrite after_modify.
  match goal with
  | |- state (after (_ ?q')) = _ => set (q := q')
  end.
  assert (Hq : cdgData q = Some (parseCdgFile buffer)) by reflexivity.
  rewrite (after_bind_tail state) by (intros; unchanged).
  rewrite (applyPacketsUpTo_run q _ 0 Hq). cbn [after state set_state].
  by rewrite replayFromCursor_state.
Qed.

Lemma loadSong_flags :
  playing (state (after (loadSong (Some buffer) audio title' singer id p))) = false
  /\ paused (state (after (loadSong (Some buffer) audio title' singer id p))) = false
  /\ duration (state (after (loadSong (Some buffer) audio title' singer id p)))
     = durationMs (parseCdgFile buffer).
Proof. rewrite loadSong_state. by repeat split. Qed.
End Load.

Section SeekFields.
Variables (p : CdgPlayer) (d : ParsedCdg) (t : Q) (now : Z).
Hypothesis Hd : cdgData p = Some d.

Lemma seek_state :
  state (after (seek t now p))
  = set_currentTime (mathMax 0 (mathMin t (duration (state p)))) (state p).
Proof.
  unfold seek. rewrite bind_this, Hd.
  rewrite (after_bind _ _ _ tt) by apply modify_returns. rewrite after_modify.
  set (q := set_packetIndex 0 (set_renderer (reset (renderer p)) p)).
  assert (Hq : cdgData q = Some d) by exact Hd.
  rewrite (after_bind _ _ _ tt) by (by rewrite (applyPacketsUpTo_run q d)).
  rewrite (applyPacketsUpTo_run q d) by done. cbn [after].
  match goal with
  | |- state (after ((modify ?f ≫= ?k) ?q')) = _ =>
      rewrite (after_bind (modify f) k q' tt) by apply modify_returns;
      rewrite after_modify;
      rewrite (after_bind_tail state) by (intros; unchanged)
  end.
  match goal with
  | |- state (after (?k ?q')) = _ =>
      assert (Hk : unchanged state k) by unchanged; rewrite Hk
  end.
  cbn [after state set_state]. rewrite replayFromCursor_state.
  subst q. cbn [state set_packetIndex set_renderer]. reflexivity.
Qed.

Lemma seek_packetIndex :
  packetIndex (after (seek t now p))
  = snd (replayWhile (mathMax 0 (mathMin t (duration (state p)))) (packets d)
           (reset (renderer p)) 0).
Proof.
  unfold seek. rewrite bind_this, Hd.
  rewrite (after_bind _ _ _ tt) by apply modify_returns. rewrite after_modify.
  set (q := set_packetIndex 0 (set_renderer (reset (renderer p)) p)).
  assert (Hq : cdgData q = Some d) by exact Hd.
  rewrite (after_bind _ _ _ tt) by (by rewrite (applyPacketsUpTo_run q d)).
  match goal with
  | |- packetIndex (after (?k ?q')) = _ =>
      assert (Hk : unchanged packetIndex k) by unchanged; rewrite Hk
  end.
  rewrite (applyPacketsUpTo_run q d) by done. cbn [after].
  change (packetIndex (set_state ?s ?r)) with (packetIndex r).
  destruct (replayFromCursor_renderer q d
              (mathMax 0 (mathMin t (duration (state p)))) Hq) as [_ ->].
  reflexivity.
Qed.

Lemma seek_flags :
  playing (state (after (seek t now p))) = playing (state p)
  /\ paused (state (after (seek t now p))) = paused (state p)
  /\ duration (state (after (seek t now p))) = duration (state p)
  /\ currentTime (state (after (seek t now p)))
     = mathMax 0 (mathMin t (duration (state p))).
Proof. rewrite seek_state. by repeat split. Qed.
End SeekFields.

(** After [seek] on a decoded file the renderer and the cursor hold
    exactly the packets up to the time the clock is set to. *)
Lemma seek_inSync (buffer : list Z) (p : CdgPlayer) (t : Q) (now : Z) :
  cdgData p = Some (parseCdgFile buffer) ->
  gridSized (renderer p) ->
  inSync (parseCdgFile buffer) (after (seek t now p)).
Proof.
  intros Hd Hsz. unfold inSync, syncedUpTo.
  rewrite (seek_state p _ t now Hd), (seek_packetIndex p _ t now Hd).
  rewrite (seek_renderer p _ t now Hd).
  rewrite replayWhile_ascending by apply parseCdgFile_ascending.
  cbn [fst snd currentTime set_currentTime]. split; [| reflexivity].
  unfold replayFromScratch. rewrite !reset_gridSized by (done || apply gridSized_new).
  reflexivity.
Qed.

(** * The renderer of a reachable player *)

Section Preserves.
Context {A B : Type} (I : CdgPlayer -> Prop).

Lemma preserves_unchanged {X} (proj : CdgPlayer -> X) (m : M A) :
  (forall p q, proj p = proj q -> I q -> I p) -> unchanged proj m -> preserves I m.
Proof. intros Hproj Hm p Hp. eapply Hproj; [apply Hm | done]. Qed.

Lemma preserves_modify f : (forall p, I p -> I (f p)) -> preserves I (modify f).
Proof. intros Hf p. apply Hf. Qed.

Lemma preserves_bind (m : M A) (f : A -> M B) :
  preserves I m -> (forall a, preserves I (f a)) -> preserves I (m ≫= f).
Proof.
  intros Hm Hf p Hp. unfold mbind, M_bind. cbv zeta.
  destruct (value (m p)) as [a|]; cbn [after]; [| by apply Hm].
  by apply Hf, Hm.
Qed.
End Preserves.

Lemma replayWhile_gridSized t pkts rd idx :
  gridSized rd -> gridSized (replayWhile t pkts rd idx).1.
Proof.
  revert rd idx. induction pkts as [|pk pkts IH]; intros rd idx Hrd; [done |].
  cbn [replayWhile]. destruct (Qle_bool _ _); [| done].
  apply IH. by apply (applyPacket_gridSized rd pk).
Qed.

Lemma replayFromCursor_sized t p : sized p -> sized (replayFromCursor t p).
Proof.
  unfold sized, replayFromCursor. intros Hp. destruct (cdgData p); [| done].
  pose proof (replayWhile_gridSized t (drop (packetIndex p) (packets p0)) (renderer p)
                (packetIndex p) Hp) as H.
  by destruct (replayWhile _ _ _ _).
Qed.

Lemma reset_sized rd : gridSized rd -> gridSized (reset rd).
Proof. intros Hrd. rewrite reset_gridSized by done. apply gridSized_new. Qed.

Ltac sized_step :=
  lazymatch goal with
  | |- preserves _ (mbind _ _) => apply preserves_bind; [| intros ?]
  | |- preserves _ (modify _) =>
      apply preserves_modify; intros ? ?;
      first [ by apply replayFromCursor_sized
            | by repeat case_match; try apply reset_sized ]
  | |- preserves _ (if ?c then _ else _) => destruct c
  | |- preserves _ (match ?x with _ => _ end) => destruct x
  | |- preserves _ _ =>
      solve [ apply (preserves_unchanged _ renderer);
              [ unfold sized; by intros ? ? -> | unchanged ] ]
  end.

Ltac sized := cbv beta; repeat sized_step.

Lemma sized_stop : preserves sized stop.
Proof. unfold stop, stopAnimationLoop. sized. Qed.

Lemma sized_applyPacketsUpTo t : preserves sized (applyPacketsUpTo t).
Proof. unfold applyPacketsUpTo. sized. Qed.

Lemma sized_update now : preserves sized (update now).
Proof. unfold update, applyPacketsFromTo. sized; apply sized_stop. Qed.

Lemma sized_seek t now : preserves sized (seek t now).
Proof. unfold seek. sized; apply sized_applyPacketsUpTo. Qed.

Lemma sized_perform c : preserves sized (perform c).
Proof.
  destruct c; cbn [perform].
  - unfold loadSong. sized; (apply sized_stop || apply sized_applyPacketsUpTo).
  - unfold play, startAnimationLoop, stopAnimationLoop. sized; apply sized_update.
  - unfold pause, stopAnimationLoop. sized.
  - apply sized_stop.
  - apply sized_seek.
  - unfold syncToAudioTime, applyPacketsFromTo. sized; (apply sized_seek || apply sized_stop).
  - unfold tick. sized; apply sized_update.
Qed.

(** Whatever the host calls, the pixel buffer keeps its 300 x 216 cells. *)
Lemma reachable_sized (p : CdgPlayer) : reachable p -> gridSized (renderer p).
Proof.
  induction 1 as [| p c _ IH]; [apply gridSized_new |]. by apply sized_perform.
Qed.

(** * Sequences of sync calls *)

Section Marks.
Implicit Types (pkts : list CdgPacket) (t m : Q).

Lemma upTo_earlier t m pkts : (t <= m)%Q -> upTo m pkts = [] -> upTo t pkts = [].
Proof.
  intros Htm. unfold upTo. induction pkts as [|pk pkts IH]; [done |].
  cbn [List.filter].
  destruct (Qle_bool (timeMs pk) m) eqn:Hm; [done |]. intros Hrest.
  destruct (Qle_bool (timeMs pk) t) eqn:Ht; [| by apply IH].
  apply Qle_bool_iff in Ht.
  assert (Hcontra : Qle_bool (timeMs pk) m = true)
    by (apply Qle_bool_iff; by eapply Qle_trans).
  congruence.
Qed.

(** On an ascending list, the packets up to [t] are the packets up to an
    earlier mark [m] followed by those up to [t] among the rest. *)
Lemma upTo_split t m pkts :
  ascending pkts -> (m <= t)%Q ->
  upTo t pkts = upTo m pkts ++ upTo t (drop (length (upTo m pkts)) pkts).
Proof.
  intros Hasc Hmt. destruct (upTo_prefix m pkts Hasc) as [Htake _].
  rewrite <- (take_drop (length (upTo m pkts)) pkts) at 1.
  unfold upTo at 1. rewrite List.filter_app. fold (upTo t). f_equal.
  rewrite Htake. apply upTo_all.
  apply List.Forall_forall. intros pk Hin. unfold upTo in Hin.
  apply filter_In in Hin as [_ Hpk]. apply Qle_bool_iff in Hpk.
  by apply Qle_trans with m.
Qed.
End Marks.

Section SyncBack.
Variables (p : CdgPlayer) (d : ParsedCdg) (t : Q) (now : Z).
Hypothesis Hd : cdgData p = Some d.
Hypothesis Hplaying : playing (state p) = true.
Hypothesis Hpaused : paused (state p) = false.
Hypothesis Hfar : Qle_bool (currentTime (state p) - 1000) t = false.

(** A call more than a second behind the clock is a [seek]. *)
Lemma sync_back_after :
  after (syncToAudioTime t now p) = after (seek t now p).
Proof.
  assert (Hbehind : Qle_bool t (currentTime (state p)) = true).
  { apply Qle_bool_iff. apply Qle_bool_false in Hfar.
    apply Qlt_le_weak. eapply Qlt_le_trans; [exact Hfar |].
    apply Qle_minus_iff. ring_simplify. done. }
  unfold syncToAudioTime. rewrite bind_this, Hd, Hplaying, Hpaused, Hbehind, Hfar.
  cbn [isNull negb orb].
  destruct (value (seek t now p)) as [[]|] eqn:Hseek.
  - rewrite (after_bind _ _ _ true).
    + rewrite (after_bind _ _ _ tt Hseek). reflexivity.
    + rewrite (value_bind _ _ _ tt Hseek). reflexivity.
  - rewrite bind_raises.
    + cbn [after]. by rewrite bind_raises.
    + by rewrite bind_raises.
Qed.
End SyncBack.

Section SyncStep.
Variables (buffer : list Z) (p : CdgPlayer) (t tn m : Q) (now : Z).
Hypothesis Hd : cdgData p = Some (parseCdgFile buffer).
Hypothesis Hplaying : playing (state p) = true.
Hypothesis Hpaused : paused (state p) = false.
Hypothesis Hsync : syncedUpTo (parseCdgFile buffer) m p.
Hypothesis Hclock : (currentTime (state p) <= m)%Q.
Hypothesis Hmark : (m <= tn)%Q.
Hypothesis Htime : (t <= tn)%Q.
Hypothesis Hpositive : (0 <= tn)%Q.
Hypothesis Hbefore : (t < duration (state p))%Q.

(** One call, at a time that is at most [tn], on a clock that is not
    ahead of the packets its renderer holds: the renderer and the cursor
    then hold exactly the packets up to a mark between [t] and [tn], and
    the clock is not ahead of it. *)
Lemma sync_step :
  let p' := after (syncToAudioTime t now p) in
  cdgData p' = Some (parseCdgFile buffer)
  /\ playing (state p') = true /\ paused (state p') = false
  /\ duration (state p') = duration (state p)
  /\ exists m', syncedUpTo (parseCdgFile buffer) m' p'
                /\ (currentTime (state p') <= m')%Q /\ (t <= m')%Q /\ (m' <= tn)%Q.
Proof.
  cbv zeta. pose proof (parseCdgFile_ascending buffer) as Hasc.
  destruct Hsync as [Hrd Hidx].
  destruct (Qle_bool (currentTime (state p) - 1000) t) eqn:Hnear.
  - apply Qle_bool_iff in Hnear.
    destruct (sync_near_fields _ p t now Hd Hplaying Hpaused Hnear Hbefore)
      as (Hd' & Hpl' & Hpa' & Hdu' & Hct' & Hkeep & Hreplay).
    repeat (split; [done |]). rewrite Hct'.
    destruct (Qle_bool t (currentTime (state p))) eqn:Hle.
    + destruct (Hkeep eq_refl) as [Hrd' Hidx'].
      apply Qle_bool_iff in Hle.
      exists m. split; [split; congruence |].
      split; [by eapply Qle_trans |]. split; [by eapply Qle_trans | done].
    + destruct (Hreplay eq_refl) as [Hrd' Hidx'].
      destruct (replayFromCursor_renderer p _ t Hd) as [Hr Hi].
      rewrite replayWhile_ascending in Hr, Hi by (by apply ascending_drop).
      cbn [fst snd] in Hr, Hi. rewrite Hidx in Hr, Hi.
      destruct (upTo_prefix m _ Hasc) as [_ Hdrop].
      destruct (Qle_bool t m) eqn:Htm.
      * apply Qle_bool_iff in Htm.
        rewrite (upTo_earlier t m _ Htm Hdrop) in Hr, Hi. cbn [fold_left length] in Hr, Hi.
        exists m. split; [split; [congruence | rewrite Hidx', Hi; lia] |].
        split; [done |]. split; done.
      * apply Qle_bool_false in Htm. apply Qlt_le_weak in Htm.
        exists t. split; [| split; [apply Qle_refl | split; [apply Qle_refl | done]]].
        split.
        -- rewrite Hrd', Hr, Hrd. unfold replayFromScratch.
           fold (upTo m (packets (parseCdgFile buffer)))
                (upTo t (packets (parseCdgFile buffer))).
           by rewrite (upTo_split t m _ Hasc Htm), fold_left_app.
        -- by rewrite Hidx', Hi, (upTo_split t m _ Hasc Htm), length_app.
  - rewrite (sync_back_after p _ t now Hd Hplaying Hpaused Hnear).
    destruct (seek_flags p _ t now Hd) as (Hpl' & Hpa' & Hdu' & Hct').
    rewrite keeps_seek, Hpl', Hpa', Hdu'. repeat (split; [done |]).
    assert (Hsz : gridSized (renderer p))
      by (rewrite Hrd; apply replayFromScratch_gridSized, gridSized_new).
    exists (currentTime (state (after (seek t now p)))).
    split; [exact (seek_inSync buffer p t now Hd Hsz) |].
    split; [apply Qle_refl |]. rewrite Hct'.
    assert (Hmin : mathMin t (duration (state p)) = t).
    { unfold mathMin. apply Qlt_le_weak, Qle_bool_iff in Hbefore. by rewrite Hbefore. }
    rewrite Hmin. unfold mathMax. destruct (Qle_bool 0 t) eqn:H0.
    + split; [apply Qle_refl | done].
    + apply Qle_bool_false in H0. split; [by apply Qlt_le_weak | done].
Qed.
End SyncStep.

Section SyncSequence.
Variables (buffer : list Z) (tn : Q).
Hypothesis Hpositive : (0 <= tn)%Q.

Lemma increasing_last_max (ts : list Q) :
  StronglySorted Qlt ts -> last ts = Some tn -> Forall (fun t => (t <= tn)%Q) ts.
Proof.
  induction 1 as [|t ts Hs IH Hall]; intros Hlast; [constructor |].
  rewrite last_cons in Hlast. destruct (last ts) as [t'|] eqn:Ht'.
  - injection Hlast as ->. specialize (IH eq_refl). constructor; [| done].
    destruct ts as [|t0 ts]; [done |].
    apply Forall_cons_1 in Hall as [Hlt _]. apply Forall_cons_1 in IH as [Hle _].
    apply Qlt_le_weak. by eapply Qlt_le_trans.
  - injection Hlast as ->. apply last_None in Ht' as ->.
    constructor; [apply Qle_refl | constructor].
Qed.

(** Calls at times that are at most [tn] and below the duration, the last
    of them at [tn], leave the renderer holding exactly the packets up to
    [tn]. *)
Lemma syncAll_reaches (calls : list (Q * Z)) (p : CdgPlayer) (m : Q) :
  cdgData p = Some (parseCdgFile buffer) ->
  playing (state p) = true -> paused (state p) = false ->
  syncedUpTo (parseCdgFile buffer) m p ->
  (currentTime (state p) <= m)%Q -> (m <= tn)%Q ->
  Forall (fun t => (t <= tn)%Q) (map fst calls) ->
  Forall (fun t => (t < duration (state p))%Q) (map fst calls) ->
  exists m', syncedUpTo (parseCdgFile buffer) m' (syncAll calls p)
             /\ (default m (last (map fst calls)) <= m')%Q /\ (m' <= tn)%Q.
Proof.
  revert p m. induction calls as [|[t now] calls IH];
    intros p m Hd Hpl Hpa Hsync Hclock Hmark Hle Hlt.
  { exists m. cbn. split; [done |]. split; [apply Qle_refl | done]. }
  cbn [map fst] in *. unfold syncAll. cbn [fold_left fst snd].
  fold (syncAll calls (after (syncToAudioTime t now p))).
  apply Forall_cons_1 in Hle as [Hle Hles].
  apply Forall_cons_1 in Hlt as [Hlt Hlts].
  destruct (sync_step buffer p t tn m now Hd Hpl Hpa Hsync Hclock Hmark Hle Hpositive Hlt)
    as (Hd' & Hpl' & Hpa' & Hdu' & m1 & Hsync1 & Hclock1 & Ht1 & Hmark1).
  destruct (IH (after (syncToAudioTime t now p)) m1) as (m' & Hfinal & Hlast & Hmark');
    try done.
  { by rewrite Hdu'. }
  exists m'. split; [done |]. split; [| done].
  rewrite last_cons. destruct (last (map fst calls)) as [t'|]; [done |].
  cbn [default] in *. by eapply Qle_trans.
Qed.
End SyncSequence.

(** C4, as the code has it. From a playing, unpaused clock whose renderer
    and cursor hold exactly the packets up to the current time, calls of
    [syncToAudioTime] at strictly increasing times [t1 < ... < tn], with
    [tn] not behind the current time, not negative and below the duration,
    leave the renderer (and so the visible frame) that one call [seek(tn)]
    from the same player leaves. *)
Theorem sync_sequence_matches_seek (buffer : list Z) (p : CdgPlayer)
    (t1 : Q) (now1 : Z) (more : list (Q * Z)) (tn : Q) (now : Z) :
  let calls := (t1, now1) :: more in
  cdgData p = Some (parseCdgFile buffer) ->
  playing (state p) = true -> paused (state p) = false ->
  inSync (parseCdgFile buffer) p ->
  StronglySorted Qlt (map fst calls) ->
  last (map fst calls) = Some tn ->
  (currentTime (state p) <= tn)%Q ->
  (0 <= tn)%Q -> (tn < duration (state p))%Q ->
  renderer (syncAll calls p) = renderer (after (seek tn now p))
  /\ getVisibleRgbaFrame (renderer (syncAll calls p))
     = getVisibleRgbaFrame (renderer (after (seek tn now p))).
Proof.
  intros calls Hd Hpl Hpa Hsync Hinc Hlast Hclock H0 Hend.
  assert (Hr : renderer (syncAll calls p) = renderer (after (seek tn now p))).
  { pose proof (increasing_last_max tn _ Hinc Hlast) as Hmax.
    destruct (syncAll_reaches buffer tn H0 calls p (currentTime (state p))
                Hd Hpl Hpa Hsync (Qle_refl _) Hclock Hmax)
      as (m' & [Hfinal _] & Hlow & Hhigh).
    - eapply Forall_impl; [exact Hmax |]. intros t' Ht'. cbn in Ht'.
      by eapply Qle_lt_trans.
    - rewrite Hlast in Hlow. cbn [default] in Hlow.
      rewrite Hfinal, (seek_renderer_replay buffer p tn now Hd).
      symmetry. apply replayFromScratch_base.
      + destruct Hsync as [-> _]. apply replayFromScratch_gridSized, gridSized_new.
      + rewrite clamp_inside by done. by apply Qle_antisym. }
  split; [exact Hr | by rewrite Hr].
Qed.

(** Comparisons of rational literals. *)
Ltac q_literal := vm_compute; first [reflexivity | discriminate].

(** * A song of four packets *)

Section FourPackets.

Lemma transparentFile_packets :
  packets (parseCdgFile transparentFile)
    = [ {| timeMs := packetTime 3; instruction := Some (defineTransparent 0) |} ]
  /\ durationMs (parseCdgFile transparentFile) = packetTime 4.
Proof. split; vm_compute; reflexivity. Qed.

(** On the numbers of the machine too, the one packet of the song is at
    exactly 10 ms and the song is longer than that. *)
Lemma transparentFile_binary64 :
  packetTimeBinary64 3 = 10%float
  /\ PrimFloat.ltb 10 (durationMsBinary64 transparentFile) = true.
Proof. split; vm_compute; reflexivity. Qed.

Lemma loadedSong_data : cdgData loadedSong = Some (parseCdgFile transparentFile).
Proof. apply loadSong_loaded. Qed.

Lemma loadedSong_state :
  playing (state loadedSong) = false /\ paused (state loadedSong) = false
  /\ duration (state loadedSong) = packetTime 4.
Proof.
  destruct transparentFile_packets as [_ <-]. apply loadSong_flags.
Qed.

Lemma playingSong_data : cdgData playingSong = Some (parseCdgFile transparentFile).
Proof. etransitivity; [apply keeps_play | apply loadedSong_data]. Qed.

Lemma playingSong_state :
  playing (state playingSong) = true /\ paused (state playingSong) = false
  /\ duration (state playingSong) = packetTime 4.
Proof.
  destruct loadedSong_state as (Hpl & Hpa & Hdu).
  destruct (play_fresh loadedSong _ 0 loadedSong_data Hpl Hpa) as (Hpl' & Hpa' & Hdu').
  { rewrite Hdu. reflexivity. }
  split; [exact Hpl' |]. split; [exact Hpa' |].
  etransitivity; [exact Hdu' | exact Hdu].
Qed.

Lemma playingAt10_data : cdgData playingAt10 = Some (parseCdgFile transparentFile).
Proof. etransitivity; [apply keeps_seek | apply playingSong_data]. Qed.

Lemma playingAt10_state :
  playing (state playingAt10) = true /\ paused (state playingAt10) = false
  /\ duration (state playingAt10) = packetTime 4
  /\ currentTime (state playingAt10) = 10%Q.
Proof.
  destruct playingSong_state as (Hpl & Hpa & Hdu).
  destruct (seek_flags playingSong _ 10 0 playingSong_data) as (Hpl' & Hpa' & Hdu' & Hct').
  split; [etransitivity; [exact Hpl' | exact Hpl] |].
  split; [etransitivity; [exact Hpa' | exact Hpa] |].
  split; [etransitivity; [exact Hdu' | exact Hdu] |].
  etransitivity; [exact Hct' |]. rewrite Hdu. reflexivity.
Qed.

Lemma playingSong_reachable : reachable playingSong.
Proof. do 2 apply reachable_call. apply reachable_new. Qed.

Lemma playingAt10_reachable : reachable playingAt10.
Proof. apply reachable_call, playingSong_reachable. Qed.

Lemma playingAt10_inSync : inSync (parseCdgFile transparentFile) playingAt10.
Proof.
  apply seek_inSync; [apply playingSong_data |].
  apply reachable_sized, playingSong_reachable.
Qed.
End FourPackets.

Section FramesDiffer.

Lemma paletteFull_new : paletteFull newRenderer.
Proof.
  intros i Hi. unfold array_get. destruct (Z.ltb_spec i 0); [lia |].
  cbn [palette newRenderer]. rewrite lookup_replicate_2 by (unfold CDG_COLORS; lia).
  by eexists.
Qed.

(** Making the colour of the whole grid transparent changes the visible
    frame: the alpha byte of its first pixel goes from 255 to 0. *)
Lemma transparent_frame_differs :
  getVisibleRgbaFrame transparentRenderer <> getVisibleRgbaFrame newRenderer.
Proof.
  assert (Hx : 0 <= 0 < CDG_VISIBLE_WIDTH) by (unfold CDG_VISIBLE_WIDTH; lia).
  assert (Hy : 0 <= 0 < CDG_VISIBLE_HEIGHT) by (unfold CDG_VISIBLE_HEIGHT; lia).
  assert (Hh : 0 <= hOffset newRenderer <= 5) by (cbn [hOffset newRenderer]; lia).
  assert (Hv : 0 <= vOffset newRenderer <= 11) by (cbn [vOffset newRenderer]; lia).
  destruct (getVisibleRgbaFrame_in_bounds newRenderer gridInRange_new paletteFull_new
              Hh Hv) as [rgba Hnew].
  rewrite Hnew. intros Htr.
  pose proof (getVisibleRgbaFrame_pixel newRenderer 0 0 rgba Hx Hy Hnew) as [_ Hp].
  destruct Hp as (c & _ & _ & _ & _ & Ha).
  pose proof (getVisibleRgbaFrame_pixel transparentRenderer 0 0 rgba Hx Hy Htr)
    as [_ Hp'].
  destruct Hp' as (c' & _ & _ & _ & _ & Ha').
  assert (Hn : visibleAlpha newRenderer 0 0 = 255) by (vm_compute; reflexivity).
  assert (Ht : visibleAlpha transparentRenderer 0 0 = 0) by (vm_compute; reflexivity).
  rewrite Hn in Ha. rewrite Ht, Ha in Ha'. discriminate Ha'.
Qed.
End FramesDiffer.

Section BehindTheClock.
Lemma playingAt10_renderer :
  renderer playingAt10 = transparentRenderer /\ packetIndex playingAt10 = 1%nat.
Proof.
  destruct playingAt10_inSync as [Hrd Hidx].
  destruct playingAt10_state as (_ & _ & _ & Hct).
  rewrite Hrd, Hidx, Hct. unfold replayFromScratch.
  destruct transparentFile_packets as [-> _].
  rewrite reset_gridSized by apply gridSized_new.
  split; reflexivity.
Qed.

Lemma sync_to_1 :
  let p1 := after (syncToAudioTime 1 0 playingAt10) in
  cdgData p1 = Some (parseCdgFile transparentFile) /\ playing (state p1) = true /\ paused (state p1) = false
  /\ duration (state p1) = packetTime 4 /\ currentTime (state p1) = 1%Q
  /\ renderer p1 = transparentRenderer /\ packetIndex p1 = 1%nat.
Proof.
  destruct playingAt10_state as (Hpl & Hpa & Hdu & Hct).
  destruct playingAt10_renderer as [Hrd Hidx].
  destruct (sync_near_fields _ playingAt10 1 0 playingAt10_data Hpl Hpa)
    as (Hd' & Hpl' & Hpa' & Hdu' & Hct' & Hkeep & _).
  { rewrite Hct. q_literal. }
  { rewrite Hdu. q_literal. }
  destruct Hkeep as [Hrd' Hidx']; [rewrite Hct; reflexivity |].
  cbv zeta. rewrite Hd', Hpl', Hpa', Hdu', Hct', Hrd', Hidx', Hdu, Hrd, Hidx.
  repeat split.
Qed.

Lemma sync_to_2_after_1 :
  renderer (after (syncToAudioTime 2 0 (after (syncToAudioTime 1 0 playingAt10))))
  = transparentRenderer.
Proof.
  destruct sync_to_1 as (Hd & Hpl & Hpa & Hdu & Hct & Hrd & Hidx).
  set (p1 := after (syncToAudioTime 1 0 playingAt10)) in *.
  destruct (sync_near_fields _ p1 2 0 Hd Hpl Hpa) as (_ & _ & _ & _ & _ & _ & Hreplay).
  { rewrite Hct. q_literal. }
  { rewrite Hdu. q_literal. }
  destruct Hreplay as [Hrd' _]; [rewrite Hct; reflexivity |].
  rewrite Hrd'.
  destruct (replayFromCursor_renderer p1 _ 2 Hd) as [-> _].
  rewrite Hidx, Hrd. destruct transparentFile_packets as [-> _].
  reflexivity.
Qed.

Lemma sync_to_1_then_2 :
  renderer (syncAll [(1%Q, 0); (2%Q, 0)] playingAt10) = transparentRenderer.
Proof. unfold syncAll. cbn [fold_left fst snd]. apply sync_to_2_after_1. Qed.

Lemma seek_to_2_after_1 :
  renderer (after (seek 2 0 (after (syncToAudioTime 1 0 playingAt10)))) = newRenderer.
Proof.
  destruct sync_to_1 as (Hd & Hpl & Hpa & Hdu & Hct & Hrd & Hidx).
  set (p1 := after (syncToAudioTime 1 0 playingAt10)) in *.
  rewrite (seek_renderer_replay transparentFile p1 2 0 Hd).
  rewrite (replayFromScratch_base _ _ 2).
  - unfold replayFromScratch. destruct transparentFile_packets as [-> _].
    rewrite reset_gridSized by apply gridSized_new. reflexivity.
  - rewrite Hrd. apply applyInstruction_gridSized, gridSized_new.
  - apply clamp_inside; [q_literal |]. rewrite Hdu. q_literal.
Qed.

(** The starting point matters as well: after [syncToAudioTime(1)] the
    clock reads 1 ms while the renderer holds the packet of 10 ms, and the
    single call [syncToAudioTime(2)], ahead of the clock, does not leave
    the frame of [seek(2)]. *)
Lemma sync_after_step_back_differs :
  let p1 := after (syncToAudioTime 1 0 playingAt10) in
  currentTime (state p1) = 1%Q
  /\ getVisibleRgbaFrame (renderer (after (syncToAudioTime 2 0 p1)))
     <> getVisibleRgbaFrame (renderer (after (seek 2 0 p1))).
Proof.
  cbv zeta. split; [apply sync_to_1 |].
  rewrite sync_to_2_after_1, seek_to_2_after_1. apply transparent_frame_differs.
Qed.

Lemma seek_to_2 : renderer (after (seek 2 0 playingAt10)) = newRenderer.
Proof.
  destruct playingAt10_state as (_ & _ & Hdu & _).
  rewrite (seek_renderer_replay transparentFile playingAt10 2 0 playingAt10_data).
  rewrite (replayFromScratch_base _ _ 2).
  - unfold replayFromScratch. destruct transparentFile_packets as [-> _].
    rewrite reset_gridSized by apply gridSized_new. reflexivity.
  - apply reachable_sized, playingAt10_reachable.
  - apply clamp_inside; [q_literal |]. rewrite Hdu. q_literal.
Qed.
End BehindTheClock.

(** C4 as stated fails. After load, play and a seek to 10 ms of the
    four-packet song, the clock is playing and unpaused; the calls
    [syncToAudioTime(1)] and [syncToAudioTime(2)], at increasing times below
    the duration, leave the transparent index set by the packet at 10 ms,
    while [seek(2)] from the same player replays nothing: the two visible
    frames differ. *)
Lemma sync_behind_clock_differs :
  reachable playingAt10
  /\ cdgData playingAt10 = Some (parseCdgFile transparentFile)
  /\ playing (state playingAt10) = true /\ paused (state playingAt10) = false
  /\ StronglySorted Qlt [1%Q; 2%Q]
  /\ (2 < duration (state playingAt10))%Q
  /\ getVisibleRgbaFrame (renderer (syncAll [(1%Q, 0); (2%Q, 0)] playingAt10))
     <> getVisibleRgbaFrame (renderer (after (seek 2 0 playingAt10))).
Proof.
  destruct playingAt10_state as (Hpl & Hpa & Hdu & Hct).
  split; [apply playingAt10_reachable |].
  split; [apply playingAt10_data |].
  split; [exact Hpl |]. split; [exact Hpa |].
  split; [repeat constructor; q_literal |].
  split; [rewrite Hdu; q_literal |].
  rewrite sync_to_1_then_2, seek_to_2. apply transparent_frame_differs.
Qed.

Lemma sync_sequence_matches_seek_witness :
  renderer (syncAll [(5%Q, 0); (12%Q, 0)] playingAt10)
    = renderer (after (seek 12 0 playingAt10))
  /\ getVisibleRgbaFrame (renderer (syncAll [(5%Q, 0); (12%Q, 0)] playingAt10))
     = getVisibleRgbaFrame (renderer (after (seek 12 0 playingAt10))).
Proof.
  destruct playingAt10_state as (Hpl & Hpa & Hdu & Hct).
  apply (sync_sequence_matches_seek transparentFile playingAt10 5 0 [(12%Q, 0)] 12 0).
  - apply playingAt10_data.
  - exact Hpl.
  - exact Hpa.
  - apply playingAt10_inSync.
  - repeat constructor; q_literal.
  - reflexivity.
  - rewrite Hct. q_literal.
  - q_literal.
  - rewrite Hdu. q_literal.
Defined.

(** * More on the decoder *)

Section PacketBytes.
Implicit Types (buffer : list Z) (i : nat).

Lemma byteAt_take_drop buffer (from n j : nat) :
  (j < n)%nat -> byteAt (take n (drop from buffer)) j = byteAt buffer (from + j).
Proof.
  intros Hj. unfold byteAt.
  destruct (decide (from + j < length buffer)%nat) as [Hin|Hout].
  - rewrite !(nth_lookup _ _ 0).
    by rewrite lookup_take_lt, lookup_drop by lia.
  - rewrite !nth_overflow; [done | lia |].
    rewrite length_take, length_drop. lia.
Qed.

Lemma subarray_subarray buffer (from to from' to' : nat) :
  (from' <= to')%nat -> (from + to' <= to)%nat ->
  subarray (subarray buffer from to) from' to'
  = subarray buffer (from + from') (from + to').
Proof.
  intros H1 H2. unfold subarray.
  rewrite skipn_firstn_comm, drop_drop, take_take.
  f_equal; lia.
Qed.

(** The turn of the loop for packet [i], in terms of the bytes of the
    file. *)
Lemma parsePacket_bytes buffer i :
  parsePacket buffer i =
    if negb (Z.land (byteAt buffer (24 * i)) 0x3f =? 0x09) then None
    else match parseInstruction (Z.land (byteAt buffer (24 * i + 1)) 0x3f)
                 (subarray buffer (24 * i + 4) (24 * i + 20)) with
         | Some parsed =>
             Some {| timeMs := packetTime i; instruction := Some parsed |}
         | None => None
         end.
Proof.
  unfold parsePacket, CDG_PACKET_SIZE. cbv zeta.
  rewrite subarray_subarray by lia.
  unfold subarray at 1 2.
  replace (i * 24 + 24 - i * 24)%nat with 24%nat by lia.
  rewrite !byteAt_take_drop by lia.
  replace (i * 24 + 0)%nat with (24 * i)%nat by lia.
  replace (i * 24 + 1)%nat with (24 * i + 1)%nat by lia.
  replace (i * 24 + 4)%nat with (24 * i + 4)%nat by lia.
  replace (i * 24 + 20)%nat with (24 * i + 20)%nat by lia.
  reflexivity.
Qed.

Lemma numPackets_lt buffer i :
  (i < length buffer / 24)%nat <-> (24 * i + 24 <= length buffer)%nat.
Proof.
  pose proof (Nat.div_mod_eq (length buffer) 24) as Hdm.
  pose proof (Nat.mod_upper_bound (length buffer) 24 ltac:(lia)) as Hlt.
  split; intros H; nia.
Qed.

End PacketBytes.

(** An opcode is decoded exactly when it is one of the nine of [CDG_INST];
    any other value gives [null], whatever the data. *)
Theorem parseInstruction_known_only (opcode : Z) (data : list Z) :
  is_Some (parseInstruction opcode data) <-> In opcode CDG_INST.known.
Proof.
  unfold parseInstruction, CDG_INST.known.
  destruct opcode as [|p|p].
  - split; [intros [? [=]] | cbn; intuition discriminate].
  - do 7 (try destruct p as [p|p|]);
      (split;
       [ intros H; first [ by destruct H as [? [=]] | cbn; tauto ]
       | intros H; first [ by eexists | cbn in H; exfalso; intuition discriminate ] ]).
  - split; [intros [? [=]] | cbn; intuition discriminate].
Qed.

Lemma parseCdgFile_packet_inv (buffer : list Z) (pk : CdgPacket) :
  pk ∈ packets (parseCdgFile buffer) ->
  exists (i : nat) (inst : CdgInstruction),
    (24 * i + 24 <= length buffer)%nat
    /\ Z.land (byteAt buffer (24 * i)) 0x3f = 0x09
    /\ parseInstruction (Z.land (byteAt buffer (24 * i + 1)) 0x3f)
         (subarray buffer (24 * i + 4) (24 * i + 20)) = Some inst
    /\ pk = {| timeMs := packetTime i; instruction := Some inst |}.
Proof.
  unfold parseCdgFile, CDG_PACKET_SIZE. cbn [packets].
  rewrite list_elem_of_omap.
  intros (i & Hi & Hpk). apply elem_of_seq in Hi.
  rewrite parsePacket_bytes in Hpk.
  destruct (Z.eqb_spec (Z.land (byteAt buffer (24 * i)) 63) 9) as [Hc|Hc];
    cbn [negb] in Hpk; [| done].
  destruct (parseInstruction _ _) as [inst|] eqn:Hinst; [| done].
  injection Hpk as <-. exists i, inst.
  split; [apply numPackets_lt; lia | done].
Qed.

(** The packets [parseCdgFile] returns are exactly those of the complete
    24-byte records whose command byte, masked to six bits, is 0x09 and
    whose opcode [parseInstruction] accepts; record [i] is stamped
    [packetTime i], the binary64 number the code computes as
    [(i / 300) * 1000], and none carries a [null] instruction. *)
Theorem parseCdgFile_packets (buffer : list Z) (pk : CdgPacket) :
  pk ∈ packets (parseCdgFile buffer) <->
  exists (i : nat) (inst : CdgInstruction),
    (24 * i + 24 <= length buffer)%nat
    /\ Z.land (byteAt buffer (24 * i)) 0x3f = 0x09
    /\ parseInstruction (Z.land (byteAt buffer (24 * i + 1)) 0x3f)
         (subarray buffer (24 * i + 4) (24 * i + 20)) = Some inst
    /\ pk = {| timeMs := packetTime i; instruction := Some inst |}.
Proof.
  split; [apply parseCdgFile_packet_inv |].
  unfold parseCdgFile, CDG_PACKET_SIZE. cbn [packets].
  rewrite list_elem_of_omap.
  intros (i & inst & Hi & Hc & Hinst & ->). exists i. split.
  - apply elem_of_seq. apply numPackets_lt in Hi. lia.
  - rewrite parsePacket_bytes, Hc, Hinst. reflexivity.
Qed.

Section StrictTimes.

Lemma packetTime_nonneg (i : nat) : (0 <= packetTime i)%Q.
Proof.
  eapply Qle_trans; [| apply (packetTime_mono 0); lia].
  vm_compute. discriminate.
Qed.

Lemma parsePackets_times buffer (n s : nat) :
  (Z.of_nat (s + n) <= 2 ^ 49)%Z ->
  StronglySorted Qlt (map timeMs (omap (parsePacket buffer) (seq s n)))
  /\ Forall (fun pk => (packetTime s <= timeMs pk)%Q
                       /\ (timeMs pk < packetTime (s + n))%Q)
       (omap (parsePacket buffer) (seq s n)).
Proof.
  revert s. induction n as [|n IH]; intros s Hmax; cbn [seq omap list_omap].
  - split; constructor.
  - destruct (IH (Datatypes.S s)) as [Hasc Hall]; [lia |].
    replace (Datatypes.S s + n)%nat with (s + Datatypes.S n)%nat in Hall by lia.
    assert (Hall' : Forall (fun pk => (packetTime s <= timeMs pk)%Q
                                      /\ (timeMs pk < packetTime (s + Datatypes.S n))%Q)
                      (omap (parsePacket buffer) (seq (Datatypes.S s) n))).
    { eapply Forall_impl; [exact Hall |]. cbn. intros pk [Hlo Hhi].
      split; [| exact Hhi].
      eapply Qle_trans; [| exact Hlo]. apply packetTime_mono. lia. }
    destruct (parsePacket buffer s) as [pk|] eqn:Hpk; [| done].
    apply parsePacket_time in Hpk.
    split.
    + cbn [map]. constructor; [done |].
      apply Forall_map. eapply Forall_impl; [exact Hall |].
      cbn. intros pk' [Hlo _]. rewrite Hpk.
      eapply Qlt_le_trans; [| exact Hlo]. apply packetTime_lt; lia.
    + constructor; [| done]. rewrite Hpk.
      split; [apply Qle_refl | apply packetTime_lt; lia].
Qed.

Lemma omap_length_le {A B : Type} (f : A -> option B) (l : list A) :
  (length (omap f l) <= length l)%nat.
Proof.
  induction l as [|a l IH]; cbn [omap list_omap length]; [lia |].
  destruct (f a); cbn [length]; lia.
Qed.

End StrictTimes.

(** For a buffer of fewer than [2 ^ 53] bytes (the length of a JavaScript
    buffer is below that), the timestamps of the decoded packets, rounded
    as they are, still increase strictly along the list and lie between 0
    and the duration, which none reaches: replaying up to the duration
    replays every packet. There is at most one packet per complete 24-byte
    record. *)
Theorem parseCdgFile_times (buffer : list Z) :
  (Z.of_nat (length buffer) < 2 ^ 53)%Z ->
  let d := parseCdgFile buffer in
  StronglySorted Qlt (map timeMs (packets d))
  /\ Forall (fun pk => (0 <= timeMs pk)%Q /\ (timeMs pk < durationMs d)%Q) (packets d)
  /\ upTo (durationMs d) (packets d) = packets d
  /\ (length (packets d) <= length buffer / 24)%nat.
Proof.
  intros Hlen. cbv zeta.
  assert (Hmax : (Z.of_nat (0 + length buffer / 24) <= 2 ^ 49)%Z).
  { cbn [Nat.add]. rewrite Nat2Z.inj_div. change (Z.of_nat 24) with 24%Z.
    apply Z.lt_le_incl, Z.div_lt_upper_bound; lia. }
  destruct (parsePackets_times buffer (length buffer / 24) 0 Hmax) as [Hsorted Hall].
  assert (Hbounds : Forall (fun pk => (0 <= timeMs pk)%Q
                       /\ (timeMs pk < durationMs (parseCdgFile buffer))%Q)
                      (packets (parseCdgFile buffer))).
  { unfold parseCdgFile, CDG_PACKET_SIZE. cbn [packets durationMs].
    eapply Forall_impl; [exact Hall |]. intros pk [Hlo Hhi].
    split; [| exact Hhi].
    eapply Qle_trans; [apply (packetTime_nonneg 0) | exact Hlo]. }
  split; [exact Hsorted |]. split; [exact Hbounds |]. split.
  - apply upTo_all. eapply Forall_impl; [exact Hbounds |].
    intros pk [_ Hlt]. by apply Qlt_le_weak.
  - unfold parseCdgFile, CDG_PACKET_SIZE. cbn [packets].
    etransitivity; [apply omap_length_le |]. by rewrite length_seq.
Qed.

Lemma parseCdgFile_times_witness :
  let d := parseCdgFile (tilePacket ++ scrollPacket) in
  StronglySorted Qlt (map timeMs (packets d))
  /\ Forall (fun pk => (0 <= timeMs pk)%Q /\ (timeMs pk < durationMs d)%Q) (packets d)
  /\ upTo (durationMs d) (packets d) = packets d
  /\ (length (packets d) <= length (tilePacket ++ scrollPacket) / 24)%nat.
Proof.
  apply (parseCdgFile_times (tilePacket ++ scrollPacket)). vm_compute. reflexivity.
Defined.

Section Concatenation.
Implicit Types (a b : list Z) (i k : nat).

Lemma byteAt_app_l a b i : (i < length a)%nat -> byteAt (a ++ b) i = byteAt a i.
Proof. intros Hi. unfold byteAt. by apply app_nth1. Qed.

Lemma byteAt_app_r a b i : byteAt (a ++ b) (length a + i) = byteAt b i.
Proof.
  unfold byteAt. rewrite app_nth2 by lia. f_equal. lia.
Qed.

Lemma subarray_app_l a b (from to : nat) :
  (from <= to)%nat -> (to <= length a)%nat ->
  subarray (a ++ b) from to = subarray a from to.
Proof.
  intros H1 H2. unfold subarray.
  rewrite drop_app_le by lia.
  rewrite take_app_le; [done |]. rewrite length_drop. lia.
Qed.

Lemma subarray_app_r a b (from to : nat) :
  subarray (a ++ b) (length a + from) (length a + to) = subarray b from to.
Proof.
  unfold subarray. rewrite drop_app_ge by lia.
  f_equal; [lia | f_equal; lia].
Qed.

Lemma parsePacket_app_l a b i :
  (24 * i + 24 <= length a)%nat -> parsePacket (a ++ b) i = parsePacket a i.
Proof.
  intros Hi. rewrite !parsePacket_bytes.
  rewrite !byteAt_app_l by lia. by rewrite subarray_app_l by lia.
Qed.

Lemma parsePacket_app_r a b k i :
  length a = (24 * k)%nat ->
  parsePacket (a ++ b) (k + i)
  = (fun pk => {| timeMs := packetTime (k + i); instruction := instruction pk |})
      <$> parsePacket b i.
Proof.
  intros Ha. rewrite !parsePacket_bytes.
  replace (24 * (k + i))%nat with (length a + 24 * i)%nat by lia.
  replace (length a + 24 * i + 1)%nat with (length a + (24 * i + 1))%nat by lia.
  replace (length a + 24 * i + 4)%nat with (length a + (24 * i + 4))%nat by lia.
  replace (length a + 24 * i + 20)%nat with (length a + (24 * i + 20))%nat by lia.
  rewrite !byteAt_app_r, subarray_app_r.
  destruct (negb _); [done |].
  by destruct (parseInstruction _ _).
Qed.

Lemma omap_parsePacket_app_l a b (n : nat) :
  (24 * n <= length a)%nat ->
  omap (parsePacket (a ++ b)) (seq 0 n) = omap (parsePacket a) (seq 0 n).
Proof.
  intros Hn. apply list_omap_ext, Forall2_same_length_lookup.
  split; [done |]. intros j i i' Hi Hi'.
  rewrite Hi in Hi'. injection Hi' as <-.
  apply lookup_seq in Hi as [-> Hj].
  apply parsePacket_app_l. lia.
Qed.

End Concatenation.

(** Bytes after the last complete 24-byte record are dropped: they change
    neither the packets nor the duration. *)
Theorem parseCdgFile_trailing_bytes (buffer extra : list Z) :
  (length buffer mod 24 + length extra < 24)%nat ->
  parseCdgFile (buffer ++ extra) = parseCdgFile buffer.
Proof.
  intros Hshort.
  pose proof (Nat.div_mod_eq (length buffer) 24) as Hdm.
  assert (Hnum : (length (buffer ++ extra) / 24 = length buffer / 24)%nat).
  { rewrite length_app. symmetry.
    apply (Nat.div_unique _ 24 _ (length buffer mod 24 + length extra)); lia. }
  unfold parseCdgFile, CDG_PACKET_SIZE. rewrite Hnum.
  f_equal. apply omap_parsePacket_app_l. lia.
Qed.

Lemma parseCdgFile_trailing_bytes_witness :
  parseCdgFile (tilePacket ++ [0x09; 1; 0; 0; 7]) = parseCdgFile tilePacket.
Proof.
  apply (parseCdgFile_trailing_bytes tilePacket [0x09; 1; 0; 0; 7]).
  vm_compute. lia.
Defined.

(** Decoding the concatenation of two files, the first made of [k]
    complete records, gives the packets of the first followed by those of
    the second, each with its instruction and with the stamp of its record
    counted from the start of the concatenation: record [i] of the second
    file is stamped as record [k + i]. The duration is that of the records
    of both. (Every stamp is rounded on its own, so the later stamps are
    not in general those of the second file plus the duration of the
    first.) *)
Theorem parseCdgFile_app (a b : list Z) (k : nat) :
  length a = (24 * k)%nat ->
  exists tail,
    packets (parseCdgFile (a ++ b)) = packets (parseCdgFile a) ++ tail
    /\ Forall2 (fun pk pk' =>
                  instruction pk = instruction pk'
                  /\ exists i, timeMs pk' = packetTime i /\ timeMs pk = packetTime (k + i))
         tail (packets (parseCdgFile b))
    /\ durationMs (parseCdgFile a) = packetTime k
    /\ durationMs (parseCdgFile (a ++ b)) = packetTime (k + length b / 24).
Proof.
  intros Ha.
  assert (Hka : (length a / 24 = k)%nat).
  { rewrite Ha, Nat.mul_comm. by apply Nat.div_mul. }
  assert (Hnum : (length (a ++ b) / 24 = k + length b / 24)%nat).
  { rewrite length_app, Ha, (Nat.mul_comm 24 k). by apply Nat.div_add_l. }
  exists (omap (parsePacket (a ++ b)) (seq k (length b / 24))).
  unfold parseCdgFile, CDG_PACKET_SIZE. cbn [packets durationMs].
  rewrite Hnum, Hka. split; [| split; [| split; reflexivity]].
  - rewrite seq_app, omap_app. f_equal.
    apply omap_parsePacket_app_l. lia.
  - assert (Hseq : seq k (length b / 24) = Nat.add k <$> seq 0 (length b / 24)).
    { rewrite fmap_add_seq. f_equal. lia. }
    rewrite Hseq. generalize (seq 0 (length b / 24)).
    intros l. induction l as [|i l IH]; [constructor |].
    cbn [fmap list_fmap omap list_omap].
    rewrite (parsePacket_app_r a b k i Ha).
    destruct (parsePacket b i) as [pk|] eqn:Hpk; cbn [fmap option_fmap option_map];
      [| exact IH].
    constructor; [| exact IH]. cbn [instruction timeMs]. split; [done |].
    exists i. split; [exact (parsePacket_time _ _ _ Hpk) | reflexivity].
Qed.

Lemma parseCdgFile_app_witness :
  exists tail,
    packets (parseCdgFile (tilePacket ++ scrollPacket))
      = packets (parseCdgFile tilePacket) ++ tail
    /\ Forall2 (fun pk pk' =>
                  instruction pk = instruction pk'
                  /\ exists i, timeMs pk' = packetTime i /\ timeMs pk = packetTime (1 + i))
         tail (packets (parseCdgFile scrollPacket))
    /\ durationMs (parseCdgFile tilePacket) = packetTime 1
    /\ durationMs (parseCdgFile (tilePacket ++ scrollPacket))
       = packetTime (1 + length scrollPacket / 24).
Proof.
  apply (parseCdgFile_app tilePacket scrollPacket 1). reflexivity.
Defined.

(** The stamps do not add up: record 1209 is stamped 4030.0000000000005,
    records 9 and 1200 are stamped 30 and 4000. *)
Lemma packetTime_not_additive :
  ~ (packetTime (1200 + 9) == packetTime 9 + packetTime 1200)%Q.
Proof. intros H. vm_compute in H. discriminate H. Qed.

Section MaskedBytes.
Implicit Types (data : list Z).

Lemma land_land_six (v m : Z) : Z.land 0x3f m = m -> Z.land (Z.land v 0x3f) m = Z.land v m.
Proof. intros Hm. by rewrite <- Z.land_assoc, Hm. Qed.

Lemma byteAt_lowSixBits data (i : nat) :
  byteAt (lowSixBits data) i = Z.land (byteAt data i) 0x3f.
Proof.
  unfold byteAt, lowSixBits.
  change 0 with ((fun v => Z.land v 0x3f) 0) at 1. apply map_nth.
Qed.

Lemma subarray_lowSixBits data (from to : nat) :
  subarray (lowSixBits data) from to = lowSixBits (subarray data from to).
Proof.
  unfold subarray, lowSixBits. by rewrite <- !fmap_drop, <- !fmap_take.
Qed.

Lemma parseColor_lowSixBits data (i : nat) :
  parseColor (lowSixBits data) i = parseColor data i.
Proof.
  unfold parseColor. rewrite !byteAt_lowSixBits.
  by rewrite !(land_land_six _ 0x3f).
Qed.

(** [parseInstruction] reads the low six bits of the data bytes only. *)
Lemma parseInstruction_lowSixBits (opcode : Z) data :
  parseInstruction opcode (lowSixBits data) = parseInstruction opcode data.
Proof.
  assert (Hpx : map (fun v => Z.land v 0x3f) (subarray (lowSixBits data) 4 16)
                = map (fun v => Z.land v 0x3f) (subarray data 4 16)).
  { rewrite subarray_lowSixBits. unfold lowSixBits. rewrite map_map.
    apply map_ext. intros v. by apply land_land_six. }
  assert (Hcolors : map (parseColor (lowSixBits data)) (seq 0 8)
                    = map (parseColor data) (seq 0 8)).
  { apply map_ext. intros i. apply parseColor_lowSixBits. }
  unfold parseInstruction. rewrite Hpx, Hcolors, !byteAt_lowSixBits.
  by rewrite !(land_land_six _ 0x0f), !(land_land_six _ 0x1f),
    !(land_land_six _ 0x3f), !(land_land_six _ 0x30), !(land_land_six _ 0x07).
Qed.

Lemma lowSixBits_eq_lookup (b1 b2 : list Z) (from to : nat) :
  (forall k, (from <= k < to)%nat ->
     Z.land (byteAt b1 k) 0x3f = Z.land (byteAt b2 k) 0x3f) ->
  length b1 = length b2 ->
  lowSixBits (subarray b1 from to) = lowSixBits (subarray b2 from to).
Proof.
  intros Hk Hlen. rewrite <- !subarray_lowSixBits. unfold subarray.
  apply list_eq. intros j.
  destruct (decide (j < to - from)%nat) as [Hj|Hj].
  - rewrite !lookup_take_lt, !lookup_drop by lia.
    specialize (Hk (from + j)%nat ltac:(lia)).
    rewrite <- !byteAt_lowSixBits in Hk. unfold byteAt in Hk.
    destruct (decide (from + j < length b1)%nat) as [Hin|Hout].
    + destruct (lookup_lt_is_Some_2 (lowSixBits b1) (from + j)) as [v1 Hv1].
      { unfold lowSixBits. rewrite length_map. lia. }
      destruct (lookup_lt_is_Some_2 (lowSixBits b2) (from + j)) as [v2 Hv2].
      { unfold lowSixBits. rewrite length_map. lia. }
      rewrite (nth_lookup_Some _ _ _ _ Hv1), (nth_lookup_Some _ _ _ _ Hv2) in Hk.
      congruence.
    + rewrite !lookup_ge_None_2; [done | |];
        unfold lowSixBits; rewrite length_map; lia.
  - by rewrite !lookup_take_ge by lia.
Qed.

End MaskedBytes.

(** The decoder looks at nothing but the low six bits of bytes 0, 1 and 4
    to 19 of each record: two files of the same length that agree there
    decode to the same packets, whatever bytes 2, 3, 20 to 23 and the two
    top bits of every byte hold. *)
Theorem parseCdgFile_reads_low_bits (b1 b2 : list Z) :
  length b1 = length b2 ->
  (forall k, reservedByte k = false ->
     Z.land (byteAt b1 k) 0x3f = Z.land (byteAt b2 k) 0x3f) ->
  parseCdgFile b1 = parseCdgFile b2.
Proof.
  intros Hlen Hbytes.
  assert (Hread : forall i j, (j < 2 \/ 4 <= j < 20)%nat ->
            Z.land (byteAt b1 (24 * i + j)) 0x3f = Z.land (byteAt b2 (24 * i + j)) 0x3f).
  { intros i j Hj. apply Hbytes. unfold reservedByte.
    apply bool_decide_eq_false.
    replace ((24 * i + j) mod 24)%nat with j.
    - rewrite !elem_of_cons, elem_of_nil. lia.
    - rewrite Nat.add_comm, Nat.mul_comm, Nat.Div0.mod_add.
      symmetry. apply Nat.mod_small. lia. }
  unfold parseCdgFile. rewrite Hlen. f_equal.
  apply list_omap_ext, Forall2_same_length_lookup.
  split; [done |]. intros j i i' Hi Hi'.
  rewrite Hi in Hi'. injection Hi' as <-. clear Hi.
  rewrite !parsePacket_bytes.
  pose proof (Hread i 0%nat ltac:(lia)) as H0. rewrite Nat.add_0_r in H0.
  rewrite H0, (Hread i 1%nat ltac:(lia)).
  rewrite <- (parseInstruction_lowSixBits _ (subarray b1 _ _)).
  rewrite <- (parseInstruction_lowSixBits _ (subarray b2 _ _)).
  rewrite (lowSixBits_eq_lookup b1 b2); [done | | done].
  intros k Hk. replace k with (24 * i + (k - 24 * i))%nat by lia.
  apply Hread. lia.
Qed.

Lemma parseCdgFile_reads_low_bits_witness :
  parseCdgFile tilePacket
  = parseCdgFile
      [0x09; 0x26; 5; 6; 0x13; 0x3f; 0x25; 0x07; 63; 0; 63; 0; 63; 0; 63; 0; 63; 0; 63; 0;
       1; 2; 3; 4].
Proof.
  apply parseCdgFile_reads_low_bits; [reflexivity |].
  intros k Hk.
  destruct (decide (k < 24)%nat) as [Hlt|Hge].
  - do 24 (destruct k as [|k]; [first [reflexivity | discriminate Hk] |]).
    exfalso. clear Hk. lia.
  - unfold byteAt, tilePacket.
    rewrite !nth_overflow; [reflexivity | |]; cbn [length]; lia.
Defined.

(** * More on the renderer *)

Section Cells.
Implicit Types (rd : CdgRenderer) (px : list Z).

Lemma gridSized_length rd : gridSized rd -> Z.of_nat (length (pixels rd)) = 64800.
Proof. unfold gridSized. intros ->. reflexivity. Qed.

Lemma toInt_u8_get_nth px (i : Z) :
  0 <= i -> toInt (u8_get px i) = nth (Z.to_nat i) px 0.
Proof.
  intros Hi. unfold u8_get. destruct (Z.ltb_spec i 0); [lia |].
  rewrite (nth_lookup _ _ 0). by destruct (px !! Z.to_nat i).
Qed.

(** The test [(v >> k) & 1] of [drawTile] reads bit [k] of [v]. *)
Lemma shiftr_land_one (v k : Z) :
  0 <= k -> (Z.land (Z.shiftr v k) 1 =? 0) = negb (Z.testbit v k).
Proof.
  intros Hk. change 1 with (Z.ones 1). rewrite Z.land_ones by lia.
  change (2 ^ 1) with 2. rewrite <- Z.bit0_mod, Z.shiftr_spec by lia.
  rewrite Z.add_0_l. by destruct (Z.testbit v k).
Qed.

Lemma pixelAt_defined rd (x y : Z) :
  gridSized rd -> 0 <= x < CDG_WIDTH -> 0 <= y < CDG_HEIGHT ->
  is_Some (pixelAt rd x y).
Proof.
  intros Hsz%gridSized_length Hx Hy. apply u8_get_lt_Some.
  unfold CDG_WIDTH, CDG_HEIGHT in *. lia.
Qed.

Lemma pixelAt_nibble rd (x y v : Z) :
  gridInRange rd -> pixelAt rd x y = Some v -> nibble v.
Proof.
  intros [_ Hall] Hv. unfold pixelAt, u8_get in Hv.
  destruct (_ <? 0); [done |].
  rewrite Forall_lookup in Hall. by eapply Hall.
Qed.

(** An instruction whose fields lie in the ranges of the decoder keeps the
    cells of the grid in range. *)
Lemma applyInstruction_fields_range rd (inst : CdgInstruction) :
  decodedFields inst -> gridInRange rd -> gridInRange (applyInstruction rd inst).
Proof.
  intros Hdec Hrd.
  assert (Hinv : rangeInv (Z.to_nat (CDG_WIDTH * CDG_HEIGHT)) (pixels rd)) by exact Hrd.
  clear Hrd.
  cut (rangeInv (Z.to_nat (CDG_WIDTH * CDG_HEIGHT)) (pixels (applyInstruction rd inst)));
    [intros H; exact H |].
  destruct inst as [color repeat | color | xor c0 c1 row column tp
                   | copy color hs vs ho vo | color | offset colors];
    cbn [applyInstruction decodedFields] in *.
  - destruct Hdec as [Hc _]. destruct (repeat =? 0); [| done].
    cbn [pixels]. destruct Hinv as [Hlen Hall]. rewrite <- Hlen.
    by apply u8_fill_range.
  - by apply drawBorder_range.
  - destruct Hdec as (H0 & H1 & _). by apply drawTile_range.
  - destruct Hdec as (Hc & _). cbn [pixels].
    destruct (_ || _); [| done]. apply scrollDisplay_range; [apply Hinv | done].
  - done.
  - done.
Qed.

End Cells.

(** A tile inside the grid: the cell at column [x - 6 * column] of row
    [y - 12 * row] of the tile takes [color1] where bit [5 - column] of the
    tile's row is set and [color0] where it is clear, combined by XOR with
    the old value for an XOR tile; every cell outside the tile keeps its
    value. *)
Theorem tileBlock_pixels (rd : CdgRenderer) (xor : bool)
    (color0 color1 row column : Z) (tilePixels : list Z) (x y : Z) :
  gridInRange rd -> nibble color0 -> nibble color1 ->
  tileInBounds row column ->
  0 <= x < CDG_WIDTH -> 0 <= y < CDG_HEIGHT ->
  let bit := Z.testbit (nth (Z.to_nat (y - row * 12)) tilePixels 0)
               (5 - (x - column * 6)) in
  let color := if bit then color1 else color0 in
  pixelAt (applyInstruction rd (tileBlock xor color0 color1 row column tilePixels)) x y
  = if decide (column * 6 <= x < column * 6 + 6 /\ row * 12 <= y < row * 12 + 12)
    then (if xor then (fun old => Z.lxor old color) <$> pixelAt rd x y
          else Some color)
    else pixelAt rd x y.
Proof.
  intros Hrd Hc0 Hc1 (Hrow & Hcol & Hx & Hy) Hxr Hyr bit color.
  destruct (pixelAt_defined rd x y (proj1 Hrd) Hxr Hyr) as [old Hold].
  pose proof (pixelAt_nibble rd x y old Hrd Hold) as Hnib.
  destruct Hrd as [Hsz _]. apply gridSized_length in Hsz.
  unfold pixelAt in *. cbn [applyInstruction pixels].
  rewrite drawTile_rect by done.
  unfold CDG_TILE_WIDTH, CDG_TILE_HEIGHT, CDG_HEIGHT in *.
  destruct (updateRect_spec
              (tileCell xor color0 color1 tilePixels (column * 6) (row * 12))
              (row * 12) (row * 12 + 12) (column * 6) (column * 6 + 6) (pixels rd))
    as [_ Hget]; [unfold CDG_WIDTH in *; lia .. |].
  rewrite Hget by (unfold CDG_WIDTH in *; lia). clear Hget.
  repeat case_decide; try (exfalso; lia); [| done].
  rewrite Hold. cbn [toInt default fmap option_fmap option_map].
  unfold tileCell.
  rewrite toInt_u8_get_nth, shiftr_land_one by lia. fold bit.
  assert (Hcolor : (if negb bit then color0 else color1) = color)
    by (subst color; by destruct bit).
  rewrite Hcolor.
  assert (Hnc : nibble color) by (subst color; by destruct bit).
  destruct xor; f_equal; apply nibble_byte; [by apply lxor_nibble | done].
Qed.

Lemma tileBlock_pixels_witness :
  let bit := Z.testbit (nth (Z.to_nat (24 - 2 * 12)) [63; 0] 0) (5 - (18 - 3 * 6)) in
  let color := if bit then 5 else 0 in
  pixelAt (applyInstruction newRenderer (tileBlock false 0 5 2 3 [63; 0])) 18 24
  = if decide (3 * 6 <= 18 < 3 * 6 + 6 /\ 2 * 12 <= 24 < 2 * 12 + 12)
    then (if false then (fun old => Z.lxor old color) <$> pixelAt newRenderer 18 24
          else Some color)
    else pixelAt newRenderer 18 24.
Proof.
  apply (tileBlock_pixels newRenderer false 0 5 2 3 [63; 0] 18 24).
  - apply gridInRange_new.
  - unfold nibble. lia.
  - unfold nibble. lia.
  - unfold tileInBounds, CDG_TILE_WIDTH, CDG_TILE_HEIGHT, CDG_WIDTH, CDG_HEIGHT. lia.
  - unfold CDG_WIDTH. lia.
  - unfold CDG_HEIGHT. lia.
Defined.

(** A tile whose 6 x 12 box would pass the right or the bottom edge of the
    grid (column above 49 or row above 17; the decoder produces columns up
    to 63 and rows up to 31) is dropped: the renderer is left as it was. *)
Theorem tileBlock_out_of_bounds (rd : CdgRenderer) (xor : bool)
    (color0 color1 row column : Z) (tilePixels : list Z) :
  49 < column \/ 17 < row ->
  applyInstruction rd (tileBlock xor color0 color1 row column tilePixels) = rd.
Proof.
  intros Hout. destruct rd as [px pal tc bc ho vo].
  cbn [applyInstruction pixels palette transparentColor borderColor hOffset vOffset].
  f_equal. unfold drawTile, CDG_TILE_WIDTH, CDG_TILE_HEIGHT, CDG_WIDTH, CDG_HEIGHT.
  destruct (Z.gtb_spec (column * 6 + 6) 300), (Z.gtb_spec (row * 12 + 12) 216);
    try reflexivity.
  lia.
Qed.

Lemma tileBlock_out_of_bounds_witness :
  parseInstruction 6 [1; 2; 31; 63; 63; 63; 63; 63; 63; 63; 63; 63; 63; 63; 63; 63]
  = Some (tileBlock false 1 2 31 63 (replicate 12 63))
  /\ applyInstruction newRenderer (tileBlock false 1 2 31 63 (replicate 12 63))
     = newRenderer.
Proof.
  split; [reflexivity |].
  apply (tileBlock_out_of_bounds newRenderer false 1 2 31 63 (replicate 12 63)).
  lia.
Defined.

(** [memoryPreset] with repeat 0 sets every cell of the grid to the colour,
    whatever was drawn before; with any other repeat count it leaves the
    cells as they were. In both cases the palette, the transparent index,
    the border colour and the offsets stay. *)
Theorem memoryPreset_fills (rd : CdgRenderer) (color repeat x y : Z) :
  gridSized rd -> nibble color ->
  0 <= x < CDG_WIDTH -> 0 <= y < CDG_HEIGHT ->
  let rd' := applyInstruction rd (memoryPreset color repeat) in
  pixelAt rd' x y = (if decide (repeat = 0) then Some color else pixelAt rd x y)
  /\ gridSized rd' /\ palette rd' = palette rd
  /\ transparentColor rd' = transparentColor rd /\ borderColor rd' = borderColor rd
  /\ hOffset rd' = hOffset rd /\ vOffset rd' = vOffset rd.
Proof.
  intros Hsz Hc Hx Hy rd'. subst rd'. cbn [applyInstruction].
  destruct (Z.eqb_spec repeat 0) as [->|Hr]; case_decide; try done.
  cbn [pixels palette transparentColor borderColor hOffset vOffset].
  split; [| split; [| done]].
  - unfold pixelAt, u8_get. cbn [pixels].
    apply gridSized_length in Hsz. unfold CDG_WIDTH, CDG_HEIGHT in *.
    destruct (Z.ltb_spec (y * 300 + x) 0); [lia |].
    unfold u8_fill. rewrite lookup_replicate_2 by lia.
    by rewrite nibble_byte.
  - unfold gridSized, u8_fill in *. cbn [pixels]. by rewrite length_replicate.
Qed.

Lemma memoryPreset_fills_witness :
  let rd := applyInstruction newRenderer (tileBlock false 0 5 2 3 (replicate 12 63)) in
  let rd' := applyInstruction rd (memoryPreset 7 0) in
  pixelAt rd' 18 24 = (if decide (0 = 0) then Some 7 else pixelAt rd 18 24)
  /\ gridSized rd' /\ palette rd' = palette rd
  /\ transparentColor rd' = transparentColor rd /\ borderColor rd' = borderColor rd
  /\ hOffset rd' = hOffset rd /\ vOffset rd' = vOffset rd.
Proof.
  apply (memoryPreset_fills
           (applyInstruction newRenderer (tileBlock false 0 5 2 3 (replicate 12 63)))
           7 0 18 24).
  - apply applyInstruction_gridSized, gridSized_new.
  - unfold nibble. lia.
  - unfold CDG_WIDTH. lia.
  - unfold CDG_HEIGHT. lia.
Defined.

Section Palette.
Context {A : Type}.
Implicit Types (pal : list (option A)) (colors : list A).

Lemma array_get_lookup pal (k : nat) : array_get pal (Z.of_nat k) = mjoin (pal !! k).
Proof.
  unfold array_get. destruct (Z.ltb_spec (Z.of_nat k) 0); [lia |].
  by rewrite Nat2Z.id.
Qed.

Lemma array_ext pal pal' :
  length pal = length pal' ->
  (forall i, 0 <= i -> array_get pal i = array_get pal' i) -> pal = pal'.
Proof.
  intros Hlen Hget. apply list_eq. intros k.
  specialize (Hget (Z.of_nat k) ltac:(lia)). rewrite !array_get_lookup in Hget.
  destruct (decide (k < length pal)%nat) as [Hlt|Hge].
  - destruct (lookup_lt_is_Some_2 pal k Hlt) as [v Hv].
    destruct (lookup_lt_is_Some_2 pal' k ltac:(lia)) as [v' Hv'].
    rewrite Hv, Hv' in *. cbn in Hget. by subst.
  - by rewrite !lookup_ge_None_2 by lia.
Qed.

Lemma array_set_inside pal (i : Z) (v : option A) :
  0 <= i < Z.of_nat (length pal) ->
  length (array_set pal i v) = length pal
  /\ forall j, array_get (array_set pal i v) j
               = if decide (j = i) then v else array_get pal j.
Proof.
  intros Hi. unfold array_set.
  destruct (Z.ltb_spec i 0); [lia |].
  destruct (Nat.ltb_spec (Z.to_nat i) (length pal)); [| lia].
  split; [apply length_insert |]. intros j. unfold array_get.
  destruct (Z.ltb_spec j 0); [by case_decide; [lia |] |].
  case_decide as Hj.
  - subst j. by rewrite list_lookup_insert_eq by lia.
  - by rewrite list_lookup_insert_ne by lia.
Qed.

(** The loop of the [loadColorTable] case, for a table that lies inside
    the palette. *)
Lemma loadColors_spec pal (offset : Z) colors :
  0 <= offset -> offset + 8 <= Z.of_nat (length pal) ->
  let pal' := forZ 0 8 (fun i pal =>
                array_set pal (offset + i) (colors !! Z.to_nat i)) pal in
  length pal' = length pal
  /\ forall i, array_get pal' i
               = if decide (offset <= i < offset + 8)
                 then colors !! Z.to_nat (i - offset) else array_get pal i.
Proof.
  intros Hoff Hlen pal'. subst pal'.
  refine (forZ_invariant
            (fun n t => length t = length pal
                        /\ forall i, array_get t i
                             = if decide (offset <= i < offset + n)
                               then colors !! Z.to_nat (i - offset)
                               else array_get pal i) _ _ _ _ _ _ _); [lia | |].
  - split; [done |]. intros i. by case_decide; [lia |].
  - cbv beta. intros j t Hj [Hlt Hget].
    destruct (array_set_inside t (offset + j) (colors !! Z.to_nat j)) as [Hl Hg];
      [lia |].
    split; [congruence |]. intros i. rewrite Hg, Hget.
    repeat case_decide; try lia; try done.
    subst i. do 2 f_equal. lia.
Qed.

End Palette.

(** [loadColorTable] replaces the eight palette entries from [offset] on by
    the eight colours of the table, in order, and leaves the other entries,
    the size of the palette and the rest of the renderer as they were. *)
Theorem loadColorTable_slots (rd : CdgRenderer) (offset : Z) (colors : list CdgColor)
    (i : Z) :
  length (palette rd) = 16%nat -> 0 <= offset <= 8 ->
  let rd' := applyInstruction rd (loadColorTable offset colors) in
  array_get (getPalette rd') i
  = (if decide (offset <= i < offset + 8) then colors !! Z.to_nat (i - offset)
     else array_get (getPalette rd) i)
  /\ length (getPalette rd') = 16%nat
  /\ pixels rd' = pixels rd /\ transparentColor rd' = transparentColor rd
  /\ borderColor rd' = borderColor rd
  /\ hOffset rd' = hOffset rd /\ vOffset rd' = vOffset rd.
Proof.
  intros Hlen Hoff rd'. subst rd'. unfold getPalette.
  cbn [applyInstruction pixels palette transparentColor borderColor hOffset vOffset].
  destruct (loadColors_spec (palette rd) offset colors) as [Hl Hg]; [lia | lia |].
  cbv zeta in Hl, Hg. rewrite Hg, Hl. done.
Qed.

Lemma loadColorTable_slots_witness :
  let rd' := applyInstruction newRenderer
               (loadColorTable 8 (replicate 8 (mkColor 255 0 17))) in
  array_get (getPalette rd') 9
  = (if decide (8 <= 9 < 8 + 8)
     then replicate 8 (mkColor 255 0 17) !! Z.to_nat (9 - 8)
     else array_get (getPalette newRenderer) 9)
  /\ length (getPalette rd') = 16%nat
  /\ pixels rd' = pixels newRenderer
  /\ transparentColor rd' = transparentColor newRenderer
  /\ borderColor rd' = borderColor newRenderer
  /\ hOffset rd' = hOffset newRenderer /\ vOffset rd' = vOffset newRenderer.
Proof.
  apply (loadColorTable_slots newRenderer 8 (replicate 8 (mkColor 255 0 17)) 9).
  - reflexivity.
  - lia.
Defined.

(** The low and the high colour table together define the whole palette:
    after both, in either order, [getPalette] lists the eight colours of
    the low table followed by the eight of the high table, whatever the
    palette held before. *)
Theorem loadColorTable_lo_hi (rd : CdgRenderer) (lo hi : list CdgColor) :
  length (palette rd) = 16%nat -> length lo = 8%nat -> length hi = 8%nat ->
  getPalette (applyInstruction (applyInstruction rd (loadColorTable 0 lo))
                (loadColorTable 8 hi)) = Some <$> (lo ++ hi)
  /\ getPalette (applyInstruction (applyInstruction rd (loadColorTable 8 hi))
                   (loadColorTable 0 lo)) = Some <$> (lo ++ hi).
Proof.
  intros Hlen Hlo Hhi.
  assert (Hall : forall i, 0 <= i ->
            array_get (Some <$> (lo ++ hi)) i
            = if decide (0 <= i < 8) then lo !! Z.to_nat i
              else if decide (8 <= i < 16) then hi !! Z.to_nat (i - 8) else None).
  { intros i Hi. unfold array_get. destruct (Z.ltb_spec i 0); [lia |].
    rewrite list_lookup_fmap.
    repeat case_decide.
    - rewrite lookup_app_l by lia.
      by destruct (lo !! Z.to_nat i).
    - rewrite lookup_app_r by lia.
      replace (Z.to_nat i - length lo)%nat with (Z.to_nat (i - 8)) by lia.
      by destruct (hi !! Z.to_nat (i - 8)).
    - rewrite lookup_ge_None_2; [done |]. rewrite length_app. lia. }
  assert (Hout : forall pal : list (option CdgColor), forall i,
            length pal = 16%nat -> 16 <= i -> array_get pal i = None).
  { intros pal i Hp Hi. unfold array_get. destruct (Z.ltb_spec i 0); [lia |].
    rewrite lookup_ge_None_2; [done | lia]. }
  assert (loadColorTable_lookup : forall (rd : CdgRenderer) offset colors i,
            length (palette rd) = 16%nat -> 0 <= offset <= 8 ->
            array_get (getPalette (applyInstruction rd (loadColorTable offset colors))) i
            = (if decide (offset <= i < offset + 8) then colors !! Z.to_nat (i - offset)
               else array_get (getPalette rd) i)
            /\ length (getPalette (applyInstruction rd (loadColorTable offset colors)))
               = 16%nat).
  { intros rd0 offset colors i Hl0 Hoff. unfold getPalette.
    cbn [applyInstruction palette].
    destruct (loadColors_spec (palette rd0) offset colors) as [Hl Hg]; [lia | lia |].
    cbv zeta in Hl, Hg. rewrite Hg, Hl. done. }
  split; apply array_ext.
  - destruct (loadColorTable_lookup rd 0 lo 0 Hlen ltac:(lia)) as (_ & Hl1).
    destruct (loadColorTable_lookup _ 8 hi 0 Hl1 ltac:(lia)) as (_ & Hl2).
    rewrite Hl2, length_fmap, length_app. lia.
  - intros i Hi.
    destruct (loadColorTable_lookup rd 0 lo i Hlen ltac:(lia)) as (Hg1 & Hl1).
    destruct (loadColorTable_lookup _ 8 hi i Hl1 ltac:(lia)) as (Hg2 & Hl2).
    cbv zeta in *. rewrite Hg2, Hg1, Hall by done.
    repeat case_decide; try lia; try done.
    + do 2 f_equal. lia.
    + apply Hout; [done | lia].
  - destruct (loadColorTable_lookup rd 8 hi 0 Hlen ltac:(lia)) as (_ & Hl1).
    destruct (loadColorTable_lookup _ 0 lo 0 Hl1 ltac:(lia)) as (_ & Hl2).
    rewrite Hl2, length_fmap, length_app. lia.
  - intros i Hi.
    destruct (loadColorTable_lookup rd 8 hi i Hlen ltac:(lia)) as (Hg1 & Hl1).
    destruct (loadColorTable_lookup _ 0 lo i Hl1 ltac:(lia)) as (Hg2 & Hl2).
    cbv zeta in *. rewrite Hg2, Hg1, Hall by done.
    repeat case_decide; try lia; try done.
    + do 2 f_equal. lia.
    + apply Hout; [done | lia].
Qed.

Lemma loadColorTable_lo_hi_witness :
  getPalette (applyInstruction
                (applyInstruction newRenderer
                   (loadColorTable 0 (map (parseColor (replicate 16 0x3f)) (seq 0 8))))
                (loadColorTable 8 (map (parseColor (replicate 16 0x15)) (seq 0 8))))
  = Some <$> (map (parseColor (replicate 16 0x3f)) (seq 0 8)
              ++ map (parseColor (replicate 16 0x15)) (seq 0 8))
  /\ getPalette (applyInstruction
                   (applyInstruction newRenderer
                      (loadColorTable 8 (map (parseColor (replicate 16 0x15)) (seq 0 8))))
                   (loadColorTable 0 (map (parseColor (replicate 16 0x3f)) (seq 0 8))))
     = Some <$> (map (parseColor (replicate 16 0x3f)) (seq 0 8)
                 ++ map (parseColor (replicate 16 0x15)) (seq 0 8)).
Proof.
  apply (loadColorTable_lo_hi newRenderer); reflexivity.
Defined.

Section Scrolling.
Implicit Types (px : list Z) (rd : CdgRenderer).

(** The wrap-around [((a % n) + n) % n] of [scrollDisplay] is the
    remainder of the floored division. *)
Lemma rem_wrap (a n : Z) : 0 < n -> Z.rem (Z.rem a n + n) n = a mod n.
Proof.
  intros Hn.
  pose proof (Z.rem_bound_abs a n ltac:(lia)) as Hb.
  rewrite Z.rem_mod_nonneg by lia.
  pose proof (Z.quot_rem' a n) as Hq.
  replace (Z.rem a n + n) with (a + (1 - a ÷ n) * n) by lia.
  apply Z_mod_plus_full.
Qed.

Lemma scrollDisplay_rect copy color hScroll vScroll px :
  scrollDisplay copy color hScroll vScroll px
  = updateRect 0 CDG_HEIGHT 0 CDG_WIDTH
      (fun y x _ => scrollCell copy color (scrollStep hScroll CDG_TILE_WIDTH)
                      (scrollStep vScroll CDG_TILE_HEIGHT) px y x)
      (u8_new (CDG_WIDTH * CDG_HEIGHT)).
Proof.
  unfold scrollDisplay, updateRect, scrollStep, scrollCell. cbv zeta.
  apply forZ_ext. intros y t _. apply forZ_ext. intros x u _.
  destruct copy; [done |]. by destruct (_ || _).
Qed.

Lemma scrollDisplay_get copy color hScroll vScroll px (x y : Z) :
  0 <= x < CDG_WIDTH -> 0 <= y < CDG_HEIGHT ->
  u8_get (scrollDisplay copy color hScroll vScroll px) (y * CDG_WIDTH + x)
  = Some (scrollCell copy color (scrollStep hScroll CDG_TILE_WIDTH)
            (scrollStep vScroll CDG_TILE_HEIGHT) px y x mod 256).
Proof.
  intros Hx Hy. rewrite scrollDisplay_rect.
  destruct (updateRect_spec
              (fun y x (_ : Z) => scrollCell copy color (scrollStep hScroll CDG_TILE_WIDTH)
                              (scrollStep vScroll CDG_TILE_HEIGHT) px y x)
              0 CDG_HEIGHT 0 CDG_WIDTH (u8_new (CDG_WIDTH * CDG_HEIGHT)))
    as [_ Hget].
  - unfold CDG_WIDTH. lia.
  - lia.
  - unfold CDG_HEIGHT. lia.
  - unfold u8_new. rewrite length_replicate. unfold CDG_WIDTH, CDG_HEIGHT. lia.
  - rewrite Hget by lia. case_decide; [done | lia].
Qed.

Lemma scrollCell_copy color hDir vDir px (x y : Z) :
  scrollCell true color hDir vDir px y x
  = toInt (u8_get px (((y + vDir) mod CDG_HEIGHT) * CDG_WIDTH
                      + (x + hDir) mod CDG_WIDTH)).
Proof.
  unfold scrollCell. cbv zeta.
  by rewrite !rem_wrap by (unfold CDG_WIDTH, CDG_HEIGHT; lia).
Qed.

End Scrolling.

(** A scroll with a direction moves the grid by whole tiles: in copy mode
    the cell at [(x, y)] takes the value of the cell [hDir] columns and
    [vDir] rows further, wrapping around both edges; in preset mode it takes
    that value when the source lies inside the grid and the scroll colour
    when it does not. A direction value of 3 moves by nothing. *)
Theorem scroll_pixels (rd : CdgRenderer) (copy : bool)
    (color hScroll vScroll hOff vOff x y : Z) :
  gridInRange rd -> nibble color ->
  hScroll <> 0 \/ vScroll <> 0 ->
  0 <= x < CDG_WIDTH -> 0 <= y < CDG_HEIGHT ->
  let hDir := scrollStep hScroll CDG_TILE_WIDTH in
  let vDir := scrollStep vScroll CDG_TILE_HEIGHT in
  pixelAt (applyInstruction rd (scroll copy color hScroll vScroll hOff vOff)) x y
  = if copy then pixelAt rd ((x + hDir) mod CDG_WIDTH) ((y + vDir) mod CDG_HEIGHT)
    else if decide (0 <= x + hDir < CDG_WIDTH /\ 0 <= y + vDir < CDG_HEIGHT)
         then pixelAt rd (x + hDir) (y + vDir)
         else Some color.
Proof.
  intros Hrd Hc Hdir Hx Hy hDir vDir.
  assert (Hcall : negb (hScroll =? 0) || negb (vScroll =? 0) = true).
  { destruct (Z.eqb_spec hScroll 0), (Z.eqb_spec vScroll 0); try done. lia. }
  unfold pixelAt at 1. cbn [applyInstruction pixels]. rewrite Hcall.
  rewrite scrollDisplay_get by done. fold hDir vDir.
  assert (Hsrc : forall sx sy, 0 <= sx < CDG_WIDTH -> 0 <= sy < CDG_HEIGHT ->
            Some (toInt (u8_get (pixels rd) (sy * CDG_WIDTH + sx)) mod 256)
            = pixelAt rd sx sy).
  { intros sx sy Hsx Hsy.
    destruct (pixelAt_defined rd sx sy (proj1 Hrd) Hsx Hsy) as [v Hv].
    pose proof (pixelAt_nibble rd sx sy v Hrd Hv) as Hn.
    unfold pixelAt in *. rewrite Hv. cbn [toInt default]. by rewrite nibble_byte. }
  destruct copy.
  - rewrite scrollCell_copy. apply Hsrc; apply Z.mod_pos_bound.
    + unfold CDG_WIDTH. lia.
    + unfold CDG_HEIGHT. lia.
  - unfold scrollCell. cbv zeta.
    destruct (Z.ltb_spec (x + hDir) 0), (Z.geb_spec (x + hDir) CDG_WIDTH),
      (Z.ltb_spec (y + vDir) 0), (Z.geb_spec (y + vDir) CDG_HEIGHT);
      cbn [orb]; case_decide; try lia;
      first [ by rewrite nibble_byte | apply Hsrc; lia ].
Qed.

Lemma scroll_pixels_witness :
  let hDir := scrollStep 2 CDG_TILE_WIDTH in
  let vDir := scrollStep 0 CDG_TILE_HEIGHT in
  pixelAt (applyInstruction newRenderer (scroll false 9 2 0 0 0)) 3 50
  = if false then pixelAt newRenderer ((3 + hDir) mod CDG_WIDTH) ((50 + vDir) mod CDG_HEIGHT)
    else if decide (0 <= 3 + hDir < CDG_WIDTH /\ 0 <= 50 + vDir < CDG_HEIGHT)
         then pixelAt newRenderer (3 + hDir) (50 + vDir)
         else Some 9.
Proof.
  apply (scroll_pixels newRenderer false 9 2 0 0 0 3 50).
  - apply gridInRange_new.
  - unfold nibble. lia.
  - lia.
  - unfold CDG_WIDTH. lia.
  - unfold CDG_HEIGHT. lia.
Defined.

(** A copy scroll followed by the copy scroll in the opposite directions
    gives back every cell of the grid: nothing is lost over the edges. *)
Theorem scroll_copy_round_trip (rd : CdgRenderer)
    (color color' hScroll vScroll hOff vOff hOff' vOff' : Z) :
  gridInRange rd ->
  pixels (applyInstruction
            (applyInstruction rd (scroll true color hScroll vScroll hOff vOff))
            (scroll true color' (opposite hScroll) (opposite vScroll) hOff' vOff'))
  = pixels rd.
Proof.
  intros Hrd.
  destruct (decide (hScroll = 0 /\ vScroll = 0)) as [[-> ->]|Hdir]; [done |].
  assert (Hcall : negb (hScroll =? 0) || negb (vScroll =? 0) = true).
  { destruct (Z.eqb_spec hScroll 0), (Z.eqb_spec vScroll 0); try done. lia. }
  assert (Hcall' : negb (opposite hScroll =? 0) || negb (opposite vScroll =? 0) = true).
  { unfold opposite.
    destruct (Z.eqb_spec hScroll 1), (Z.eqb_spec hScroll 2),
      (Z.eqb_spec vScroll 1), (Z.eqb_spec vScroll 2); try done;
      destruct (Z.eqb_spec hScroll 0), (Z.eqb_spec vScroll 0); try done; lia. }
  assert (Hopp : forall dir tile, scrollStep (opposite dir) tile = - scrollStep dir tile).
  { intros dir tile. unfold scrollStep, opposite.
    destruct (Z.eqb_spec dir 1) as [->|]; [done |].
    destruct (Z.eqb_spec dir 2) as [->|]; [cbn; lia |].
    destruct (Z.eqb_spec dir 2); [done |]. by destruct (Z.eqb_spec dir 1). }
  cbn [applyInstruction pixels]. rewrite Hcall, Hcall'.
  pose proof (gridSized_length rd (proj1 Hrd)) as Hlen.
  apply u8_ext. intros i Hi.
  destruct (Z_lt_ge_dec i 64800) as [Hlt|Hge].
  - assert (Hix : i = (i / 300) * CDG_WIDTH + i mod 300)
      by (unfold CDG_WIDTH; pose proof (Z.div_mod i 300); lia).
    assert (Hx : 0 <= i mod 300 < CDG_WIDTH)
      by (unfold CDG_WIDTH; apply Z.mod_pos_bound; lia).
    assert (Hy : 0 <= i / 300 < CDG_HEIGHT).
    { unfold CDG_HEIGHT. split; [apply Z.div_pos; lia |].
      apply Z.div_lt_upper_bound; lia. }
    set (x := i mod 300) in *. set (y := i / 300) in *. clearbody x y.
    rewrite Hix. clear Hix.
    rewrite scrollDisplay_get, scrollCell_copy, !Hopp by done.
    set (hDir := scrollStep hScroll CDG_TILE_WIDTH).
    set (vDir := scrollStep vScroll CDG_TILE_HEIGHT).
    rewrite scrollDisplay_get
      by (split; apply Z.mod_pos_bound; unfold CDG_WIDTH, CDG_HEIGHT; lia).
    rewrite scrollCell_copy. fold hDir vDir.
    cbn [toInt default]. unfold id. rewrite Z.mod_mod by lia.
    rewrite (Z.add_mod_idemp_l (x + - hDir)), (Z.add_mod_idemp_l (y + - vDir))
      by (unfold CDG_WIDTH, CDG_HEIGHT; lia).
    replace (x + - hDir + hDir) with x by lia.
    replace (y + - vDir + vDir) with y by lia.
    rewrite (Z.mod_small x), (Z.mod_small y) by lia.
    destruct (pixelAt_defined rd x y (proj1 Hrd) Hx Hy) as [v Hv].
    pose proof (pixelAt_nibble rd x y v Hrd Hv) as Hn.
    unfold pixelAt in Hv. rewrite Hv. cbn [toInt default]. by rewrite nibble_byte.
  - unfold u8_get. destruct (i <? 0); [done |].
    rewrite !lookup_ge_None_2; [done | lia |].
    rewrite scrollDisplay_length. unfold CDG_WIDTH, CDG_HEIGHT. lia.
Qed.

Lemma scroll_copy_round_trip_witness :
  pixels (applyInstruction
            (applyInstruction
               (applyInstruction newRenderer (tileBlock false 0 5 2 3 (replicate 12 63)))
               (scroll true 0 1 2 0 0))
            (scroll true 0 (opposite 1) (opposite 2) 0 0))
  = pixels (applyInstruction newRenderer (tileBlock false 0 5 2 3 (replicate 12 63))).
Proof.
  apply (scroll_copy_round_trip
           (applyInstruction newRenderer (tileBlock false 0 5 2 3 (replicate 12 63)))).
  apply applyInstruction_fields_range; [| apply gridInRange_new].
  unfold decodedFields, nibble.
  repeat split; try lia. apply Forall_replicate. lia.
Defined.

(** * The frames *)

Section FullFrame.
Variable rd : CdgRenderer.

Lemma fullPixel_Some i rgba rgba' :
  fullPixel rd i rgba = Some rgba' ->
  exists color,
    fullColor rd i = Some color
    /\ rgba' = u8c_set (u8c_set (u8c_set (u8c_set rgba
                 (i * 4) (r color)) (i * 4 + 1) (g color)) (i * 4 + 2) (b color))
                 (i * 4 + 3) (fullAlpha rd i).
Proof.
  unfold fullPixel, fullColor, fullAlpha. cbv zeta.
  destruct (_ ≫= _) as [color|]; [| done].
  intros [= <-]. by exists color.
Qed.

Lemma fullPixel_defined i rgba :
  is_Some (fullColor rd i) -> is_Some (fullPixel rd i rgba).
Proof.
  unfold fullPixel, fullColor. cbv zeta. intros [color ->]. eauto.
Qed.

Lemma fullPixel_length i rgba rgba' :
  fullPixel rd i rgba = Some rgba' -> length rgba' = length rgba.
Proof.
  intros Hv. apply fullPixel_Some in Hv as (color & _ & ->).
  by rewrite !u8c_set_length.
Qed.

Lemma cellWritten_later i i' rgba rgba' :
  i <> i' -> fullPixel rd i' rgba = Some rgba' ->
  cellWritten rd i rgba -> cellWritten rd i rgba'.
Proof.
  intros Hne Hv (color & Hc & H0 & H1 & H2 & H3).
  apply fullPixel_Some in Hv as (color' & _ & ->).
  exists color. split; [done |].
  rewrite !u8_get_u8c_set_ne by lia. done.
Qed.

Lemma cellWritten_now i rgba rgba' :
  0 <= i -> i * 4 + 3 < Z.of_nat (length rgba) ->
  fullPixel rd i rgba = Some rgba' -> cellWritten rd i rgba'.
Proof.
  intros Hlo Hhi Hv.
  apply fullPixel_Some in Hv as (color & Hc & ->).
  exists color. split; [done |].
  rewrite u8_get_u8c_set_eq by (rewrite !u8c_set_length; lia).
  rewrite !(u8_get_u8c_set_ne _ (_ + 3)) by lia.
  rewrite u8_get_u8c_set_eq by (rewrite !u8c_set_length; lia).
  rewrite !(u8_get_u8c_set_ne _ (_ + 2)) by lia.
  rewrite u8_get_u8c_set_eq by (rewrite !u8c_set_length; lia).
  rewrite !(u8_get_u8c_set_ne _ (_ + 1)) by lia.
  rewrite u8_get_u8c_set_eq by lia.
  repeat split. unfold fullAlpha. by case_decide.
Qed.

(** No read raises: the full frame is produced. *)
Lemma getRgbaFrame_total :
  (forall i, 0 <= i < Z.of_nat (length (pixels rd)) -> is_Some (fullColor rd i)) ->
  is_Some (getRgbaFrame rd).
Proof.
  intros Hread. unfold getRgbaFrame.
  apply (forZ_preserves (fun acc : option (list Z) => is_Some acc)); [eauto |].
  intros i acc Hi [rgba ->]. cbn [mbind option_bind].
  apply fullPixel_defined. by apply Hread.
Qed.

(** The full frame, when it is produced, holds for every cell of a
    300 x 216 grid the colour and the alpha byte of the cell. *)
Lemma getRgbaFrame_cell i rgba :
  gridSized rd -> 0 <= i < CDG_WIDTH * CDG_HEIGHT ->
  getRgbaFrame rd = Some rgba ->
  length rgba = fullFrameLength /\ cellWritten rd i rgba.
Proof.
  intros Hsz%gridSized_length Hi. unfold getRgbaFrame. rewrite Hsz.
  set (Inv := fun (j : Z) (acc : option (list Z)) =>
    forall rgba, acc = Some rgba ->
      length rgba = fullFrameLength /\ (i < j -> cellWritten rd i rgba)).
  intros Hframe.
  cut (Inv 64800
         (forZ 0 64800 (fun i acc => acc ≫= fullPixel rd i)
            (Some (u8_new (CDG_WIDTH * CDG_HEIGHT * 4))))).
  { intros H. destruct (H rgba Hframe) as [Hlen Hw]. split; [done |].
    apply Hw. unfold CDG_WIDTH, CDG_HEIGHT in Hi. lia. }
  clear Hframe rgba.
  refine (forZ_invariant Inv _ _ _ _ _ _ _); [lia | |].
  - intros rgba [= <-]. split; [apply length_replicate | lia].
  - intros j acc Hj Hacc rgba' Hstep.
    destruct acc as [rgba|]; [| done]. cbn [mbind option_bind] in Hstep.
    destruct (Hacc rgba eq_refl) as [Hlen Hw].
    split; [by rewrite (fullPixel_length _ _ _ Hstep) |].
    intros Hpos. destruct (decide (i = j)) as [->|Hne].
    + apply (cellWritten_now _ rgba); [lia | | done].
      rewrite Hlen. unfold fullFrameLength, CDG_WIDTH, CDG_HEIGHT in *. lia.
    + apply (cellWritten_later _ j rgba); [done | done |]. apply Hw. lia.
Qed.

End FullFrame.

#[local] Opaque getRgbaFrame.

Lemma fullColor_defined (rd : CdgRenderer) :
  gridInRange rd -> paletteFull rd ->
  forall i, 0 <= i < Z.of_nat (length (pixels rd)) -> is_Some (fullColor rd i).
Proof.
  intros Hrd Hpal i Hi. unfold fullColor.
  destruct (u8_get_lt_Some (pixels rd) i Hi) as [c Hc]. rewrite Hc.
  cbn [mbind option_bind]. apply Hpal.
  destruct Hrd as [_ Hall]. unfold u8_get in Hc. destruct (_ <? 0); [done |].
  apply (Forall_lookup_1 _ _ _ _ Hall Hc).
Qed.

Lemma getRgbaFrame_defined (rd : CdgRenderer) :
  gridInRange rd -> paletteFull rd -> is_Some (getRgbaFrame rd).
Proof. intros Hrd Hpal. by apply getRgbaFrame_total, fullColor_defined. Qed.

(** The full frame of a renderer whose cells are palette indices and whose
    palette is complete is always produced: it has 300 x 216 x 4 bytes and
    holds, for the cell at column [x] of row [y], the three channels of the
    palette entry of the cell (saturated to a byte by the clamped array)
    and an alpha byte that is 0 when the cell holds the transparent index
    and 255 otherwise. *)
Theorem getRgbaFrame_pixels (rd : CdgRenderer) :
  gridInRange rd -> paletteFull rd ->
  exists rgba,
    getRgbaFrame rd = Some rgba
    /\ length rgba = fullFrameLength
    /\ forall x y, 0 <= x < CDG_WIDTH -> 0 <= y < CDG_HEIGHT ->
         exists idx color,
           pixelAt rd x y = Some idx
           /\ array_get (palette rd) idx = Some color
           /\ u8_get rgba ((y * CDG_WIDTH + x) * 4) = Some (Z.max 0 (Z.min 255 (r color)))
           /\ u8_get rgba ((y * CDG_WIDTH + x) * 4 + 1)
              = Some (Z.max 0 (Z.min 255 (g color)))
           /\ u8_get rgba ((y * CDG_WIDTH + x) * 4 + 2)
              = Some (Z.max 0 (Z.min 255 (b color)))
           /\ u8_get rgba ((y * CDG_WIDTH + x) * 4 + 3)
              = Some (if decide (idx = transparentColor rd) then 0 else 255).
Proof.
  intros Hrd Hpal.
  destruct (getRgbaFrame_defined rd Hrd Hpal) as [rgba Hrgba].
  exists rgba. split; [done |].
  assert (Hi0 : 0 <= 0 < CDG_WIDTH * CDG_HEIGHT) by (unfold CDG_WIDTH, CDG_HEIGHT; lia).
  split; [exact (proj1 (getRgbaFrame_cell rd 0 rgba (proj1 Hrd) Hi0 Hrgba)) |].
  intros x y Hx Hy.
  assert (Hi : 0 <= y * CDG_WIDTH + x < CDG_WIDTH * CDG_HEIGHT)
    by (unfold CDG_WIDTH, CDG_HEIGHT in *; lia).
  destruct (getRgbaFrame_cell rd _ rgba (proj1 Hrd) Hi Hrgba)
    as [_ (color & Hc & H0 & H1 & H2 & H3)].
  unfold fullColor in Hc. unfold fullAlpha in H3. unfold pixelAt.
  destruct (u8_get (pixels rd) (y * CDG_WIDTH + x)) as [idx|]; [| done].
  cbn [mbind option_bind] in Hc.
  exists idx, color. repeat split; try done.
  rewrite H3. f_equal. repeat case_decide; congruence.
Qed.

Lemma getRgbaFrame_pixels_witness :
  exists rgba,
    getRgbaFrame newRenderer = Some rgba
    /\ length rgba = fullFrameLength
    /\ forall x y, 0 <= x < CDG_WIDTH -> 0 <= y < CDG_HEIGHT ->
         exists idx color,
           pixelAt newRenderer x y = Some idx
           /\ array_get (palette newRenderer) idx = Some color
           /\ u8_get rgba ((y * CDG_WIDTH + x) * 4) = Some (Z.max 0 (Z.min 255 (r color)))
           /\ u8_get rgba ((y * CDG_WIDTH + x) * 4 + 1)
              = Some (Z.max 0 (Z.min 255 (g color)))
           /\ u8_get rgba ((y * CDG_WIDTH + x) * 4 + 2)
              = Some (Z.max 0 (Z.min 255 (b color)))
           /\ u8_get rgba ((y * CDG_WIDTH + x) * 4 + 3)
              = Some (if decide (idx = transparentColor newRenderer) then 0 else 255).
Proof.
  apply (getRgbaFrame_pixels newRenderer).
  - apply gridInRange_new.
  - apply paletteFull_new.
Defined.

(** Whenever the visible frame is produced, it is the window of the full
    frame that starts at column [6 + hOffset] of row [12 + vOffset]: the
    four bytes of the pixel at [(x, y)] are those of the cell with index
    [(y + 12 + vOffset) * 300 + (x + 6 + hOffset)] of the full frame. *)
Theorem visible_frame_is_crop (rd : CdgRenderer) :
  gridInRange rd -> paletteFull rd ->
  is_Some (getVisibleRgbaFrame rd) ->
  exists visible full,
    getVisibleRgbaFrame rd = Some visible
    /\ getRgbaFrame rd = Some full
    /\ length visible = frameLength
    /\ forall x y k, 0 <= x < CDG_VISIBLE_WIDTH -> 0 <= y < CDG_VISIBLE_HEIGHT ->
         0 <= k < 4 ->
         u8_get visible ((y * CDG_VISIBLE_WIDTH + x) * 4 + k)
         = u8_get full (sourceIndex rd x y * 4 + k).
Proof.
  intros Hrd Hpal [visible Hvis].
  destruct (getRgbaFrame_defined rd Hrd Hpal) as (full & Hfull).
  exists visible, full. split; [done |]. split; [done |].
  assert (H0 : 0 <= 0 < CDG_VISIBLE_WIDTH) by (unfold CDG_VISIBLE_WIDTH; lia).
  assert (H0' : 0 <= 0 < CDG_VISIBLE_HEIGHT) by (unfold CDG_VISIBLE_HEIGHT; lia).
  split; [exact (proj1 (getVisibleRgbaFrame_pixel rd 0 0 visible H0 H0' Hvis)) |].
  intros x y k Hx Hy Hk.
  destruct (getVisibleRgbaFrame_pixel rd x y visible Hx Hy Hvis)
    as [_ (color & Hc & V0 & V1 & V2 & V3)].
  assert (Hi : 0 <= sourceIndex rd x y < CDG_WIDTH * CDG_HEIGHT).
  { unfold visibleColor in Hc.
    destruct (u8_get (pixels rd) (sourceIndex rd x y)) as [c|] eqn:Hget; [| done].
    apply u8_get_Some_lt in Hget.
    rewrite (gridSized_length rd (proj1 Hrd)) in Hget.
    unfold CDG_WIDTH, CDG_HEIGHT. lia. }
  destruct (getRgbaFrame_cell rd _ full (proj1 Hrd) Hi Hfull)
    as [_ (color' & Hc' & F0 & F1 & F2 & F3)].
  change (fullColor rd (sourceIndex rd x y)) with (visibleColor rd x y) in Hc'.
  change (fullAlpha rd (sourceIndex rd x y)) with (visibleAlpha rd x y) in F3.
  assert (color' = color) as -> by congruence.
  assert (Hcases : k = 0 \/ k = 1 \/ k = 2 \/ k = 3) by lia.
  destruct Hcases as [-> | [-> | [-> | ->]]]; rewrite ?Z.add_0_r; congruence.
Qed.

Lemma visible_frame_is_crop_witness :
  exists visible full,
    getVisibleRgbaFrame newRenderer = Some visible
    /\ getRgbaFrame newRenderer = Some full
    /\ length visible = frameLength
    /\ forall x y k, 0 <= x < CDG_VISIBLE_WIDTH -> 0 <= y < CDG_VISIBLE_HEIGHT ->
         0 <= k < 4 ->
         u8_get visible ((y * CDG_VISIBLE_WIDTH + x) * 4 + k)
         = u8_get full (sourceIndex newRenderer x y * 4 + k).
Proof.
  apply (visible_frame_is_crop newRenderer).
  - apply gridInRange_new.
  - apply paletteFull_new.
  - apply getVisibleRgbaFrame_in_bounds.
    + apply gridInRange_new.
    + apply paletteFull_new.
    + cbn [hOffset newRenderer]. lia.
    + cbn [vOffset newRenderer]. lia.
Defined.

Lemma getVisibleRgbaFrame_inside (rd : CdgRenderer) :
  gridInRange rd -> paletteFull rd ->
  0 <= hOffset rd <= 7 -> 0 <= vOffset rd <= 15 ->
  vOffset rd <= 11 \/ (vOffset rd = 12 /\ hOffset rd <= 6) ->
  is_Some (getVisibleRgbaFrame rd).
Proof.
  intros Hrd Hpal Hh Hv Hok.
  pose proof (gridSized_length rd (proj1 Hrd)) as Hlen.
  apply getVisibleRgbaFrame_total.
  intros x y Hx Hy. unfold visibleColor, sourceIndex.
  unfold CDG_VISIBLE_WIDTH, CDG_VISIBLE_HEIGHT, CDG_BORDER_X, CDG_BORDER_Y, CDG_WIDTH in *.
  destruct (u8_get_lt_Some (pixels rd)
              ((y + 12 + vOffset rd) * 300 + (x + 6 + hOffset rd))) as [c Hc]; [lia |].
  rewrite Hc. cbn [mbind option_bind]. apply Hpal.
  destruct Hrd as [_ Hall]. unfold u8_get in Hc. destruct (_ <? 0); [done |].
  apply (Forall_lookup_1 _ _ _ _ Hall Hc).
Qed.

(** With offsets in the ranges the decoder produces (0..7 and 0..15), the
    visible frame is produced exactly when the vertical offset is at most
    11, or is 12 with a horizontal offset of at most 6; in every other case
    the read for the last pixel falls behind the end of the buffer and
    [getVisibleRgbaFrame] raises. *)
Theorem getVisibleRgbaFrame_defined_iff (rd : CdgRenderer) :
  gridInRange rd -> paletteFull rd ->
  0 <= hOffset rd <= 7 -> 0 <= vOffset rd <= 15 ->
  is_Some (getVisibleRgbaFrame rd)
  <-> vOffset rd <= 11 \/ (vOffset rd = 12 /\ hOffset rd <= 6).
Proof.
  intros Hrd Hpal Hh Hv.
  pose proof (gridSized_length rd (proj1 Hrd)) as Hlen.
  split.
  - intros Hsome.
    destruct (decide (vOffset rd <= 11 \/ (vOffset rd = 12 /\ hOffset rd <= 6)))
      as [Hok|Hbad]; [done |].
    exfalso. rewrite (getVisibleRgbaFrame_raises rd 287 191) in Hsome.
    + by destruct Hsome.
    + unfold CDG_VISIBLE_WIDTH. lia.
    + unfold CDG_VISIBLE_HEIGHT. lia.
    + unfold visibleColor, sourceIndex, u8_get.
      unfold CDG_BORDER_X, CDG_BORDER_Y, CDG_WIDTH.
      destruct (_ <? 0); [done |].
      rewrite lookup_ge_None_2; [done | lia].
  - intros Hok. by apply getVisibleRgbaFrame_inside.
Qed.

Lemma getVisibleRgbaFrame_defined_iff_witness :
  is_Some (getVisibleRgbaFrame (applyInstruction newRenderer (scroll false 0 0 0 7 12)))
  <-> vOffset (applyInstruction newRenderer (scroll false 0 0 0 7 12)) <= 11
      \/ (vOffset (applyInstruction newRenderer (scroll false 0 0 0 7 12)) = 12
          /\ hOffset (applyInstruction newRenderer (scroll false 0 0 0 7 12)) <= 6).
Proof.
  apply (getVisibleRgbaFrame_defined_iff
           (applyInstruction newRenderer (scroll false 0 0 0 7 12))).
  - apply (applyInstruction_fields_range newRenderer (scroll false 0 0 0 7 12));
      [| apply gridInRange_new].
    unfold decodedFields, nibble. lia.
  - exact paletteFull_new.
  - cbn [applyInstruction hOffset]. lia.
  - cbn [applyInstruction vOffset]. lia.
Defined.

(** * What the decoder's instructions keep of the renderer *)

Section Invariant.
Implicit Types (rd : CdgRenderer) (inst : CdgInstruction).

Lemma channel_scaled (v : Z) : 0 <= v < 16 -> channel (v * 17).
Proof. intros Hv. split; [lia | apply Z.divide_factor_r]. Qed.

Lemma parseColor_channels (data : list Z) (i : nat) : decodedColor (parseColor data i).
Proof.
  rewrite parseColor_layout. unfold Layout.color, Layout.bits, decodedColor.
  cbv zeta. cbn [r g b].
  repeat split; try apply channel_scaled; try apply Z.mod_pos_bound; lia.
Qed.

Lemma parseInstruction_colors (opcode : Z) (data : list Z) inst :
  parseInstruction opcode data = Some inst -> decodedColors inst.
Proof.
  intros H. unfold parseInstruction in H.
  destruct opcode as [|p|p]; try discriminate H.
  repeat (destruct p as [p|p|]; try discriminate H);
    injection H as <-; cbn [decodedColors]; try done;
    repeat (constructor; [apply parseColor_channels |]); constructor.
Qed.

Lemma rendererOk_new : rendererOk newRenderer.
Proof.
  split; [apply gridInRange_new |]. split; [done |]. split.
  - intros i Hi. exists black. split.
    + unfold array_get. destruct (Z.ltb_spec i 0); [lia |].
      cbn [palette newRenderer]. by rewrite lookup_replicate_2 by (unfold CDG_COLORS; lia).
    + repeat split; cbn; try lia; apply Z.divide_0_r.
  - cbn [transparentColor borderColor hOffset vOffset newRenderer]. unfold nibble. lia.
Qed.

Lemma rendererOk_full rd : rendererOk rd -> paletteFull rd.
Proof.
  intros (_ & _ & Hpal & _) i Hi. destruct (Hpal i Hi) as (c & -> & _). by eexists.
Qed.

Lemma applyInstruction_ok rd inst :
  decodedFields inst -> decodedColors inst ->
  rendererOk rd -> rendererOk (applyInstruction rd inst).
Proof.
  intros Hf Hc (Hgrid & Hlen & Hpal & Htc & Hbc & Hho & Hvo).
  split; [by apply applyInstruction_fields_range |].
  destruct inst as [color repeat | color | xor c0 c1 row column tp
                   | copy color hs vs ho vo | color | offset colors];
    cbn [applyInstruction decodedFields decodedColors] in *.
  - by destruct (repeat =? 0).
  - done.
  - done.
  - cbn [palette transparentColor borderColor hOffset vOffset].
    destruct Hf as (_ & _ & _ & Hho' & Hvo'). done.
  - cbn [palette transparentColor borderColor hOffset vOffset].
    unfold nibble in Hf. do 2 (split; [done |]). split; [lia | done].
  - cbn [palette transparentColor borderColor hOffset vOffset].
    destruct Hf as [Hoff Hcl].
    destruct (loadColors_spec (palette rd) offset colors) as [Hl Hg]; [lia | lia |].
    cbv zeta in Hl, Hg.
    split; [congruence |]. split; [| done].
    intros i Hi. rewrite Hg. case_decide as Hin; [| by apply Hpal].
    destruct (lookup_lt_is_Some_2 colors (Z.to_nat (i - offset))) as [c Hcol]; [lia |].
    exists c. split; [done |]. by eapply Forall_lookup_1.
Qed.

Lemma decoded_ok rd inst : decoded inst -> rendererOk rd -> rendererOk (applyInstruction rd inst).
Proof.
  intros (opcode & data & Hdec). apply applyInstruction_ok.
  - by eapply parseInstruction_fields.
  - by eapply parseInstruction_colors.
Qed.

Lemma decoded_replay_ok (insts : list CdgInstruction) rd :
  Forall decoded insts -> rendererOk rd ->
  rendererOk (fold_left applyInstruction insts rd).
Proof.
  intros Hall. revert rd. induction Hall as [|inst insts Hinst _ IH]; intros rd Hrd;
    cbn [fold_left]; [done |].
  by apply IH, decoded_ok.
Qed.

End Invariant.

(** Every renderer state reached from the initial one by instructions the
    decoder produced has 300 x 216 cells holding palette indices, a
    palette of 16 colours whose channels are multiples of 17 from 0 to 255,
    a transparent index from -1 to 15, a border colour from 0 to 15 and
    offsets from 0 to 7 and from 0 to 15; its full frame is always
    produced. *)
Theorem decoded_replay_renderer (insts : list CdgInstruction) :
  Forall decoded insts ->
  rendererOk (fold_left applyInstruction insts newRenderer)
  /\ is_Some (getRgbaFrame (fold_left applyInstruction insts newRenderer)).
Proof.
  intros Hall.
  pose proof (decoded_replay_ok insts newRenderer Hall rendererOk_new) as Hok.
  split; [exact Hok |].
  apply getRgbaFrame_defined; [apply Hok | by apply rendererOk_full].
Qed.

Lemma decoded_replay_renderer_witness :
  rendererOk (fold_left applyInstruction
                [scroll false 0 0 0 7 15; defineTransparent 3] newRenderer)
  /\ is_Some (getRgbaFrame
                (fold_left applyInstruction
                   [scroll false 0 0 0 7 15; defineTransparent 3] newRenderer)).
Proof.
  apply (decoded_replay_renderer [scroll false 0 0 0 7 15; defineTransparent 3]).
  repeat constructor.
  - exists 20, [0; 7; 15]. reflexivity.
  - exists 28, [3]. reflexivity.
Defined.

(** [reset] after any sequence of instructions gives the renderer as
    constructed. *)
Theorem reset_after_instructions (insts : list CdgInstruction) :
  reset (fold_left applyInstruction insts newRenderer) = newRenderer.
Proof.
  apply reset_gridSized.
  assert (H : forall rd, gridSized rd -> gridSized (fold_left applyInstruction insts rd)).
  { induction insts as [|inst insts IH]; intros rd Hrd; cbn [fold_left]; [done |].
    by apply IH, applyInstruction_gridSized. }
  apply H, gridSized_new.
Qed.

(** * Reasoning about method calls *)

Section WeakestPre.
Context {A B : Type}.
Implicit Types (Q : A -> CdgPlayer -> Prop) (E : CdgPlayer -> Prop) (p : CdgPlayer).

Lemma wp_ret (a : A) Q E p : Q a p -> wp (mret a) Q E p.
Proof. done. Qed.

Lemma wp_throw Q E p : E p -> wp (@throw A) Q E p.
Proof. done. Qed.

Lemma wp_bind (m : M A) (f : A -> M B) (R : B -> CdgPlayer -> Prop) E p :
  wp m (fun a q => wp (f a) R E q) E p -> wp (m ≫= f) R E p.
Proof.
  unfold wp, mbind, M_bind. cbv zeta.
  destruct (value (m p)) as [a|]; cbn [value after]; [| done].
  by destruct (value (f a (after (m p)))).
Qed.

Lemma wp_conseq (m : M A) Q Q' E E' p :
  wp m Q' E' p -> (forall a q, Q' a q -> Q a q) -> (forall q, E' q -> E q) ->
  wp m Q E p.
Proof.
  unfold wp. intros H HQ HE. destruct (value (m p)); [by apply HQ | by apply HE].
Qed.

Lemma wp_no_raise (m : M A) Q E p : wp m Q (fun _ => False) p -> wp m Q E p.
Proof. intros H. by apply (wp_conseq _ _ _ _ _ _ H). Qed.

Lemma wp_run (m : M A) Q E p (a : A) (q : CdgPlayer) (evs : list Event) :
  m p = mkRun (Some a) q evs -> Q a q -> wp m Q E p.
Proof. unfold wp. by intros ->. Qed.

End WeakestPre.

Section WeakestPreUnit.
Implicit Types (E : CdgPlayer -> Prop) (p : CdgPlayer).

Lemma wp_this (Q : CdgPlayer -> CdgPlayer -> Prop) E p : Q p p -> wp this Q E p.
Proof. done. Qed.

Lemma wp_modify f (Q : unit -> CdgPlayer -> Prop) E p : Q tt (f p) -> wp (modify f) Q E p.
Proof. done. Qed.

Lemma wp_emit e (Q : unit -> CdgPlayer -> Prop) E p : Q tt p -> wp (emit e) Q E p.
Proof. done. Qed.

Lemma wp_getState (Q : CdgPlayerState -> CdgPlayer -> Prop) E p :
  Q (state p) p -> wp getState Q E p.
Proof. done. Qed.

End WeakestPreUnit.

Ltac wp_step :=
  lazymatch goal with
  | |- wp (mbind _ _) _ _ _ => apply wp_bind
  | |- wp this _ _ _ => apply wp_this
  | |- wp (modify _) _ _ _ => apply wp_modify
  | |- wp (emit _) _ _ _ => apply wp_emit
  | |- wp (mret _) _ _ _ => apply wp_ret
  | |- wp getState _ _ _ => apply wp_getState
  | |- wp (if ?c then _ else _) _ _ _ => destruct c eqn:?
  | |- wp (match ?x with _ => _ end) _ _ _ => destruct x eqn:?
  end; cbv beta.

Section Runs.
Implicit Types (p : CdgPlayer).

Lemma stop_run p : stop p = mkRun (Some tt) (stopped p) [EvStop (state (stopped p))].
Proof.
  destruct p as [d rd st af lu pi stt pt]. by destruct d.
Qed.

Lemma emitFrame_run p :
  emitFrame p
  = match cdgData p with
    | None => mkRun (Some tt) p []
    | Some _ =>
        match getVisibleRgbaFrame (renderer p) with
        | None => mkRun None p []
        | Some px =>
            mkRun (Some tt) p
              [EvFrame {| width := CDG_VISIBLE_WIDTH; height := CDG_VISIBLE_HEIGHT;
                          rgba := px; timestamp := currentTime (state p) |}]
        end
    end.
Proof.
  unfold emitFrame, getCurrentFrame.
  destruct (cdgData p) eqn:Hd.
  - destruct (getVisibleRgbaFrame (renderer p)) eqn:Hf.
    + unfold mbind, M_bind, this. cbn [value after events].
      rewrite Hd, Hf. reflexivity.
    + unfold mbind, M_bind, this. cbn [value after events].
      rewrite Hd, Hf. reflexivity.
  - unfold mbind, M_bind, this. cbn [value after events].
    rewrite Hd. reflexivity.
Qed.

Lemma wp_stop (Q : unit -> CdgPlayer -> Prop) E p : Q tt (stopped p) -> wp stop Q E p.
Proof. intros HQ. by eapply wp_run; [apply stop_run |]. Qed.

(** [emitFrame] leaves the player as it is; it raises when the frame
    cannot be produced. *)
Lemma wp_emitFrame (Q : unit -> CdgPlayer -> Prop) E p :
  (is_Some (cdgData p) -> is_Some (getVisibleRgbaFrame (renderer p))) ->
  Q tt p -> wp emitFrame Q E p.
Proof.
  intros Hframe HQ. unfold wp. rewrite emitFrame_run.
  destruct (cdgData p); [| done].
  destruct Hframe as [px ->]; [by eexists | done].
Qed.

Lemma wp_emitFrame_any (Q : unit -> CdgPlayer -> Prop) E p :
  Q tt p -> E p -> wp emitFrame Q E p.
Proof.
  intros HQ HE. unfold wp. rewrite emitFrame_run.
  destruct (cdgData p); [| done]. by destruct (getVisibleRgbaFrame _).
Qed.

End Runs.

(** * No call raises *)

Section Safety.
Implicit Types (p q : CdgPlayer) (rd : CdgRenderer).

Lemma parseCdgFile_decoded (buffer : list Z) :
  Forall (fun pk => forall inst, instruction pk = Some inst -> decoded inst)
    (packets (parseCdgFile buffer)).
Proof.
  apply Forall_forall. intros pk Hpk inst Hinst.
  apply parseCdgFile_packet_inv in Hpk as (i & inst' & _ & _ & Hdec & ->).
  cbn [instruction] in Hinst. injection Hinst as <-. by eexists _, _.
Qed.

Lemma viewSafeFile_inside (buffer : list Z) :
  viewSafeFile buffer -> Forall packetInside (packets (parseCdgFile buffer)).
Proof.
  intros Hfile. pose proof (parseCdgFile_decoded buffer) as Hdec.
  unfold viewSafeFile in Hfile. rewrite Forall_forall in Hfile, Hdec.
  apply Forall_forall. intros pk Hpk inst Hinst. split; [by eapply Hdec | by eapply Hfile].
Qed.

Lemma safe_frame p : safe p -> is_Some (getVisibleRgbaFrame (renderer p)).
Proof.
  intros (Hok & Hview & _).
  apply getVisibleRgbaFrame_inside; [apply Hok | by apply rendererOk_full | | | done];
    apply Hok.
Qed.

Lemma safe_ext p q :
  renderer q = renderer p -> cdgData q = cdgData p -> safe p -> safe q.
Proof. unfold safe. by intros -> ->. Qed.

Lemma applyPacket_inside rd (pk : CdgPacket) :
  packetInside pk -> rendererOk rd /\ viewInside rd ->
  rendererOk (applyPacket rd pk) /\ viewInside (applyPacket rd pk).
Proof.
  intros Hpk [Hok Hview]. unfold applyPacket.
  destruct (instruction pk) as [inst|] eqn:Hinst; [| done].
  destruct (Hpk inst Hinst) as [Hdec Hscroll].
  split; [by apply decoded_ok |].
  unfold viewInside in *.
  destruct inst as [color repeat | color | xor c0 c1 row column tp
                   | copy color hs vs ho vo | color | offset colors];
    cbn [applyInstruction hOffset vOffset scrollInside] in *; try done.
  by destruct (repeat =? 0).
Qed.

Lemma replayWhile_inside t (pkts : list CdgPacket) rd (idx : nat) :
  Forall packetInside pkts -> rendererOk rd /\ viewInside rd ->
  rendererOk (replayWhile t pkts rd idx).1 /\ viewInside (replayWhile t pkts rd idx).1.
Proof.
  intros Hall. revert rd idx.
  induction Hall as [|pk pkts Hpk _ IH]; intros rd idx Hrd; [done |].
  cbn [replayWhile]. destruct (Qle_bool _ _); [| done].
  apply IH. by apply (applyPacket_inside rd pk).
Qed.

Lemma replayFromCursor_safe t p : safe p -> safe (replayFromCursor t p).
Proof.
  intros Hp. unfold replayFromCursor.
  destruct (cdgData p) as [d|] eqn:Hd; [| exact Hp].
  destruct Hp as (Hok & Hview & Hdata).
  pose proof (replayWhile_inside t (drop (packetIndex p) (packets d)) (renderer p)
                (packetIndex p) (Forall_drop _ _ _ (Hdata d Hd))
                (conj Hok Hview)) as [H1 H2].
  destruct (replayWhile _ _ _ _) as [rd idx]. cbn [fst] in H1, H2.
  split; [done |]. split; [done |]. exact Hdata.
Qed.

Lemma reset_safe p :
  safe p -> safe (set_packetIndex 0 (set_renderer (reset (renderer p)) p)).
Proof.
  intros (Hok & Hview & Hdata).
  cbn [safe renderer cdgData set_packetIndex set_renderer]. unfold safe.
  cbn [renderer cdgData set_packetIndex set_renderer].
  rewrite reset_gridSized by apply Hok.
  split; [apply rendererOk_new |]. split; [| done].
  left. cbn [vOffset newRenderer]. lia.
Qed.

Lemma stopped_safe p : safe p -> safe (stopped p).
Proof.
  intros Hp. unfold stopped. destruct (cdgData p) eqn:Hd; cbn [isNull].
  - apply (safe_ext (set_packetIndex 0 (set_renderer (reset (renderer p)) p)));
      [done | by rewrite <- Hd | by apply reset_safe].
  - by apply (safe_ext p); [| rewrite <- Hd |].
Qed.

Lemma safe_new : safe newPlayer.
Proof.
  split; [apply rendererOk_new |]. split; [| done].
  left. cbn [vOffset renderer newPlayer newRenderer]. lia.
Qed.

(** The closing steps shared by the proofs below: a [modify] that leaves
    the renderer and the file alone, one of the steps above, or a frame
    of a safe player. *)
Ltac safe_leaf :=
  cbv beta;
  lazymatch goal with
  | |- safe (replayFromCursor _ _) => apply replayFromCursor_safe; safe_leaf
  | |- safe (set_packetIndex 0 (set_renderer (reset (renderer _)) _)) =>
      apply reset_safe; safe_leaf
  | |- safe (stopped _) => apply stopped_safe; safe_leaf
  | H : safe ?p |- safe ?p => exact H
  | |- safe (set_state _ ?p) => apply (safe_ext p); [reflexivity | reflexivity | safe_leaf]
  | |- safe (set_startTime _ ?p) => apply (safe_ext p); [reflexivity | reflexivity | safe_leaf]
  | |- safe (set_pauseTime _ ?p) => apply (safe_ext p); [reflexivity | reflexivity | safe_leaf]
  | |- safe (set_lastUpdateTime _ ?p) =>
      apply (safe_ext p); [reflexivity | reflexivity | safe_leaf]
  | |- safe (set_animationFrame _ ?p) =>
      apply (safe_ext p); [reflexivity | reflexivity | safe_leaf]
  end.

Ltac safe_call lem :=
  eapply wp_conseq;
  [apply lem; safe_leaf | cbv beta; intros [] ? ? | cbv beta; intros ? []].

Lemma safe_emitFrame p : safe p -> wp emitFrame (fun _ q => safe q) (fun _ => False) p.
Proof. intros Hp. apply wp_emitFrame; [intros _; by apply safe_frame | done]. Qed.

Lemma safe_stop p : safe p -> wp stop (fun _ q => safe q) (fun _ => False) p.
Proof. intros Hp. apply wp_stop. by apply stopped_safe. Qed.

Ltac safe_step lems :=
  cbv beta zeta;
  lazymatch goal with
  | |- wp stop _ _ _ => safe_call safe_stop
  | |- wp emitFrame _ _ _ => safe_call safe_emitFrame
  | |- wp (mbind _ _) _ _ _ => apply wp_bind
  | |- wp this _ _ _ => apply wp_this
  | |- wp (modify _) _ _ _ => apply wp_modify
  | |- wp (emit _) _ _ _ => apply wp_emit
  | |- wp (mret _) _ _ _ => apply wp_ret
  | |- wp getState _ _ _ => apply wp_getState
  | |- wp (if ?c then _ else _) _ _ _ => destruct c
  | |- wp (match ?x with _ => _ end) _ _ _ => destruct x
  | |- wp _ _ _ _ => lems
  | |- safe _ => safe_leaf
  end.

Lemma safe_applyPacketsUpTo t p :
  safe p -> wp (applyPacketsUpTo t) (fun _ q => safe q) (fun _ => False) p.
Proof. intros Hp. unfold applyPacketsUpTo. repeat safe_step fail. Qed.

Lemma safe_update now p :
  safe p -> wp (update now) (fun _ q => safe q) (fun _ => False) p.
Proof. intros Hp. unfold update, applyPacketsFromTo. repeat safe_step fail. Qed.

Lemma safe_seek t now p :
  safe p -> wp (seek t now) (fun _ q => safe q) (fun _ => False) p.
Proof.
  intros Hp. unfold seek. repeat safe_step ltac:(safe_call safe_applyPacketsUpTo).
Qed.

Ltac safe_methods :=
  first [ safe_call safe_applyPacketsUpTo | safe_call safe_update
        | safe_call safe_seek ].

Lemma safe_perform (c : Call) p :
  loadsInside c -> safe p ->
  wp (perform c) (fun _ q => safe q) (fun q => safe q /\ ~ readable c) p.
Proof.
  intros Hc Hp. destruct c as [file audio title' singer id | now | now | | t now
                              | t now | now]; cbn [perform].
  - unfold loadSong. apply wp_bind, wp_stop.
    destruct file as [buffer|]; cbn [loadsInside readable] in *.
    + apply wp_bind, wp_modify.
      set (q := set_state _ _).
      assert (Hq : safe q).
      { subst q. unfold safe.
        cbn [renderer cdgData set_state set_packetIndex set_renderer set_cdgData stopped].
        rewrite reset_gridSized.
        - split; [apply rendererOk_new |]. split; [left; cbn; lia |].
          intros d [= <-]. by apply viewSafeFile_inside.
        - pose proof (stopped_safe p Hp) as (Hok & _). apply Hok. }
      clearbody q.
      apply wp_no_raise.
      repeat safe_step safe_methods.
    + apply wp_throw. split; [by apply stopped_safe | tauto].
  - apply wp_no_raise.
    unfold play, startAnimationLoop, stopAnimationLoop.
    repeat safe_step safe_methods.
  - apply wp_no_raise.
    unfold pause, stopAnimationLoop. repeat safe_step safe_methods.
  - apply wp_no_raise.
    by apply safe_stop.
  - apply wp_no_raise.
    by apply safe_seek.
  - apply wp_no_raise.
    unfold syncToAudioTime, applyPacketsFromTo.
    repeat safe_step safe_methods.
  - apply wp_no_raise.
    unfold tick. repeat safe_step safe_methods.
Qed.

Lemma performAll_safe (calls : list Call) p :
  Forall loadsInside calls -> safe p -> safe (performAll calls p).
Proof.
  intros Hall. revert p. induction Hall as [|c calls Hc _ IH]; intros p Hp; [done |].
  cbn [performAll fold_left]. apply IH.
  pose proof (safe_perform c p Hc Hp) as Hwp. unfold wp in Hwp.
  destruct (value (perform c p)); [done | apply Hwp].
Qed.

End Safety.

(** As long as the files loaded keep the window of the visible frame
    inside the buffer, no call of the host raises, other than a [loadSong]
    whose file cannot be read; this holds after any history of calls,
    failed loads included. *)
Theorem calls_never_raise (calls : list Call) (c : Call) :
  Forall loadsInside calls -> loadsInside c -> readable c ->
  value (perform c (performAll calls newPlayer)) = Some tt.
Proof.
  intros Hcalls Hc Hread.
  pose proof (performAll_safe calls newPlayer Hcalls safe_new) as Hsafe.
  pose proof (safe_perform c _ Hc Hsafe) as Hwp. unfold wp in Hwp.
  destruct (value (perform c (performAll calls newPlayer))) as [[]|]; [done |].
  by destruct Hwp as [_ []].
Qed.

Lemma calls_never_raise_witness :
  value (perform (TimerFires 40)
           (performAll
              [CallLoadSong None "b.mp3" "C" "D" 2;
               CallLoadSong (Some tilePacket) "a.mp3" "A" "B" 1;
               CallPlay 0; CallSeek 5 20] newPlayer)) = Some tt.
Proof.
  apply (calls_never_raise
           [CallLoadSong None "b.mp3" "C" "D" 2;
            CallLoadSong (Some tilePacket) "a.mp3" "A" "B" 1;
            CallPlay 0; CallSeek 5 20] (TimerFires 40)).
  - assert (Hfile : viewSafeFile tilePacket).
    { unfold viewSafeFile.
      assert (Hp : map instruction (packets (parseCdgFile tilePacket))
                   = [Some (tileBlock true 3 15 5 7
                              [63; 0; 63; 0; 63; 0; 63; 0; 63; 0; 63; 0])])
        by (vm_compute; reflexivity).
      destruct (packets (parseCdgFile tilePacket)) as [|pk [|pk' l]]; try discriminate Hp.
      injection Hp as Hp. constructor; [| constructor].
      intros inst Hinst. rewrite Hp in Hinst. by injection Hinst as <-. }
    constructor; [exact I |]. constructor; [exact Hfile |].
    constructor; [exact I |]. constructor; [exact I |]. constructor.
  - exact I.
  - exact I.
Defined.

(** * What every reachable player satisfies *)

Section Consistent.
Implicit Types (p : CdgPlayer).

Lemma replayWhile_index t (pkts : list CdgPacket) rd (idx : nat) :
  (idx <= (replayWhile t pkts rd idx).2 <= idx + length pkts)%nat.
Proof.
  revert rd idx. induction pkts as [|pk pkts IH]; intros rd idx; cbn [replayWhile length].
  - cbn [snd]. lia.
  - destruct (Qle_bool _ _); [| cbn [snd]; lia].
    specialize (IH (match instruction pk with
                    | Some inst => applyInstruction rd inst
                    | None => rd
                    end) (S idx)). lia.
Qed.

Lemma replayFromCursor_index t p d :
  cdgData p = Some d -> (packetIndex p <= length (packets d))%nat ->
  (packetIndex (replayFromCursor t p) <= length (packets d))%nat.
Proof.
  intros Hd Hle. unfold replayFromCursor. rewrite Hd.
  pose proof (replayWhile_index t (drop (packetIndex p) (packets d)) (renderer p)
                (packetIndex p)) as H.
  rewrite length_drop in H.
  destruct (replayWhile _ _ _ _) as [rd idx]. cbn [snd] in H.
  cbn [packetIndex set_packetIndex]. lia.
Qed.

Lemma replayFromCursor_none t p : cdgData p = None -> replayFromCursor t p = p.
Proof. intros Hd. unfold replayFromCursor. by rewrite Hd. Qed.

Lemma replayFromCursor_timer t p :
  animationFrame (replayFromCursor t p) = animationFrame p.
Proof.
  unfold replayFromCursor. destruct (cdgData p); [| done].
  by destruct (replayWhile _ _ _ _).
Qed.

Lemma consistent_new : consistent newPlayer.
Proof. by repeat split. Qed.

Lemma consistent_replay t p : consistent p -> consistent (replayFromCursor t p).
Proof.
  intros (H1 & H2 & H3 & H4 & H5 & H6). unfold consistent.
  rewrite replayFromCursor_state, replayFromCursor_data, replayFromCursor_timer.
  split; [exact H1 |]. split; [exact H2 |]. split; [exact H3 |].
  split; [| split; [| exact H6]].
  - intros d Hd. destruct (H4 d Hd) as [Hdur Hidx]. split; [done |].
    by apply replayFromCursor_index.
  - intros Hd. rewrite replayFromCursor_none by done. by apply H5.
Qed.

(** A step that changes flags, times or the timer: the fields are read
    off the setters. *)
Ltac fields :=
  cbn [state playing paused currentTime duration title singerName songId fileType
       audioPath cdgData renderer animationFrame lastUpdateTime packetIndex startTime
       pauseTime set_state set_currentTime set_playing set_paused set_cdgData
       set_renderer set_animationFrame set_lastUpdateTime set_packetIndex
       set_startTime set_pauseTime stopped isNull negb orb andb] in *.

Lemma consistent_stopped p : consistent p -> consistent (stopped p).
Proof.
  intros (H1 & H2 & H3 & H4 & H5 & H6). unfold consistent. fields.
  split; [done |]. split; [done |]. split; [done |].
  split; [| split; [| exact H6]].
  - intros d Hd. rewrite Hd. cbn [isNull]. split; [by apply H4 | lia].
  - intros Hd. rewrite Hd. cbn [isNull]. by apply H5.
Qed.

Ltac consistent_leaf p Hc :=
  cbv beta;
  first
    [ exact Hc
    | unfold consistent in *; fields;
      rewrite ?replayFromCursor_state, ?replayFromCursor_data,
        ?replayFromCursor_timer in *;
      destruct Hc as (H1 & H2 & H3 & H4 & H5 & H6);
      destruct (playing (state p)) eqn:Hpl, (paused (state p)) eqn:Hpa,
        (animationFrame p) eqn:Haf, (cdgData p) as [d0|] eqn:Hd0;
      cbn [negb orb andb isNull] in *; try discriminate;
      try (destruct (H1 eq_refl); discriminate);
      try (by destruct (H2 eq_refl));
      try (destruct (H3 eq_refl); discriminate);
      repeat split; intros; simplify_eq; try done;
      try (by apply H4); try (by apply H5);
      try (eapply replayFromCursor_index; [eassumption | by apply H4]);
      try (rewrite replayFromCursor_none by done; by apply H5);
      try (cbn; lia) ].

Ltac leaf :=
  match goal with
  | Hc : consistent ?p |- _ => solve [consistent_leaf p Hc]
  end.

Ltac sub_call lem :=
  eapply wp_conseq;
  [ apply lem; leaf
  | cbv beta; intros [] ? ?
  | cbv beta; intros ? ?; assumption ].

Ltac exec lems :=
  repeat (cbv beta zeta;
          lazymatch goal with
          | |- wp stop _ _ _ => apply wp_stop
          | |- wp emitFrame _ _ _ => apply wp_emitFrame_any
          | |- wp (mbind _ _) _ _ _ => apply wp_bind
          | |- wp this _ _ _ => apply wp_this
          | |- wp (modify _) _ _ _ => apply wp_modify
          | |- wp (emit _) _ _ _ => apply wp_emit
          | |- wp (mret _) _ _ _ => apply wp_ret
          | |- wp getState _ _ _ => apply wp_getState
          | |- wp throw _ _ _ => apply wp_throw
          | |- wp (if ?c then _ else _) _ _ _ => destruct c eqn:?
          | |- wp (match ?x with _ => _ end) _ _ _ => destruct x eqn:?
          | |- wp _ _ _ _ => lems
          end).

Lemma consistent_update now p :
  consistent p -> wp (update now) (fun _ q => consistent q) consistent p.
Proof.
  intros Hc. unfold update, applyPacketsFromTo. exec fail. all: leaf.
Qed.

Lemma consistent_applyPacketsUpTo t p :
  consistent p -> wp (applyPacketsUpTo t) (fun _ q => consistent q) consistent p.
Proof.
  intros Hc. unfold applyPacketsUpTo. exec fail. all: leaf.
Qed.

Lemma consistent_seek t now p :
  consistent p -> wp (seek t now) (fun _ q => consistent q) consistent p.
Proof.
  intros Hc. unfold seek. exec ltac:(sub_call consistent_applyPacketsUpTo).
  all: leaf.
Qed.

Ltac methods :=
  first [ sub_call consistent_applyPacketsUpTo | sub_call consistent_update
        | sub_call consistent_seek ].

Lemma consistent_perform (c : Call) p :
  consistent p -> wp (perform c) (fun _ q => consistent q) consistent p.
Proof.
  intros Hc. destruct c as [file audio title' singer id | now | now | | t now
                           | t now | now]; cbn [perform].
  - unfold loadSong. exec methods. all: leaf.
  - unfold play, startAnimationLoop, stopAnimationLoop. exec methods. all: leaf.
  - unfold pause, stopAnimationLoop. exec methods. all: leaf.
  - exec methods. all: leaf.
  - by apply consistent_seek.
  - unfold syncToAudioTime, applyPacketsFromTo. exec methods. all: leaf.
  - unfold tick. exec methods. all: leaf.
Qed.

Lemma reachable_consistent p : reachable p -> consistent p.
Proof.
  induction 1 as [| p c _ IH]; [apply consistent_new |].
  pose proof (consistent_perform c p IH) as Hwp. unfold wp in Hwp.
  by destruct (value (perform c p)).
Qed.

End Consistent.

(** Every player the host can reach keeps its flags, timer, cursor and
    duration consistent: paused implies playing, playing implies a loaded
    file, a pending timer implies playing and not paused, the duration is
    that of the loaded file (0 with none), the cursor lies within the
    packet list, and the pixel buffer has its 300 x 216 cells. *)
Theorem reachable_invariants (p : CdgPlayer) :
  reachable p ->
  (paused (state p) = true -> playing (state p) = true)
  /\ (playing (state p) = true -> is_Some (cdgData p))
  /\ (animationFrame p = true -> playing (state p) = true /\ paused (state p) = false)
  /\ (forall d, cdgData p = Some d ->
        duration (state p) = durationMs d
        /\ (packetIndex p <= length (packets d))%nat)
  /\ (cdgData p = None -> duration (state p) = 0%Q /\ packetIndex p = 0%nat)
  /\ fileType (state p) = "cdg"%string
  /\ gridSized (renderer p).
Proof.
  intros Hreach.
  destruct (reachable_consistent p Hreach) as (H1 & H2 & H3 & H4 & H5 & H6).
  pose proof (reachable_sized p Hreach) as Hsz.
  repeat (split; [assumption |]). assumption.
Qed.

Lemma reachable_invariants_witness :
  (paused (state playingAt10) = true -> playing (state playingAt10) = true)
  /\ (playing (state playingAt10) = true -> is_Some (cdgData playingAt10))
  /\ (animationFrame playingAt10 = true ->
      playing (state playingAt10) = true /\ paused (state playingAt10) = false)
  /\ (forall d, cdgData playingAt10 = Some d ->
        duration (state playingAt10) = durationMs d
        /\ (packetIndex playingAt10 <= length (packets d))%nat)
  /\ (cdgData playingAt10 = None ->
      duration (state playingAt10) = 0%Q /\ packetIndex playingAt10 = 0%nat)
  /\ fileType (state playingAt10) = "cdg"%string
  /\ gridSized (renderer playingAt10).
Proof.
  apply (reachable_invariants playingAt10). exact playingAt10_reachable.
Defined.

(** * The calls of the clock, one by one *)

Section RunSteps.
Context {B : Type}.
Implicit Types (p : CdgPlayer).

Lemma run_eta (r : Run B) : mkRun (value r) (after r) (events r) = r.
Proof. by destruct r. Qed.

Lemma modify_bind g (f : unit -> M B) p : (modify g ≫= f) p = f tt (g p).
Proof. unfold mbind, M_bind, modify. cbn [value after events app]. apply run_eta. Qed.

Lemma emit_bind e (f : unit -> M B) p :
  (emit e ≫= f) p = mkRun (value (f tt p)) (after (f tt p)) (e :: events (f tt p)).
Proof. reflexivity. Qed.

Lemma getState_bind (f : CdgPlayerState -> M B) p : (getState ≫= f) p = f (state p) p.
Proof.
  unfold getState. unfold mbind at 1, M_bind at 1. rewrite bind_this.
  cbn [value after events mret M_ret app]. apply run_eta.
Qed.

Lemma stop_bind (f : unit -> M B) p :
  (stop ≫= f) p
  = mkRun (value (f tt (stopped p))) (after (f tt (stopped p)))
      (EvStop (state (stopped p)) :: events (f tt (stopped p))).
Proof. unfold mbind, M_bind. cbv zeta. by rewrite stop_run. Qed.

End RunSteps.

(** The fields of a player built by the setters. *)
Ltac fields :=
  cbn [state playing paused currentTime duration title singerName songId fileType
       audioPath cdgData renderer animationFrame lastUpdateTime packetIndex startTime
       pauseTime set_state set_currentTime set_playing set_paused set_cdgData
       set_renderer set_animationFrame set_lastUpdateTime set_packetIndex
       set_startTime set_pauseTime stopped isNull negb orb andb] in *.

Section Pause.
Implicit Types (p : CdgPlayer).

Lemma pause_run now p :
  pause now p
  = if negb (playing (state p)) || paused (state p) then mkRun (Some tt) p []
    else mkRun (Some tt) (pausedAt now p) [EvPause (state (pausedAt now p))].
Proof.
  unfold pause, stopAnimationLoop. rewrite bind_this.
  destruct (negb _ || _); [done |].
  rewrite !modify_bind, getState_bind. reflexivity.
Qed.

Lemma update_guard now p :
  negb (playing (state p)) || paused (state p) = true ->
  update now p = mkRun (Some tt) p [].
Proof. intros H. unfold update. by rewrite bind_this, H. Qed.

Lemma tick_idle now p :
  animationFrame p = false \/ negb (playing (state p)) || paused (state p) = true ->
  tick now p = mkRun (Some tt) p [].
Proof.
  intros H. unfold tick. rewrite bind_this.
  destruct (animationFrame p); [| done].
  destruct H as [H|H]; [done |]. by apply update_guard.
Qed.

End Pause.

(** Once [pause] or [stop] has returned, the timer callback does nothing,
    even when the player was never playing: it changes no field and emits
    no event. A second [pause] does nothing either. *)
Theorem pause_and_stop_halt_the_loop (p : CdgPlayer) (a now : Z) :
  tick now (after (pause a p)) = mkRun (Some tt) (after (pause a p)) []
  /\ pause now (after (pause a p)) = mkRun (Some tt) (after (pause a p)) []
  /\ tick now (after (stop p)) = mkRun (Some tt) (after (stop p)) [].
Proof.
  split; [| split].
  - apply tick_idle. rewrite pause_run.
    destruct (negb (playing (state p)) || paused (state p)) eqn:Hguard; cbn [after].
    + by right.
    + by left.
  - rewrite (pause_run now). rewrite pause_run.
    destruct (negb (playing (state p)) || paused (state p)) eqn:Hguard; cbn [after].
    + by rewrite Hguard.
    + unfold pausedAt. fields. by rewrite orb_true_r.
  - apply tick_idle. rewrite stop_run. by left.
Qed.

Section CursorFields.
Implicit Types (p : CdgPlayer).

Lemma replayFromCursor_startTime t p : startTime (replayFromCursor t p) = startTime p.
Proof.
  unfold replayFromCursor. destruct (cdgData p); [| done].
  by destruct (replayWhile _ _ _ _).
Qed.

Lemma replayFromCursor_pauseTime t p : pauseTime (replayFromCursor t p) = pauseTime p.
Proof.
  unfold replayFromCursor. destruct (cdgData p); [| done].
  by destruct (replayWhile _ _ _ _).
Qed.

Lemma replayFromCursor_lastUpdateTime t p :
  lastUpdateTime (replayFromCursor t p) = lastUpdateTime p.
Proof.
  unfold replayFromCursor. destruct (cdgData p); [| done].
  by destruct (replayWhile _ _ _ _).
Qed.

End CursorFields.

(** The flags and the file of the player the goal talks about, read off the
    hypotheses. *)
Ltac known_fields :=
  cbn [state playing paused currentTime duration title singerName songId fileType
       audioPath cdgData renderer animationFrame lastUpdateTime packetIndex startTime
       pauseTime set_state set_currentTime set_playing set_paused set_cdgData
       set_renderer set_animationFrame set_lastUpdateTime set_packetIndex
       set_startTime set_pauseTime stopped pausedAt isNull negb orb andb];
  rewrite ?replayFromCursor_state, ?replayFromCursor_data, ?replayFromCursor_timer,
    ?replayFromCursor_startTime, ?replayFromCursor_pauseTime,
    ?replayFromCursor_lastUpdateTime;
  repeat match goal with
         | H : playing (state ?p) = _ |- context [playing (state ?p)] => rewrite H
         | H : paused (state ?p) = _ |- context [paused (state ?p)] => rewrite H
         | H : cdgData ?p = _ |- context [cdgData ?p] => rewrite H
         | H : animationFrame ?p = _ |- context [animationFrame ?p] => rewrite H
         | H : Qle_bool ?x ?y = _ |- context [Qle_bool ?x ?y] => rewrite H
         | H : (?x >? ?y) = _ |- context [?x >? ?y] => rewrite H
         end;
  cbn [isNull negb orb andb].

(** Symbolic execution of a method from a player whose flags are known. *)
Ltac wp_exec lems :=
  repeat (cbv beta zeta; known_fields;
          lazymatch goal with
          | |- wp stop _ _ _ => apply wp_stop
          | |- wp emitFrame _ _ _ => apply wp_emitFrame_any
          | |- wp (mbind _ _) _ _ _ => apply wp_bind
          | |- wp this _ _ _ => apply wp_this
          | |- wp (modify _) _ _ _ => apply wp_modify
          | |- wp (emit _) _ _ _ => apply wp_emit
          | |- wp (mret _) _ _ _ => apply wp_ret
          | |- wp getState _ _ _ => apply wp_getState
          | |- wp throw _ _ _ => apply wp_throw
          | |- wp (if ?c then _ else _) _ _ _ => destruct c eqn:?
          | |- wp (match ?x with _ => _ end) _ _ _ => destruct x eqn:?
          | |- wp _ _ _ _ => lems
          end).

Section Resume.
Variables (p : CdgPlayer) (a b : Z).
Hypothesis Hloaded : is_Some (cdgData p).
Hypothesis Hplaying : playing (state p) = true.
Hypothesis Hpaused : paused (state p) = false.

Lemma pause_acts :
  pause a p = mkRun (Some tt) (pausedAt a p) [EvPause (state (pausedAt a p))].
Proof. by rewrite pause_run, Hplaying, Hpaused. Qed.

Lemma update_startTime now q :
  wp (update now) (fun _ q' => startTime q' = startTime q)
    (fun q' => startTime q' = startTime q) q.
Proof. unfold update, applyPacketsFromTo. wp_exec fail; by known_fields. Qed.

Lemma resume_startTime :
  startTime (after (play b (pausedAt a p)))
  = (startTime p + (inject_Z b - inject_Z a))%Q.
Proof.
  destruct Hloaded as [d Hd].
  assert (Hwp : wp (play b)
            (fun _ q => startTime q = (startTime p + (inject_Z b - inject_Z a))%Q)
            (fun q => startTime q = (startTime p + (inject_Z b - inject_Z a))%Q)
            (pausedAt a p)).
  { unfold play, startAnimationLoop, stopAnimationLoop.
    wp_exec ltac:(eapply wp_conseq;
                  [ apply update_startTime
                  | cbv beta; intros [] ? ?
                  | cbv beta; intros ? ? ]);
      unfold pausedAt in *; fields; congruence. }
  unfold wp in Hwp. by destruct (value (play b (pausedAt a p))).
Qed.

End Resume.

(** Pausing at wall-clock time [a] and resuming at [b] moves the start
    anchor by [b - a]: the elapsed time the loop computes at the moment of
    the resume is the elapsed time at the moment of the pause. *)
Theorem pause_resume_keeps_position (p : CdgPlayer) (a b : Z) :
  is_Some (cdgData p) -> playing (state p) = true -> paused (state p) = false ->
  let p1 := after (pause a p) in
  let p2 := after (play b p1) in
  paused (state p1) = true /\ playing (state p1) = true
  /\ pauseTime p1 = a /\ animationFrame p1 = false
  /\ events (pause a p) = [EvPause (state p1)]
  /\ startTime p2 = (startTime p + (inject_Z b - inject_Z a))%Q
  /\ (inject_Z b - startTime p2 == inject_Z a - startTime p)%Q.
Proof.
  intros Hloaded Hplaying Hpaused. cbv zeta.
  rewrite (pause_acts p a Hplaying Hpaused). cbn [after events].
  rewrite (resume_startTime p a b Hloaded Hplaying).
  unfold pausedAt. fields. rewrite Hplaying.
  repeat split. ring.
Qed.

Lemma pause_resume_keeps_position_witness :
  let p1 := after (pause 30 playingAt10) in
  let p2 := after (play 70 p1) in
  paused (state p1) = true /\ playing (state p1) = true
  /\ pauseTime p1 = 30 /\ animationFrame p1 = false
  /\ events (pause 30 playingAt10) = [EvPause (state p1)]
  /\ startTime p2 = (startTime playingAt10 + (inject_Z 70 - inject_Z 30))%Q
  /\ (inject_Z 70 - startTime p2 == inject_Z 30 - startTime playingAt10)%Q.
Proof.
  apply (pause_resume_keeps_position playingAt10 30 70).
  - rewrite playingAt10_data. by eexists.
  - apply playingAt10_state.
  - apply playingAt10_state.
Defined.

(** * Calls and the events they emit *)

Section WithEvents.
Context {A B : Type}.
Implicit Types (p : CdgPlayer).

Lemma wpe_bind (m : M A) (f : A -> M B) (R : B -> CdgPlayer -> list Event -> Prop)
    (E : CdgPlayer -> list Event -> Prop) p :
  wpe m (fun a q evs => wpe (f a) (fun c q' evs' => R c q' (evs ++ evs'))
                          (fun q' evs' => E q' (evs ++ evs')) q) E p ->
  wpe (m ≫= f) R E p.
Proof.
  unfold wpe, mbind, M_bind. cbv zeta.
  destruct (value (m p)) as [a|]; cbn [value after events]; [| done].
  by destruct (value (f a (after (m p)))).
Qed.

Lemma wpe_ret (a : A) (Q : A -> CdgPlayer -> list Event -> Prop) E p :
  Q a p [] -> wpe (mret a) Q E p.
Proof. done. Qed.

Lemma wpe_conseq (m : M A) (Q Q' : A -> CdgPlayer -> list Event -> Prop)
    (E E' : CdgPlayer -> list Event -> Prop) p :
  wpe m Q' E' p -> (forall a q evs, Q' a q evs -> Q a q evs) ->
  (forall q evs, E' q evs -> E q evs) -> wpe m Q E p.
Proof.
  unfold wpe. intros H HQ HE. destruct (value (m p)); [by apply HQ | by apply HE].
Qed.

End WithEvents.

Section WithEventsUnit.
Implicit Types (p : CdgPlayer) (E : CdgPlayer -> list Event -> Prop).

Lemma wpe_this (Q : CdgPlayer -> CdgPlayer -> list Event -> Prop) E p :
  Q p p [] -> wpe this Q E p.
Proof. done. Qed.

Lemma wpe_modify f (Q : unit -> CdgPlayer -> list Event -> Prop) E p :
  Q tt (f p) [] -> wpe (modify f) Q E p.
Proof. done. Qed.

Lemma wpe_emit e (Q : unit -> CdgPlayer -> list Event -> Prop) E p :
  Q tt p [e] -> wpe (emit e) Q E p.
Proof. done. Qed.

Lemma wpe_getState (Q : CdgPlayerState -> CdgPlayer -> list Event -> Prop) E p :
  Q (state p) p [] -> wpe getState Q E p.
Proof. done. Qed.

Lemma wpe_stop (Q : unit -> CdgPlayer -> list Event -> Prop) E p :
  Q tt (stopped p) [EvStop (state (stopped p))] -> wpe stop Q E p.
Proof. intros HQ. unfold wpe. by rewrite stop_run. Qed.

(** [emitFrame] on a loaded player whose frame is produced emits it. *)
Lemma wpe_emitFrame (Q : unit -> CdgPlayer -> list Event -> Prop) E p px :
  is_Some (cdgData p) -> getVisibleRgbaFrame (renderer p) = Some px ->
  Q tt p [EvFrame {| width := CDG_VISIBLE_WIDTH; height := CDG_VISIBLE_HEIGHT;
                     rgba := px; timestamp := currentTime (state p) |}] ->
  wpe emitFrame Q E p.
Proof.
  intros [d Hd] Hpx HQ. unfold wpe. by rewrite emitFrame_run, Hd, Hpx.
Qed.

End WithEventsUnit.

(** Symbolic execution that keeps the events. *)
Ltac wpe_exec lems :=
  repeat (cbv beta zeta; known_fields;
          lazymatch goal with
          | |- wpe stop _ _ _ => apply wpe_stop
          | |- wpe (mbind _ _) _ _ _ => apply wpe_bind
          | |- wpe this _ _ _ => apply wpe_this
          | |- wpe (modify _) _ _ _ => apply wpe_modify
          | |- wpe (emit _) _ _ _ => apply wpe_emit
          | |- wpe (mret _) _ _ _ => apply wpe_ret
          | |- wpe getState _ _ _ => apply wpe_getState
          | |- wpe (if ?c then _ else _) _ _ _ => destruct c eqn:?
          | |- wpe (match ?x with _ => _ end) _ _ _ => destruct x eqn:?
          | |- wpe _ _ _ _ => lems
          end).

Section EndOfSong.
Variables (p : CdgPlayer) (d : ParsedCdg) (t : Q) (now : Z).
Hypothesis Hd : cdgData p = Some d.
Hypothesis Hplaying : playing (state p) = true.
Hypothesis Hpaused : paused (state p) = false.
Hypothesis Hsized : gridSized (renderer p).
Hypothesis Hnear : Qle_bool (currentTime (state p) - 1000) t = true.
Hypothesis Hend : Qle_bool (duration (state p)) t = true.

Lemma sync_end_run :
  wpe (syncToAudioTime t now) (fun _ => ended) (fun _ _ => False) p.
Proof.
  unfold syncToAudioTime, applyPacketsFromTo.
  wpe_exec fail; unfold ended; cbn [app]; known_fields.
  - rewrite reset_gridSized by (by apply replayFromCursor_sized). done.
  - rewrite reset_gridSized by done. done.
Qed.

End EndOfSong.

(** A report of the audio clock at or past the duration (and not more than
    a second behind the current time) ends the song: the call returns,
    emits [stop] and then [ended], and leaves the player stopped at time 0
    with the renderer as constructed, the cursor at 0 and no timer. *)
Theorem sync_ends_song (p : CdgPlayer) (t : Q) (now : Z) :
  is_Some (cdgData p) -> playing (state p) = true -> paused (state p) = false ->
  gridSized (renderer p) ->
  (currentTime (state p) - 1000 <= t)%Q -> (duration (state p) <= t)%Q ->
  let run := syncToAudioTime t now p in
  value run = Some tt
  /\ events run = [EvStop (state (after run)); EvEnded]
  /\ playing (state (after run)) = false /\ paused (state (after run)) = false
  /\ currentTime (state (after run)) = 0%Q
  /\ renderer (after run) = newRenderer /\ packetIndex (after run) = 0%nat
  /\ animationFrame (after run) = false.
Proof.
  intros [d Hd] Hpl Hpa Hsz Hnear%Qle_bool_iff Hend%Qle_bool_iff. cbv zeta.
  pose proof (sync_end_run p d t now Hd Hpl Hpa Hsz Hnear Hend) as Hrun.
  unfold wpe in Hrun.
  destruct (value (syncToAudioTime t now p)) as [[]|]; [| destruct Hrun].
  split; [reflexivity | exact Hrun].
Qed.

Lemma sync_ends_song_witness :
  let run := syncToAudioTime 20 0 playingAt10 in
  value run = Some tt
  /\ events run = [EvStop (state (after run)); EvEnded]
  /\ playing (state (after run)) = false /\ paused (state (after run)) = false
  /\ currentTime (state (after run)) = 0%Q
  /\ renderer (after run) = newRenderer /\ packetIndex (after run) = 0%nat
  /\ animationFrame (after run) = false.
Proof.
  destruct playingAt10_state as (Hpl & Hpa & Hdu & Hct).
  apply (sync_ends_song playingAt10 20 0).
  - rewrite playingAt10_data. by eexists.
  - exact Hpl.
  - exact Hpa.
  - apply reachable_sized, playingAt10_reachable.
  - rewrite Hct. vm_compute. discriminate.
  - rewrite Hdu. vm_compute. discriminate.
Defined.

(** * The free-running loop *)

Section Forward.
Variables (buffer : list Z) (p : CdgPlayer) (m t : Q).
Hypothesis Hd : cdgData p = Some (parseCdgFile buffer).
Hypothesis Hsync : syncedUpTo (parseCdgFile buffer) m p.
Hypothesis Hforward : (m <= t)%Q.

(** Replaying from the cursor of a player that holds the packets up to
    [m] leaves it holding the packets up to a later [t]. *)
Lemma replayFromCursor_synced :
  renderer (replayFromCursor t p) = replayFromScratch (parseCdgFile buffer) t newRenderer
  /\ packetIndex (replayFromCursor t p)
     = length (upTo t (packets (parseCdgFile buffer))).
Proof.
  pose proof (parseCdgFile_ascending buffer) as Hasc.
  destruct Hsync as [Hrd Hidx].
  destruct (replayFromCursor_renderer p _ t Hd) as [Hr Hi].
  rewrite replayWhile_ascending in Hr, Hi by (by apply ascending_drop).
  cbn [fst snd] in Hr, Hi. rewrite Hidx in Hr, Hi.
  split.
  - rewrite Hr, Hrd. unfold replayFromScratch.
    fold (upTo m (packets (parseCdgFile buffer)))
         (upTo t (packets (parseCdgFile buffer))).
    by rewrite (upTo_split t m _ Hasc Hforward), fold_left_app.
  - by rewrite Hi, (upTo_split t m _ Hasc Hforward), length_app.
Qed.

End Forward.

Section Tick.
Variables (p : CdgPlayer) (d : ParsedCdg) (now : Z).
Hypothesis Hd : cdgData p = Some d.
Hypothesis Hplaying : playing (state p) = true.
Hypothesis Hpaused : paused (state p) = false.
Hypothesis Htimer : animationFrame p = true.

(** A turn of the loop before the end of the song. *)
Lemma tick_before_end :
  Qle_bool (duration (state p)) (inject_Z now - startTime p) = false ->
  wp (tick now)
    (fun _ q => state q = set_currentTime (inject_Z now - startTime p) (state p)
                /\ renderer q = renderer (replayFromCursor (inject_Z now - startTime p) p)
                /\ packetIndex q
                   = packetIndex (replayFromCursor (inject_Z now - startTime p) p)
                /\ cdgData q = cdgData p /\ startTime q = startTime p
                /\ animationFrame q = true)
    (fun q => state q = set_currentTime (inject_Z now - startTime p) (state p)
              /\ renderer q = renderer (replayFromCursor (inject_Z now - startTime p) p)
              /\ packetIndex q
                 = packetIndex (replayFromCursor (inject_Z now - startTime p) p)
              /\ cdgData q = cdgData p /\ startTime q = startTime p) p.
Proof.
  intros Hbefore. unfold tick, update, applyPacketsFromTo.
  wp_exec fail; known_fields; repeat split.
Qed.

(** A turn of the loop at or past the end of the song, when the frame is
    produced. *)
Lemma tick_at_end px :
  gridSized (renderer p) ->
  getVisibleRgbaFrame (renderer (replayFromCursor (inject_Z now - startTime p) p))
  = Some px ->
  Qle_bool (duration (state p)) (inject_Z now - startTime p) = true ->
  wpe (tick now)
    (fun _ q evs =>
       exists progress,
         evs = EvFrame {| width := CDG_VISIBLE_WIDTH; height := CDG_VISIBLE_HEIGHT;
                          rgba := px;
                          timestamp := (inject_Z now - startTime p)%Q |}
               :: progress ++ [EvStop (state q); EvEnded]
         /\ (progress = []
             \/ progress
                = [EvUpdate (set_currentTime (inject_Z now - startTime p) (state p))])
         /\ ended q [EvStop (state q); EvEnded])
    (fun _ _ => False) p.
Proof.
  intros Hsz Hpx Hend. unfold tick, update, applyPacketsFromTo.
  wpe_exec ltac:(eapply wpe_emitFrame;
                 [ known_fields; eexists; reflexivity | known_fields; exact Hpx | ]).
  - exists [EvUpdate (set_currentTime (inject_Z now - startTime p) (state p))].
    unfold ended. cbn [app]. known_fields.
    rewrite reset_gridSized by (by apply replayFromCursor_sized).
    split; [reflexivity |]. split; [right; reflexivity |]. repeat split.
  - exists []. unfold ended. cbn [app]. known_fields.
    rewrite reset_gridSized by (by apply replayFromCursor_sized).
    split; [reflexivity |]. split; [left; reflexivity |]. repeat split.
Qed.

End Tick.

(** While the song has not ended, a turn of the free-running loop at
    wall-clock time [now] sets the current time to the elapsed time
    [now - startTime] and brings the renderer and the cursor of a player
    that was in sync to exactly the packets up to that time: the renderer
    is the one a [seek] to the elapsed time leaves. This holds whether or
    not the frame of the turn can be produced. *)
Theorem tick_follows_the_clock (buffer : list Z) (p : CdgPlayer) (now : Z) :
  let d := parseCdgFile buffer in
  let elapsed := (inject_Z now - startTime p)%Q in
  cdgData p = Some d ->
  playing (state p) = true -> paused (state p) = false -> animationFrame p = true ->
  inSync d p ->
  (currentTime (state p) <= elapsed)%Q -> (0 <= elapsed)%Q ->
  (elapsed < duration (state p))%Q ->
  let p' := after (tick now p) in
  currentTime (state p') = elapsed
  /\ playing (state p') = true /\ paused (state p') = false
  /\ inSync d p'
  /\ renderer p' = renderer (after (seek elapsed now p)).
Proof.
  intros d elapsed Hd Hpl Hpa Htimer Hsync Hclock Hpos Hbefore p'.
  assert (Hnotend : Qle_bool (duration (state p)) elapsed = false).
  { destruct (Qle_bool (duration (state p)) elapsed) eqn:H; [| done].
    apply Qle_bool_iff in H. by apply Qlt_not_le in Hbefore. }
  assert (Hfields : state p' = set_currentTime elapsed (state p)
                    /\ renderer p' = renderer (replayFromCursor elapsed p)
                    /\ packetIndex p' = packetIndex (replayFromCursor elapsed p)).
  { pose proof (tick_before_end p d now Hd Hpl Hpa Htimer Hnotend) as Hwp.
    unfold wp in Hwp. subst p'.
    destruct (value (tick now p)); destruct Hwp as (H1 & H2 & H3 & _);
      (split; [exact H1 | split; [exact H2 | exact H3]]). }
  destruct Hfields as (Hst & Hrd & Hidx).
  destruct (replayFromCursor_synced buffer p (currentTime (state p)) elapsed Hd Hsync Hclock)
    as [Hrd' Hidx'].
  rewrite Hst. cbn [currentTime playing paused set_currentTime].
  split; [reflexivity |]. split; [exact Hpl |]. split; [exact Hpa |].
  split.
  - unfold inSync, syncedUpTo. rewrite Hst. cbn [currentTime set_currentTime].
    split; [rewrite Hrd; exact Hrd' | rewrite Hidx; exact Hidx'].
  - rewrite Hrd, Hrd'. rewrite (seek_renderer_replay buffer p elapsed now Hd).
    symmetry. apply replayFromScratch_base.
    + destruct Hsync as [-> _]. apply replayFromScratch_gridSized, gridSized_new.
    + by apply clamp_inside.
Qed.

(** At or past the end of the song, a turn of the loop whose frame is
    produced emits the frame, a progress update when the last one is more
    than 100 ms old, then [stop] and [ended], and leaves the player stopped
    at time 0 with the renderer as constructed and no timer. *)
Theorem tick_ends_song (p : CdgPlayer) (now : Z) :
  let elapsed := (inject_Z now - startTime p)%Q in
  is_Some (cdgData p) ->
  playing (state p) = true -> paused (state p) = false -> animationFrame p = true ->
  gridSized (renderer p) ->
  is_Some (getVisibleRgbaFrame (renderer (replayFromCursor elapsed p))) ->
  (duration (state p) <= elapsed)%Q ->
  let run := tick now p in
  value run = Some tt
  /\ (exists frame progress,
        events run = EvFrame frame :: progress ++ [EvStop (state (after run)); EvEnded]
        /\ timestamp frame = elapsed
        /\ (progress = [] \/ progress = [EvUpdate (set_currentTime elapsed (state p))]))
  /\ playing (state (after run)) = false /\ paused (state (after run)) = false
  /\ currentTime (state (after run)) = 0%Q
  /\ renderer (after run) = newRenderer /\ packetIndex (after run) = 0%nat
  /\ animationFrame (after run) = false.
Proof.
  intros elapsed [d Hd] Hpl Hpa Htimer Hsz [px Hpx] Hend%Qle_bool_iff run.
  pose proof (tick_at_end p d now Hd Hpl Hpa Htimer px Hsz Hpx Hend) as Hrun.
  unfold wpe in Hrun. subst run.
  destruct (value (tick now p)) as [[]|]; [| destruct Hrun].
  destruct Hrun as (progress & Hev & Hprog & _ & Hfinal).
  split; [reflexivity |]. split; [| exact Hfinal].
  eexists _, progress. split; [exact Hev |]. split; [reflexivity | exact Hprog].
Qed.

Section SeekAnchor.
Variables (p : CdgPlayer) (d : ParsedCdg) (t : Q) (now : Z).
Hypothesis Hd : cdgData p = Some d.

(** What [seek] does to the fields of the clock, whether or not its frame
    can be produced. *)
Lemma seek_clock :
  let q := after (seek t now p) in
  startTime q
  = (if playing (state p) && negb (paused (state p))
     then (inject_Z now - mathMax 0 (mathMin t (duration (state p))))%Q
     else startTime p)
  /\ pauseTime q = pauseTime p /\ animationFrame q = animationFrame p
  /\ lastUpdateTime q = lastUpdateTime p.
Proof.
  cbv zeta.
  assert (Hwp : wp (seek t now)
            (fun _ q =>
               startTime q
               = (if playing (state p) && negb (paused (state p))
                  then (inject_Z now - mathMax 0 (mathMin t (duration (state p))))%Q
                  else startTime p)
               /\ pauseTime q = pauseTime p /\ animationFrame q = animationFrame p
               /\ lastUpdateTime q = lastUpdateTime p)
            (fun q =>
               startTime q
               = (if playing (state p) && negb (paused (state p))
                  then (inject_Z now - mathMax 0 (mathMin t (duration (state p))))%Q
                  else startTime p)
               /\ pauseTime q = pauseTime p /\ animationFrame q = animationFrame p
               /\ lastUpdateTime q = lastUpdateTime p) p).
  { unfold seek, applyPacketsUpTo.
    destruct (playing (state p)) eqn:Hpl, (paused (state p)) eqn:Hpa;
      wp_exec fail; known_fields; repeat split. }
  unfold wp in Hwp. by destruct (value (seek t now p)).
Qed.

End SeekAnchor.

Section Witnesses.

Lemma playingAt10_clock :
  startTime playingAt10 = (inject_Z 0 - mathMax 0 (mathMin 10 (packetTime 4)))%Q.
Proof.
  destruct playingSong_state as (Hpl & Hpa & Hdu).
  destruct (seek_clock playingSong _ 10 0 playingSong_data) as (Hst & _).
  unfold playingAt10. cbn [perform]. rewrite Hst, Hpl, Hpa, Hdu. reflexivity.
Qed.

Lemma transparentFile_inside : viewSafeFile transparentFile.
Proof.
  unfold viewSafeFile. destruct transparentFile_packets as [-> _].
  constructor; [| constructor]. cbn [instruction]. by intros inst [= <-].
Qed.

Lemma playingAt10_safe : safe playingAt10.
Proof.
  assert (Hcalls :
            performAll [CallLoadSong (Some transparentFile) "song.mp3" "Song" "Singer" 1;
                        CallPlay 0; CallSeek 10 0] newPlayer = playingAt10).
  { unfold performAll, playingAt10, playingSong, loadedSong. cbn [fold_left].
    reflexivity. }
  rewrite <- Hcalls. clear Hcalls.
  apply performAll_safe; [| apply safe_new].
  constructor; [exact transparentFile_inside |].
  constructor; [exact I |]. constructor; [exact I |]. constructor.
Qed.

Lemma safe_timer (timer : bool) (q : CdgPlayer) :
  safe q -> safe (set_animationFrame timer q).
Proof. by apply safe_ext. Qed.

Lemma timer_state (timer : bool) (q : CdgPlayer) :
  state (set_animationFrame timer q) = state q.
Proof. reflexivity. Qed.

Lemma timer_cdgData (timer : bool) (q : CdgPlayer) :
  cdgData (set_animationFrame timer q) = cdgData q.
Proof. reflexivity. Qed.

Lemma timer_renderer (timer : bool) (q : CdgPlayer) :
  renderer (set_animationFrame timer q) = renderer q.
Proof. reflexivity. Qed.

Lemma timer_startTime (timer : bool) (q : CdgPlayer) :
  startTime (set_animationFrame timer q) = startTime q.
Proof. reflexivity. Qed.

Lemma timer_set (timer : bool) (q : CdgPlayer) :
  animationFrame (set_animationFrame timer q) = timer.
Proof. reflexivity. Qed.

Lemma timer_inSync (timer : bool) (q : CdgPlayer) (d : ParsedCdg) :
  inSync d q -> inSync d (set_animationFrame timer q).
Proof. intros H. exact H. Qed.

(** The player of the examples with its timer pending. *)
Lemma timerAt10_frame (t : Q) :
  is_Some (getVisibleRgbaFrame
             (renderer (replayFromCursor t (set_animationFrame true playingAt10)))).
Proof.
  apply safe_frame, replayFromCursor_safe, safe_timer, playingAt10_safe.
Qed.

End Witnesses.

Lemma tick_follows_the_clock_witness :
  let p := set_animationFrame true playingAt10 in
  let d := parseCdgFile transparentFile in
  let elapsed := (inject_Z 2 - startTime p)%Q in
  let p' := after (tick 2 p) in
  currentTime (state p') = elapsed
  /\ playing (state p') = true /\ paused (state p') = false
  /\ inSync d p'
  /\ renderer p' = renderer (after (seek elapsed 2 p)).
Proof.
  destruct playingAt10_state as (Hpl & Hpa & Hdu & Hct).
  apply (tick_follows_the_clock transparentFile (set_animationFrame true playingAt10) 2).
  - rewrite timer_cdgData. exact playingAt10_data.
  - rewrite timer_state. exact Hpl.
  - rewrite timer_state. exact Hpa.
  - apply timer_set.
  - apply timer_inSync. exact playingAt10_inSync.
  - rewrite timer_state, timer_startTime, Hct, playingAt10_clock.
    vm_compute. discriminate.
  - rewrite timer_startTime, playingAt10_clock.
    vm_compute. discriminate.
  - rewrite timer_state, timer_startTime, Hdu, playingAt10_clock.
    vm_compute. reflexivity.
Defined.

Lemma tick_ends_song_witness :
  let p := set_animationFrame true playingAt10 in
  let elapsed := (inject_Z 20 - startTime p)%Q in
  let run := tick 20 p in
  value run = Some tt
  /\ (exists frame progress,
        events run = EvFrame frame :: progress ++ [EvStop (state (after run)); EvEnded]
        /\ timestamp frame = elapsed
        /\ (progress = [] \/ progress = [EvUpdate (set_currentTime elapsed (state p))]))
  /\ playing (state (after run)) = false /\ paused (state (after run)) = false
  /\ currentTime (state (after run)) = 0%Q
  /\ renderer (after run) = newRenderer /\ packetIndex (after run) = 0%nat
  /\ animationFrame (after run) = false.
Proof.
  destruct playingAt10_state as (Hpl & Hpa & Hdu & Hct).
  apply (tick_ends_song (set_animationFrame true playingAt10) 20).
  - rewrite timer_cdgData, playingAt10_data. eexists. reflexivity.
  - rewrite timer_state. exact Hpl.
  - rewrite timer_state. exact Hpa.
  - apply timer_set.
  - rewrite timer_renderer.
    apply (reachable_sized playingAt10), playingAt10_reachable.
  - apply timerAt10_frame.
  - rewrite timer_state, timer_startTime, Hdu, playingAt10_clock.
    vm_compute. discriminate.
Defined.

(** * Loading a song *)

Section OneCall.



End OneCall.

Section Load.
Variables (buffer : list Z) (audio title' singer : string) (id : Z) (p : CdgPlayer).
Hypothesis Hsized : gridSized (renderer p).

Lemma bind_run {A B : Type} (m : M A) (f : A -> M B) (q q' : CdgPlayer) (a : A) :
  m q = mkRun (Some a) q' [] -> (m ≫= f) q = f a q'.
Proof.
  intros Hm. unfold mbind, M_bind. cbv zeta. rewrite Hm.
  cbn [value after events app]. apply run_eta.
Qed.

Lemma stopped_renderer_sized : gridSized (renderer (stopped p)).
Proof.
  unfold stopped. cbn [renderer]. destruct (isNull (cdgData p)); [done |].
  by apply reset_sized.
Qed.

Lemma loadedAtStart_data :
  cdgData (loadedAtStart buffer audio title' singer id p) = Some (parseCdgFile buffer).
Proof. unfold loadedAtStart. cbn [cdgData set_state]. by rewrite replayFromCursor_data. Qed.

Lemma loadedAtStart_state :
  state (loadedAtStart buffer audio title' singer id p)
  = {| playing := false; paused := false; currentTime := 0;
       duration := durationMs (parseCdgFile buffer); title := title';
       singerName := singer; songId := id; fileType := "cdg";
       audioPath := Some audio |}.
Proof. unfold loadedAtStart. cbn [state set_state]. by rewrite replayFromCursor_state. Qed.

Lemma loadedAtStart_timer :
  animationFrame (loadedAtStart buffer audio title' singer id p) = false.
Proof.
  unfold loadedAtStart. cbn [animationFrame set_state].
  by rewrite replayFromCursor_timer.
Qed.

Lemma loadSong_run :
  loadSong (Some buffer) audio title' singer id p
  = match getVisibleRgbaFrame (renderer (loadedAtStart buffer audio title' singer id p)) with
    | Some px =>
        mkRun (Some tt) (loadedAtStart buffer audio title' singer id p)
          [EvStop (state (stopped p));
           EvFrame {| width := CDG_VISIBLE_WIDTH; height := CDG_VISIBLE_HEIGHT;
                      rgba := px; timestamp := 0 |}]
    | None =>
        mkRun None (loadedAtStart buffer audio title' singer id p)
          [EvStop (state (stopped p))]
    end.
Proof.
  unfold loadSong. rewrite stop_bind. cbv zeta.
  rewrite modify_bind. fold (loadedFrom buffer audio title' singer id p).
  rewrite (bind_run _ _ _ _ tt
             (applyPacketsUpTo_run (loadedFrom buffer audio title' singer id p)
                (parseCdgFile buffer) 0 eq_refl)).
  fold (loadedAtStart buffer audio title' singer id p).
  rewrite emitFrame_run, loadedAtStart_data, loadedAtStart_state.
  by destruct (getVisibleRgbaFrame _).
Qed.

Lemma loadedAtStart_inSync :
  inSync (parseCdgFile buffer) (loadedAtStart buffer audio title' singer id p).
Proof.
  unfold inSync. rewrite loadedAtStart_state. cbn [currentTime].
  unfold syncedUpTo, loadedAtStart. cbn [renderer packetIndex set_state].
  destruct (replayFromCursor_renderer (loadedFrom buffer audio title' singer id p)
              (parseCdgFile buffer) 0 eq_refl) as [Hr Hi].
  unfold loadedFrom in Hr at 2 3 4, Hi at 2 3 4.
  cbn [packetIndex renderer set_state set_packetIndex set_renderer drop] in Hr, Hi.
  rewrite replayWhile_ascending in Hr, Hi by apply parseCdgFile_ascending.
  cbn [fst snd] in Hr, Hi.
  rewrite (reset_gridSized _ stopped_renderer_sized) in Hr.
  split; [| by rewrite Hi].
  rewrite Hr. unfold replayFromScratch.
  by rewrite (reset_gridSized _ gridSized_new).
Qed.

Lemma loadSong_after :
  after (loadSong (Some buffer) audio title' singer id p)
  = loadedAtStart buffer audio title' singer id p.
Proof. rewrite loadSong_run. by destruct (getVisibleRgbaFrame _). Qed.



End Load.

(** [loadSong] with a file that is read stops the player, announces the
    stop with the stopped state of the song that was loaded before, and
    leaves the new file loaded, not playing, at time 0 with the duration of
    the file, the renderer and the cursor holding exactly the packets
    stamped 0 or earlier, and no timer. When the first frame is produced
    the call returns and a frame stamped 0 follows the stop event; when it
    is not, the call raises after the stop event, and the new song stays
    loaded. *)
Theorem loadSong_loads (buffer : list Z) (audio title' singer : string) (id : Z)
    (p : CdgPlayer) :
  gridSized (renderer p) ->
  let d := parseCdgFile buffer in
  let run := loadSong (Some buffer) audio title' singer id p in
  let q := after run in
  cdgData q = Some d
  /\ state q = {| playing := false; paused := false; currentTime := 0;
                  duration := durationMs d; title := title'; singerName := singer;
                  songId := id; fileType := "cdg"; audioPath := Some audio |}
  /\ inSync d q
  /\ animationFrame q = false
  /\ (forall px, getVisibleRgbaFrame (renderer q) = Some px ->
        value run = Some tt
        /\ events run
           = [EvStop (set_currentTime 0 (set_paused false (set_playing false (state p))));
              EvFrame {| width := CDG_VISIBLE_WIDTH; height := CDG_VISIBLE_HEIGHT;
                         rgba := px; timestamp := 0 |}])
  /\ (getVisibleRgbaFrame (renderer q) = None ->
        value run = None
        /\ events run
           = [EvStop (set_currentTime 0 (set_paused false (set_playing false (state p))))]).
Proof.
  intros Hsized. cbv zeta. rewrite loadSong_after.
  split; [apply loadedAtStart_data |]. split; [apply loadedAtStart_state |].
  split; [by apply loadedAtStart_inSync |]. split; [apply loadedAtStart_timer |].
  rewrite loadSong_run.
  split; [intros px Hpx | intros Hpx]; rewrite Hpx; split; reflexivity.
Qed.

Lemma loadSong_loads_witness :
  let d := parseCdgFile tilePacket in
  let run := loadSong (Some tilePacket) "song.mp3" "Song" "Singer" 1 newPlayer in
  let q := after run in
  cdgData q = Some d
  /\ state q = {| playing := false; paused := false; currentTime := 0;
                  duration := durationMs d; title := "Song"; singerName := "Singer";
                  songId := 1; fileType := "cdg"; audioPath := Some "song.mp3"%string |}
  /\ inSync d q
  /\ animationFrame q = false
  /\ (forall px, getVisibleRgbaFrame (renderer q) = Some px ->
        value run = Some tt
        /\ events run
           = [EvStop (set_currentTime 0
                        (set_paused false (set_playing false (state newPlayer))));
              EvFrame {| width := CDG_VISIBLE_WIDTH; height := CDG_VISIBLE_HEIGHT;
                         rgba := px; timestamp := 0 |}])
  /\ (getVisibleRgbaFrame (renderer q) = None ->
        value run = None
        /\ events run
           = [EvStop (set_currentTime 0
                        (set_paused false (set_playing false (state newPlayer))))]).
Proof.
  apply (loadSong_loads tilePacket "song.mp3" "Song" "Singer" 1 newPlayer).
  apply gridSized_new.
Defined.

(** [loadSong] with a file that cannot be read raises after it has stopped
    the player: the stop event is emitted, the song that was loaded stays
    loaded with its title and duration, rewound to time 0 with the renderer
    as constructed, and a later [play] starts that song again. *)
Theorem loadSong_unreadable_keeps_song (audio title' singer : string) (id : Z)
    (p : CdgPlayer) (d : ParsedCdg) (now : Z) :
  cdgData p = Some d -> gridSized (renderer p) -> (0 < duration (state p))%Q ->
  let run := loadSong None audio title' singer id p in
  let q := after run in
  value run = None
  /\ events run = [EvStop (state q)]
  /\ cdgData q = Some d
  /\ state q = set_currentTime 0 (set_paused false (set_playing false (state p)))
  /\ renderer q = newRenderer /\ packetIndex q = 0%nat /\ animationFrame q = false
  /\ playing (state (after (play now q))) = true
  /\ cdgData (after (play now q)) = Some d.
Proof.
  intros Hd Hsized Hdur. cbv zeta.
  assert (Hrun : loadSong None audio title' singer id p
                 = mkRun None (stopped p) [EvStop (state (stopped p))]).
  { unfold loadSong. by rewrite stop_bind. }
  rewrite Hrun. cbn [value events after].
  assert (Hq : cdgData (stopped p) = Some d) by exact Hd.
  split; [done |]. split; [done |]. split; [done |]. split; [done |].
  split; [| split; [| split; [done |]]].
  - unfold stopped. cbn [renderer]. rewrite Hd. cbn [isNull].
    by apply reset_gridSized.
  - unfold stopped. cbn [packetIndex]. by rewrite Hd.
  - destruct (play_fresh (stopped p) d now Hq eq_refl eq_refl Hdur) as [Hpl _].
    split; [exact Hpl |]. rewrite <- Hq. apply keeps_play.
Qed.

Lemma loadSong_unreadable_keeps_song_witness :
  let run := loadSong None "other.mp3" "Other" "Singer" 2 playingAt10 in
  let q := after run in
  value run = None
  /\ events run = [EvStop (state q)]
  /\ cdgData q = Some (parseCdgFile transparentFile)
  /\ state q = set_currentTime 0 (set_paused false (set_playing false (state playingAt10)))
  /\ renderer q = newRenderer /\ packetIndex q = 0%nat /\ animationFrame q = false
  /\ playing (state (after (play 50 q))) = true
  /\ cdgData (after (play 50 q)) = Some (parseCdgFile transparentFile).
Proof.
  destruct playingAt10_state as (Hpl & Hpa & Hdu & Hct).
  apply (loadSong_unreadable_keeps_song "other.mp3" "Other" "Singer" 2 playingAt10
           (parseCdgFile transparentFile) 50).
  - exact playingAt10_data.
  - apply reachable_sized, playingAt10_reachable.
  - rewrite Hdu. vm_compute. reflexivity.
Defined.

(** * A song without a complete packet *)

Section EmptySong.
Variables (p : CdgPlayer) (d : ParsedCdg) (now : Z).
Hypothesis Hd : cdgData p = Some d.
Hypothesis Hplaying : playing (state p) = false.
Hypothesis Hpaused : paused (state p) = false.
Hypothesis Hsized : gridSized (renderer p).




End EmptySong.



(** * Seek as a replay from the constructed renderer *)

Section SeekReplay.
Variables (buffer : list Z) (p : CdgPlayer) (t : Q) (now : Z).
Hypothesis Hreach : reachable p.
Hypothesis Hd : cdgData p = Some (parseCdgFile buffer).

Lemma reachable_duration : duration (state p) = durationMs (parseCdgFile buffer).
Proof.
  destruct (reachable_consistent p Hreach) as (_ & _ & _ & Hdur & _).
  by destruct (Hdur _ Hd).
Qed.

(** Resetting the renderer of a reachable player and replaying is
    replaying on a renderer as constructed. *)
Lemma replayFromScratch_fresh (target : Q) :
  replayFromScratch (parseCdgFile buffer) target (renderer p)
  = fold_left applyPacket (upTo target (packets (parseCdgFile buffer))) newRenderer.
Proof.
  unfold replayFromScratch. rewrite reset_gridSized by (by apply reachable_sized).
  reflexivity.
Qed.

Lemma seek_cursor :
  packetIndex (after (seek t now p))
  = length (upTo (clamp t (durationMs (parseCdgFile buffer)))
              (packets (parseCdgFile buffer))).
Proof.
  rewrite (seek_packetIndex p _ t now Hd).
  rewrite replayWhile_ascending by apply parseCdgFile_ascending.
  cbn [snd]. rewrite reachable_duration.
  by rewrite (upTo_equal _ _ _ (seek_clamp t (durationMs (parseCdgFile buffer)))).
Qed.

End SeekReplay.

(** C3. For every player the calls of the host can reach, with a file
    loaded, [seek(t)] leaves the renderer that a renderer as constructed has
    after applying, in order, every decoded instruction with a timestamp of
    at most [t] clamped between 0 and the duration, and the cursor behind
    these packets. This is also what resetting the player's own renderer and
    replaying gives, whatever it held before, so nothing of the earlier
    state survives; the visible frame read after [seek(t)] is the visible
    frame of that replay (both reads raise, or both return the same
    bytes). *)
Theorem seek_is_full_replay (buffer : list Z) (p : CdgPlayer) (t : Q) (now : Z) :
  reachable p ->
  cdgData p = Some (parseCdgFile buffer) ->
  let d := parseCdgFile buffer in
  let target := clamp t (durationMs d) in
  let fresh := fold_left applyPacket (upTo target (packets d)) newRenderer in
  renderer (after (seek t now p)) = fresh
  /\ replayFromScratch d target (renderer p) = fresh
  /\ getVisibleRgbaFrame (renderer (after (seek t now p))) = getVisibleRgbaFrame fresh
  /\ packetIndex (after (seek t now p)) = length (upTo target (packets d)).
Proof.
  intros Hreach Hd. cbv zeta.
  pose proof (seek_renderer_replay buffer p t now Hd) as Hr.
  rewrite (reachable_duration buffer p Hreach Hd) in Hr.
  rewrite (replayFromScratch_fresh buffer p Hreach) in Hr.
  split; [exact Hr |].
  split; [by apply replayFromScratch_fresh |].
  split; [by rewrite Hr |].
  by apply seek_cursor.
Qed.

Lemma seek_is_full_replay_witness :
  let d := parseCdgFile transparentFile in
  let target := clamp 5 (durationMs d) in
  let fresh := fold_left applyPacket (upTo target (packets d)) newRenderer in
  renderer (after (seek 5 0 playingAt10)) = fresh
  /\ replayFromScratch d target (renderer playingAt10) = fresh
  /\ getVisibleRgbaFrame (renderer (after (seek 5 0 playingAt10)))
     = getVisibleRgbaFrame fresh
  /\ packetIndex (after (seek 5 0 playingAt10)) = length (upTo target (packets d)).
Proof.
  apply (seek_is_full_replay transparentFile playingAt10 5 0).
  - exact playingAt10_reachable.
  - exact playingAt10_data.
Defined.

(** The renderer of the example player is not the constructed one (its
    transparent index is 0), and the seek to 5 ms, before the one packet of
    the song, gives the constructed one back. *)
Lemma seek_forgets_renderer :
  transparentColor (renderer playingAt10) = 0
  /\ renderer (after (seek 5 0 playingAt10)) = newRenderer.
Proof.
  split.
  - destruct playingAt10_renderer as [-> _]. reflexivity.
  - rewrite (seek_renderer_replay transparentFile playingAt10 5 0 playingAt10_data).
    rewrite (replayFromScratch_fresh transparentFile playingAt10 playingAt10_reachable).
    destruct playingAt10_state as (_ & _ & -> & _).
    destruct transparentFile_packets as [-> _].
    assert (Hnone : upTo (clamp 5 (packetTime 4))
                      [ {| timeMs := packetTime 3;
                           instruction := Some (defineTransparent 0) |} ] = [])
      by (vm_compute; reflexivity).
    rewrite Hnone. reflexivity.
Qed.
